(** * music-rapper: command interpretation and pattern generation

    A shallow embedding of [src/command_parser.py], [src/pattern_builder.py]
    and [src/music_generator.py], followed by the properties of the
    natural-language specification that concern them; then of
    [src/sample_processor.py] and of the note sending of
    [src/fl_controller.py], with further properties of all five.

    Conventions of the embedding.
    - Text is a [string] whose characters are read as code points below 256
      (Latin-1); [str.lower], [str.strip] and the [re] classes [\s], [\d]
      and [.] are the restrictions of Python's to that range.
    - A Python [float] is an exact rational [Q]: comparisons are the ones of
      the code, rounding of products and quotients is not represented.
    - Python [int] is [Z]; [None] is [None]; a raised exception is a value of
      [result].
    - The module-level generator of [random] is an explicit state threaded
      through every call that draws from it.
    - An audio array is a list of samples or a list of rows of samples; what
      the audio and MIDI libraries do is left open (a type class), and what
      a run writes, sends or sleeps is the list of those calls. *)

From Stdlib Require Import ZArith QArith Ascii String List Bool Lia Lqa Permutation Sorted.
From stdpp Require Import gmap strings.

Import ListNotations.
Local Open Scope string_scope.
Local Open Scope list_scope.
Local Open Scope Z_scope.

(** ** Exceptions *)

Inductive exn : Type :=
| ValueError
| ZeroDivisionError
| KeyError
| IndexError.

Inductive result (A : Type) : Type :=
| Ok (a : A)
| Raise (e : exn).

Arguments Ok {A} a.
Arguments Raise {A} e.

Definition rbind {A B : Type} (x : result A) (f : A -> result B) : result B :=
  match x with
  | Ok a => f a
  | Raise e => Raise e
  end.

Notation "'let*' x ':=' e 'in' k" := (rbind e (fun x => k))
  (at level 10, x name, e at level 100, k at level 200).

(** ** Python strings *)

Module Str.

Definition code (c : ascii) : N := N_of_ascii c.

Definition between (lo hi : N) (c : ascii) : bool :=
  (N.leb lo (code c) && N.leb (code c) hi)%bool.

(** [str.isspace] on one character: TAB..CR, FS..US, space, NEL, NBSP. *)
Definition isspace (c : ascii) : bool :=
  (between 9 13 c || between 28 32 c || N.eqb (code c) 133 || N.eqb (code c) 160)%bool.

(** Decimal digits, the class [\d]. *)
Definition isdigit (c : ascii) : bool := between 48 57 c.

(** Characters that [str.lower] changes: A..Z and the Latin-1 capitals
    (0xC0..0xDE without the multiplication sign 0xD7). *)
Definition isupper (c : ascii) : bool :=
  (between 65 90 c || (between 192 222 c && negb (N.eqb (code c) 215)))%bool.

Definition lower_char (c : ascii) : ascii :=
  if isupper c then ascii_of_N (code c + 32) else c.

(** [str.upper] on the characters a key token can hold (ASCII letters). *)
Definition upper_char (c : ascii) : ascii :=
  if between 97 122 c then ascii_of_N (code c - 32) else c.

Fixpoint map_chars (f : ascii -> ascii) (s : string) : string :=
  match s with
  | EmptyString => EmptyString
  | String c s' => String (f c) (map_chars f s')
  end.

Definition lower (s : string) : string := map_chars lower_char s.
Definition upper (s : string) : string := map_chars upper_char s.

Fixpoint lstrip (s : string) : string :=
  match s with
  | EmptyString => EmptyString
  | String c s' => if isspace c then lstrip s' else s
  end.

(** Drops the trailing white space: a character is kept when it is not a
    space or when something is kept after it. *)
Fixpoint rstrip (s : string) : string :=
  match s with
  | EmptyString => EmptyString
  | String c s' =>
      match rstrip s' with
      | EmptyString => if isspace c then EmptyString else String c EmptyString
      | t => String c t
      end
  end.

Definition strip (s : string) : string := rstrip (lstrip s).

(** [w in s]: [w] occurs in [s] as a contiguous substring. *)
Fixpoint contains (w s : string) : bool :=
  if String.prefix w s then true
  else match s with
       | EmptyString => false
       | String _ s' => contains w s'
       end.

(** [s.endswith(w)]. *)
Definition endswith (w s : string) : bool :=
  let n := String.length s in
  let k := String.length w in
  (Nat.leb k n && String.eqb (String.substring (n - k) k s) w)%bool.

(** [s[:-1]]. *)
Definition drop_last (s : string) : string :=
  String.substring 0 (String.length s - 1) s.

(** [s.replace(a, b)] for single characters. *)
Definition replace_char (a b : ascii) (s : string) : string :=
  map_chars (fun c => if Ascii.eqb c a then b else c) s.

(** [any(w in s for w in ws)]. *)
Definition any_in (ws : list string) (s : string) : bool :=
  existsb (fun w => contains w s) ws.

Definition digit_val (c : ascii) : Z := Z.of_N (code c) - 48.

Fixpoint digits_acc (acc : Z) (s : string) : option Z :=
  match s with
  | EmptyString => Some acc
  | String c s' => if isdigit c then digits_acc (10 * acc + digit_val c) s' else None
  end.

(** [int(s)] on an optionally signed run of decimal digits, of any length.
    An interpreter that limits the number of digits [int] converts (4300
    by default) raises a [ValueError] beyond its limit: a statement that
    says that a conversion returns is made for texts within that limit
    ([within_digit_limit]). *)
Definition int (s : string) : result Z :=
  match s with
  | EmptyString => Raise ValueError
  | String c s' =>
      if Ascii.eqb c "-"%char then
        match s', digits_acc 0 s' with
        | String _ _, Some n => Ok (- n)
        | _, _ => Raise ValueError
        end
      else
        match digits_acc 0 s with
        | Some n => Ok n
        | None => Raise ValueError
        end
  end.

(** Splits at the first dot. *)
Fixpoint split_dot (s : string) : string * option string :=
  match s with
  | EmptyString => (EmptyString, None)
  | String "."%char s' => (EmptyString, Some s')
  | String c s' => let '(a, b) := split_dot s' in (String c a, b)
  end.

(** [float(s)] on text made of digits and dots: digits with at most one
    dot and at least one digit; anything else is a [ValueError]. *)
Definition float (s : string) : result Q :=
  let '(ip, rest) := split_dot s in
  let fp := match rest with Some f => f | None => EmptyString end in
  match digits_acc 0 ip, digits_acc 0 fp with
  | Some i, Some f =>
      if (Nat.eqb (String.length ip + String.length fp) 0)%nat then Raise ValueError
      else Ok (Qred (inject_Z i + Qmake f (Pos.pow 10 (Pos.of_nat (String.length fp)))))
  | _, _ => Raise ValueError
  end.

End Str.

(** ** The fragment of [re] that the patterns of the parser use

    Backtracking matcher in continuation-passing style, with Python's
    priorities: the left alternative first, a greedy quantifier the longest
    repetition first, a lazy one the shortest first; [search] takes the
    leftmost start position.  Repetition is only ever applied to a single
    character class in the patterns, and so it is here. *)

Module Re.

Inductive regex : Type :=
| Eps                                   (* the empty pattern *)
| Class (p : ascii -> bool)             (* one character of a class *)
| Seq (r1 r2 : regex)                   (* r1 r2 *)
| Alt (r1 r2 : regex)                   (* r1|r2 *)
| Opt (r : regex)                       (* r? *)
| Star (greedy : bool) (p : ascii -> bool)  (* [p]* and [p]*? *)
| Group (i : nat) (r : regex).          (* the i-th capturing group *)

(** Captured groups: group number to captured text. *)
Abbreviation captures := (gmap nat string).

Definition orelse {A : Type} (x y : option A) : option A :=
  match x with
  | Some a => Some a
  | None => y
  end.

(** The text consumed between the suffix [s] and its own suffix [s']. *)
Definition consumed (s s' : list ascii) : string :=
  string_of_list_ascii (firstn (length s - length s') s).

Fixpoint run (r : regex) (k : list ascii -> captures -> option captures)
         (s : list ascii) (c : captures) : option captures :=
  match r with
  | Eps => k s c
  | Class p =>
      match s with
      | a :: s' => if p a then k s' c else None
      | [] => None
      end
  | Seq r1 r2 => run r1 (run r2 k) s c
  | Alt r1 r2 => orelse (run r1 k s c) (run r2 k s c)
  | Opt r1 => orelse (run r1 k s c) (k s c)
  | Star greedy p =>
      (fix loop (s : list ascii) : option captures :=
         match s with
         | a :: s' =>
             if p a then
               if greedy then orelse (loop s') (k s c) else orelse (k s c) (loop s')
             else k s c
         | [] => k s c
         end) s
  | Group i r1 => run r1 (fun s' c' => k s' (<[i := consumed s s']> c')) s c
  end.

(** [re.match]: a match that starts at the head of [s]. *)
Definition match_at (r : regex) (s : list ascii) : option captures :=
  run r (fun _ c => Some c) s ∅.

Fixpoint search_list (r : regex) (s : list ascii) : option captures :=
  match match_at r s with
  | Some c => Some c
  | None =>
      match s with
      | [] => None
      | _ :: s' => search_list r s'
      end
  end.

(** [re.search(r, s)]: the groups of the leftmost match, or [None]. *)
Definition search (r : regex) (s : string) : option captures :=
  search_list r (list_ascii_of_string s).

(** [m.group(i)]. *)
Definition group (m : captures) (i : nat) : option string := m !! i.

(** *** Pattern syntax *)

Definition chr (a : ascii) : regex := Class (Ascii.eqb a).

Fixpoint lit (s : string) : regex :=
  match s with
  | EmptyString => Eps
  | String a EmptyString => chr a
  | String a s' => Seq (chr a) (lit s')
  end.

Definition plus (greedy : bool) (p : ascii -> bool) : regex :=
  Seq (Class p) (Star greedy p).

Fixpoint seq (rs : list regex) : regex :=
  match rs with
  | [] => Eps
  | [r] => r
  | r :: rs' => Seq r (seq rs')
  end.

Fixpoint alt (rs : list regex) : regex :=
  match rs with
  | [] => Eps
  | [r] => r
  | r :: rs' => Alt r (alt rs')
  end.

(** [\s], [\d], [.] *)
Definition space : ascii -> bool := Str.isspace.
Definition digit : ascii -> bool := Str.isdigit.
Definition dot (a : ascii) : bool := negb (Ascii.eqb a "010"%char).

Definition one_of (cs : string) (a : ascii) : bool :=
  existsb (Ascii.eqb a) (list_ascii_of_string cs).

Definition spaces1 : regex := plus true space.      (* \s+ *)
Definition spaces0 : regex := Star true space.      (* \s* *)
Definition digits1 : regex := plus true digit.      (* \d+ *)

End Re.

(** ** [src/command_parser.py] *)

Module CommandParser.
Import Re.

(** One entry of the [operations] list. *)
Inductive operation : Type :=
| pitch_shift (semitones : Z)
| time_stretch (rate : Q)
| filter (filter_type : string) (cutoff : Z)
| slice (num_slices : Z).

(** The dictionary [parse] returns, by its ['type'] entry. *)
Inductive parsed : Type :=
| sample_process (sample_path : option string) (operations : list operation)
                 (insert_bar : option Z) (insert_beat : Z)
| generate_beat (genre : string) (bpm : option Z) (key : string) (bars : Z)
                (include_808 : bool)
| unknown (raw : string).

Inductive command_type : Type := SampleProcess | GenerateBeat | Unknown.

Definition type_of (c : parsed) : command_type :=
  match c with
  | sample_process _ _ _ _ => SampleProcess
  | generate_beat _ _ _ _ _ => GenerateBeat
  | unknown _ => Unknown
  end.

(** *** [self.patterns] *)

(** [(?:take|load|use|get)\s+(.+?\.(?:wav|mp3|flac|aiff))] *)
Definition pat_sample_process : regex :=
  seq [alt [lit "take"; lit "load"; lit "use"; lit "get"]; spaces1;
       Group 1 (seq [plus false dot; chr "."%char;
                     alt [lit "wav"; lit "mp3"; lit "flac"; lit "aiff"]])].

(** [pitch\s+(?:down|up)?\s*(-?\d+)\s*(?:semitones?|st)?] *)
Definition pat_pitch_shift : regex :=
  seq [lit "pitch"; spaces1; Opt (alt [lit "down"; lit "up"]); spaces0;
       Group 1 (seq [Opt (chr "-"%char); digits1]); spaces0;
       Opt (alt [seq [lit "semitone"; Opt (chr "s"%char)]; lit "st"])].

(** [stretch\s+(?:by\s+)?([0-9.]+)] *)
Definition pat_time_stretch : regex :=
  seq [lit "stretch"; spaces1; Opt (seq [lit "by"; spaces1]);
       Group 1 (plus true (one_of "0123456789."))].

(** [(lowpass|highpass|bandpass)\s+(?:filter\s+)?(?:at\s+)?(\d+)\s*(?:hz)?] *)
Definition pat_filter : regex :=
  seq [Group 1 (alt [lit "lowpass"; lit "highpass"; lit "bandpass"]); spaces1;
       Opt (seq [lit "filter"; spaces1]); Opt (seq [lit "at"; spaces1]);
       Group 2 digits1; spaces0; Opt (lit "hz")].

(** [(?:slice|chop)\s+(?:into\s+)?(\d+)\s*(?:slices?|parts?)?] *)
Definition pat_slice : regex :=
  seq [alt [lit "slice"; lit "chop"]; spaces1; Opt (seq [lit "into"; spaces1]);
       Group 1 digits1; spaces0;
       Opt (alt [seq [lit "slice"; Opt (chr "s"%char)];
                 seq [lit "part"; Opt (chr "s"%char)]])].

(** [insert\s+(?:at\s+)?(?:bar\s+)?(\d+)(?:\s+beat\s+)?(\d+)?] *)
Definition pat_insert_position : regex :=
  seq [lit "insert"; spaces1; Opt (seq [lit "at"; spaces1]);
       Opt (seq [lit "bar"; spaces1]); Group 1 digits1;
       Opt (seq [spaces1; lit "beat"; spaces1]); Opt (Group 2 digits1)].

(** [(?:at\s+)?(?:the\s+)?(?:end\s+of\s+)?(?:measure|bar)\s+(\d+)] *)
Definition pat_measure_position : regex :=
  seq [Opt (seq [lit "at"; spaces1]); Opt (seq [lit "the"; spaces1]);
       Opt (seq [lit "end"; spaces1; lit "of"; spaces1]);
       alt [lit "measure"; lit "bar"]; spaces1; Group 1 digits1].

(** [(?:beat|count)\s+(\d+)] *)
Definition pat_beat_position : regex :=
  seq [alt [lit "beat"; lit "count"]; spaces1; Group 1 digits1].

(** [create\s+(?:a\s+)?(.+?)\s+(?:style\s+)?beat] *)
Definition pat_create_beat : regex :=
  seq [lit "create"; spaces1; Opt (seq [lit "a"; spaces1]);
       Group 1 (plus false dot); spaces1; Opt (seq [lit "style"; spaces1]);
       lit "beat"].

(** [(memphis|trap|lofi|boom\s*bap|drill)] *)
Definition pat_genre : regex :=
  Group 1 (alt [lit "memphis"; lit "trap"; lit "lofi";
                seq [lit "boom"; spaces0; lit "bap"]; lit "drill"]).

(** [with\s+808s?] *)
Definition pat_with_808 : regex :=
  seq [lit "with"; spaces1; lit "808"; Opt (chr "s"%char)].

(** [(?:at\s+)?(\d+)\s*bpm] *)
Definition pat_bpm : regex :=
  seq [Opt (seq [lit "at"; spaces1]); Group 1 digits1; spaces0; lit "bpm"].

(** [(?:in\s+)?(?:key\s+of\s+)?([A-G][#b]?m?)] *)
Definition pat_key : regex :=
  seq [Opt (seq [lit "in"; spaces1]);
       Opt (seq [lit "key"; spaces1; lit "of"; spaces1]);
       Group 1 (seq [Class (one_of "ABCDEFG"); Opt (Class (one_of "#b"));
                     Opt (chr "m"%char)])].

(** [(\d+)\s+bars?] *)
Definition pat_bars : regex :=
  seq [Group 1 digits1; spaces1; lit "bar"; Opt (chr "s"%char)].

(** [m.group(i)] of a group that took part in the match. *)
Definition group_text (m : captures) (i : nat) : string :=
  match group m i with
  | Some s => s
  | None => EmptyString
  end.

(** Truth value of an [int] or [None]: [None] and [0] are false. *)
Definition truthy_int (x : option Z) : bool :=
  match x with
  | Some n => negb (Z.eqb n 0)
  | None => false
  end.

(** Truth value of a [str] or [None]: [None] and the empty string are false. *)
Definition truthy_str (x : option string) : bool :=
  match x with
  | Some s => negb (String.eqb s EmptyString)
  | None => false
  end.

(** *** [_parse_sample_command] *)

Definition _parse_sample_command (command : string) : result parsed :=
  (* Extract sample path *)
  let sample_path :=
    match search pat_sample_process command with
    | Some m => group m 1
    | None => None
    end in
  let operations : list operation := [] in
  (* Extract pitch shift *)
  let* operations :=
    match search pat_pitch_shift command with
    | Some m =>
        let* semitones := Str.int (group_text m 1) in
        let semitones :=
          if (Str.contains "pitch down" command && (0 <? semitones))%bool
          then - semitones else semitones in
        Ok (operations ++ [pitch_shift semitones])
    | None => Ok operations
    end in
  (* Extract time stretch *)
  let* operations :=
    match search pat_time_stretch command with
    | Some m =>
        let* rate := Str.float (group_text m 1) in
        Ok (operations ++ [time_stretch rate])
    | None => Ok operations
    end in
  (* Extract filter *)
  let* operations :=
    match search pat_filter command with
    | Some m =>
        let* cutoff := Str.int (group_text m 2) in
        Ok (operations ++ [filter (group_text m 1) cutoff])
    | None => Ok operations
    end in
  (* Extract slice *)
  let* operations :=
    match search pat_slice command with
    | Some m =>
        let* num_slices := Str.int (group_text m 1) in
        Ok (operations ++ [slice num_slices])
    | None => Ok operations
    end in
  (* Extract insert position *)
  let* position :=
    match search pat_insert_position command with
    | Some m =>
        let* bar := Str.int (group_text m 1) in
        let* beat :=
          if truthy_str (group m 2) then Str.int (group_text m 2) else Ok 1 in
        Ok (Some bar, beat)
    | None => Ok (None, 1)
    end in
  let '(insert_bar, insert_beat) := position in
  (* Alternative: measure position *)
  match search pat_measure_position command with
  | Some m =>
      if negb (truthy_int insert_bar) then
        let* bar := Str.int (group_text m 1) in
        (* Check for beat position *)
        let* beat :=
          match search pat_beat_position command with
          | Some bm => Str.int (group_text bm 1)
          | None => Ok insert_beat
          end in
        Ok (sample_process sample_path operations (Some bar) beat)
      else Ok (sample_process sample_path operations insert_bar insert_beat)
  | None => Ok (sample_process sample_path operations insert_bar insert_beat)
  end.

(** *** [_parse_generate_command] *)

(** The [for genre in [...]: if genre in description: ...; break] loop. *)
Definition first_genre_in (description : string) : option string :=
  List.find (fun genre => Str.contains genre description)
            ["memphis"; "trap"; "lofi"; "drill"].

Definition _parse_generate_command (command : string) : result parsed :=
  (* Extract genre *)
  let genre : option string :=
    match search pat_genre command with
    | Some m => Some (Str.replace_char " "%char "_"%char (group_text m 1))
    | None =>
        if Str.contains "beat" command then
          match search pat_create_beat command with
          | Some bm => first_genre_in (group_text bm 1)
          | None => None
          end
        else None
    end in
  (* Default to trap if no genre found *)
  let genre := if truthy_str genre then default "trap" genre else "trap" in
  (* Extract BPM *)
  let* bpm :=
    match search pat_bpm command with
    | Some m => let* n := Str.int (group_text m 1) in Ok (Some n)
    | None => Ok None
    end in
  (* Extract key *)
  let key :=
    match search pat_key command with
    | Some m => Str.upper (group_text m 1)
    | None => "C"
    end in
  (* Extract bars *)
  let* bars :=
    match search pat_bars command with
    | Some m => Str.int (group_text m 1)
    | None => Ok 4
    end in
  (* Check for 808s *)
  let include_808 :=
    match search pat_with_808 command with
    | Some _ => true
    | None => false
    end in
  Ok (generate_beat genre bpm key bars include_808).

(** *** [parse] *)

Definition sample_words : list string := ["take"; "load"; "use"; "sample"].
Definition create_words : list string := ["create"; "make"; "generate"].

Definition parse (command : string) : result parsed :=
  let command := Str.strip (Str.lower command) in
  (* Determine command type *)
  if Str.any_in sample_words command then _parse_sample_command command
  else if Str.any_in create_words command then _parse_generate_command command
  else Ok (unknown command).

End CommandParser.

(** ** [random]

    The generator behind [random.random], [random.randint] and
    [random.choice] is any state with a draw of a float in [0, 1) and a draw
    of an integer below a bound; the other two calls are defined from the
    second one as the library does. *)

Class RandomSource (rng : Type) : Type := {
  random : rng -> Q * rng;
  randbelow : Z -> rng -> Z * rng
}.

Section Random.
Context {rng : Type} `{RandomSource rng}.

(** [random.randint(a, b)] for [a <= b], the only way the code calls it. *)
Definition randint (a b : Z) (g : rng) : Z * rng :=
  let '(n, g) := randbelow (b - a + 1) g in (a + n, g).

(** [random.choice(seq)]: [IndexError] on an empty sequence. *)
Definition choice (seq : list Z) (g : rng) : result (Z * rng) :=
  match seq with
  | [] => Raise IndexError
  | _ =>
      let '(i, g) := randbelow (Z.of_nat (length seq)) g in
      match nth_error seq (Z.to_nat i) with
      | Some x => Ok (x, g)
      | None => Raise IndexError
      end
  end.
End Random.

(** A generator that replays a tape of raw draws and then repeats one value
    for ever.  [random()] reads a draw as hundredths. *)
Record Tape : Type := { draws : list Z; then_always : Z }.

Definition tape_next (t : Tape) : Z * Tape :=
  match draws t with
  | [] => (then_always t, t)
  | x :: rest => (x, {| draws := rest; then_always := then_always t |})
  end.

#[export] Instance tape_source : RandomSource Tape := {
  random t := let '(x, t) := tape_next t in (Qmake (x mod 100) 100, t);
  randbelow n t := let '(x, t) := tape_next t in (if n <=? 0 then 0 else x mod n, t)
}.

(** ** [src/pattern_builder.py] *)

Definition Qlt_bool (x y : Q) : bool := negb (Qle_bool y x).

(** [range(n)] *)
Definition range (n : Z) : list Z := map Z.of_nat (seq 0 (Z.to_nat n)).

(** [x in xs] on integers. *)
Definition is_in (x : Z) (xs : list Z) : bool := existsb (Z.eqb x) xs.

Module PatternBuilder.

(** A note event, the dictionary with entries note, velocity, time, duration. *)
Record NoteEvent : Type := {
  note : Z;
  velocity : Z;
  time : Q;
  duration : Q
}.

(** MIDI note numbers for drums (General MIDI). *)
Definition DRUM_NOTES : gmap string Z :=
  list_to_map
    [("kick", 36); ("snare", 38); ("clap", 39); ("hihat", 42);
     ("hihat_open", 46); ("crash", 49); ("ride", 51); ("tom_low", 45);
     ("tom_mid", 47); ("tom_high", 50); ("808", 35)].

Record PatternBuilder : Type := {
  bpm : Z;
  steps_per_bar : Z;
  step_duration : Q
}.

(** [__init__]: both divisions raise on a zero divisor. *)
Definition __init__ (bpm steps_per_bar : Z) : result PatternBuilder :=
  if bpm =? 0 then Raise ZeroDivisionError
  else if steps_per_bar =? 0 then Raise ZeroDivisionError
  else Ok {| bpm := bpm;
             steps_per_bar := steps_per_bar;
             step_duration :=
               (60 / inject_Z bpm / (inject_Z steps_per_bar / 4))%Q |}.

Definition default_steps_per_bar : Z := 16.

Section Patterns.
Context {rng : Type} `{RandomSource rng}.
Variable self : PatternBuilder.

(** [for step in range(total_steps): body], the body appending to [notes]. *)
Fixpoint for_each {A : Type} (body : A -> list NoteEvent -> rng -> list NoteEvent * rng)
         (xs : list A) (notes : list NoteEvent) (g : rng) : list NoteEvent * rng :=
  match xs with
  | [] => (notes, g)
  | x :: rest => let '(notes, g) := body x notes g in for_each body rest notes g
  end.

(** [notes.append({... 'velocity': random.randint(lo, hi) ...})] *)
Definition append_hit (drum : string) (lo hi : Z) (time duration : Q)
           (notes : list NoteEvent) (g : rng) : list NoteEvent * rng :=
  let '(v, g) := randint lo hi g in
  (notes ++ [{| note := DRUM_NOTES !!! drum; velocity := v;
                time := time; duration := duration |}], g).

(** One iteration of the loop of [_memphis_pattern]. *)
Definition memphis_step (complexity : Q) (step : Z)
           (notes : list NoteEvent) (g : rng) : list NoteEvent * rng :=
  let time := (inject_Z step * step_duration self)%Q in
  let bar_position := step mod steps_per_bar self in
  (* Kick on 1 and 3 (sometimes 4) *)
  let '(kick, g) :=
    if is_in bar_position [0; 8] then (true, g)
    else if bar_position =? 12 then
           let '(r, g) := random g in (Qlt_bool r complexity, g)
         else (false, g) in
  let '(notes, g) :=
    if kick then append_hit "kick" 90 110 time (step_duration self * 2)%Q notes g
    else (notes, g) in
  (* Snare on 2 and 4 *)
  let '(notes, g) :=
    if is_in bar_position [4; 12]
    then append_hit "snare" 100 120 time (step_duration self) notes g
    else (notes, g) in
  (* Rolling hi-hats (16th notes with variations) *)
  let '(hat, g) :=
    if bar_position mod 2 =? 0 then (true, g)
    else let '(r, g) := random g in (Qlt_bool r complexity, g) in
  if hat then
    if bar_position mod 2 =? 1
    then append_hit "hihat" 60 90 time (step_duration self * 0.8)%Q notes g
    else append_hit "hihat" 70 100 time (step_duration self * 0.8)%Q notes g
  else (notes, g).

Definition _memphis_pattern (bars : Z) (complexity : Q) (g : rng)
  : list NoteEvent * rng :=
  let total_steps := steps_per_bar self * bars in
  for_each (memphis_step complexity) (range total_steps) [] g.

(** The inner [for i in range(3)] of the triplet roll. *)
Definition roll_hit (time : Q) (i : Z) (notes : list NoteEvent) (g : rng)
  : list NoteEvent * rng :=
  append_hit "hihat" 80 100
             (time + inject_Z i * step_duration self / 3)%Q
             (step_duration self / 3)%Q notes g.

(** One iteration of the loop of [_trap_pattern]. *)
Definition trap_step (complexity : Q) (step : Z)
           (notes : list NoteEvent) (g : rng) : list NoteEvent * rng :=
  let time := (inject_Z step * step_duration self)%Q in
  let bar_position := step mod steps_per_bar self in
  (* Sparse kick pattern *)
  let '(notes, g) :=
    if is_in bar_position [0; 6; 10]
    then append_hit "kick" 100 127 time (step_duration self * 3)%Q notes g
    else (notes, g) in
  (* Snare on 3 (step 8) *)
  let '(notes, g) :=
    if bar_position =? 8
    then append_hit "snare" 110 127 time (step_duration self * 2)%Q notes g
    else (notes, g) in
  (* Hi-hat rolls *)
  let '(notes, g) :=
    if bar_position mod 2 =? 0
    then append_hit "hihat" 60 80 time (step_duration self * 0.7)%Q notes g
    else (notes, g) in
  (* Triplet hi-hat rolls (complexity-dependent) *)
  let '(roll, g) :=
    if (Qlt_bool 0.6 complexity && is_in bar_position [7; 15])%bool
    then let '(r, g) := random g in (Qlt_bool r 0.7, g)
    else (false, g) in
  if roll then for_each (roll_hit time) (range 3) notes g
  else (notes, g).

Definition _trap_pattern (bars : Z) (complexity : Q) (g : rng)
  : list NoteEvent * rng :=
  let total_steps := steps_per_bar self * bars in
  for_each (trap_step complexity) (range total_steps) [] g.

(** One iteration of the loop of [_lofi_pattern], for a swing factor. *)
Definition lofi_step (swing : Q) (step : Z)
           (notes : list NoteEvent) (g : rng) : list NoteEvent * rng :=
  (* Apply swing to off-beats *)
  let time :=
    if step mod 2 =? 1
    then (inject_Z (step - 1) * step_duration self + step_duration self * swing)%Q
    else (inject_Z step * step_duration self)%Q in
  let bar_position := step mod steps_per_bar self in
  (* Soft kick on 1 and 3 *)
  let '(notes, g) :=
    if is_in bar_position [0; 8]
    then append_hit "kick" 70 90 time (step_duration self * 2)%Q notes g
    else (notes, g) in
  (* Snare on 2 and 4 *)
  let '(notes, g) :=
    if is_in bar_position [4; 12]
    then append_hit "snare" 60 80 time (step_duration self) notes g
    else (notes, g) in
  (* Swung hi-hats *)
  if bar_position mod 2 =? 0
  then append_hit "hihat" 40 60 time (step_duration self) notes g
  else (notes, g).

(** [swing = 0.7] *)
Definition lofi_swing : Q := 0.7.

Definition _lofi_pattern (bars : Z) (complexity : Q) (g : rng)
  : list NoteEvent * rng :=
  let total_steps := steps_per_bar self * bars in
  let swing := lofi_swing in
  for_each (lofi_step swing) (range total_steps) [] g.

(** One iteration of the loop of [_boom_bap_pattern]. *)
Definition boom_bap_step (step : Z)
           (notes : list NoteEvent) (g : rng) : list NoteEvent * rng :=
  let time := (inject_Z step * step_duration self)%Q in
  let bar_position := step mod steps_per_bar self in
  (* Heavy kick *)
  let '(notes, g) :=
    if is_in bar_position [0; 10]
    then append_hit "kick" 110 127 time (step_duration self * 2)%Q notes g
    else (notes, g) in
  (* Snare on 2 and 4 *)
  let '(notes, g) :=
    if is_in bar_position [4; 12]
    then append_hit "snare" 100 120 time (step_duration self) notes g
    else (notes, g) in
  (* Hi-hats *)
  if bar_position mod 4 =? 0
  then append_hit "hihat" 50 70 time (step_duration self) notes g
  else (notes, g).

Definition _boom_bap_pattern (bars : Z) (complexity : Q) (g : rng)
  : list NoteEvent * rng :=
  let total_steps := steps_per_bar self * bars in
  for_each boom_bap_step (range total_steps) [] g.

(** [notes.append({... 'velocity': v ...})] with a fixed velocity. *)
Definition append_fixed (drum : string) (v : Z) (time duration : Q)
           (notes : list NoteEvent) : list NoteEvent :=
  notes ++ [{| note := DRUM_NOTES !!! drum; velocity := v;
               time := time; duration := duration |}].

(** One iteration of the loop of [_basic_pattern]; nothing is drawn. *)
Definition basic_step (step : Z)
           (notes : list NoteEvent) (g : rng) : list NoteEvent * rng :=
  let time := (inject_Z step * step_duration self)%Q in
  let bar_position := step mod steps_per_bar self in
  (* Kick on every beat *)
  let notes :=
    if bar_position mod 4 =? 0
    then append_fixed "kick" 100 time (step_duration self) notes else notes in
  (* Snare on 2 and 4 *)
  let notes :=
    if is_in bar_position [4; 12]
    then append_fixed "snare" 100 time (step_duration self) notes else notes in
  (* Hi-hats on 8th notes *)
  let notes :=
    if bar_position mod 2 =? 0
    then append_fixed "hihat" 80 time (step_duration self) notes else notes in
  (notes, g).

Definition _basic_pattern (bars : Z) (g : rng) : list NoteEvent * rng :=
  let total_steps := steps_per_bar self * bars in
  for_each basic_step (range total_steps) [] g.

Definition create_drum_pattern (style : string) (bars : Z) (complexity : Q)
           (g : rng) : list NoteEvent * rng :=
  if String.eqb (Str.lower style) "memphis" then _memphis_pattern bars complexity g
  else if String.eqb (Str.lower style) "trap" then _trap_pattern bars complexity g
  else if String.eqb (Str.lower style) "lofi" then _lofi_pattern bars complexity g
  else if String.eqb (Str.lower style) "boom_bap" then _boom_bap_pattern bars complexity g
  else _basic_pattern bars g.

End Patterns.

Section Bassline.
Context {rng : Type} `{RandomSource rng}.
Variable self : PatternBuilder.

(** A loop whose body may raise. *)
Fixpoint for_each_raising {A : Type}
         (body : A -> list NoteEvent -> rng -> result (list NoteEvent * rng))
         (xs : list A) (notes : list NoteEvent) (g : rng)
  : result (list NoteEvent * rng) :=
  match xs with
  | [] => Ok (notes, g)
  | x :: rest =>
      let* r := body x notes g in
      for_each_raising body rest (fst r) (snd r)
  end.

(** [range(0, n, 2)] *)
Definition range_by_two (n : Z) : list Z := List.filter Z.even (range n).

(** The hit of the simple pattern at position [beat] of bar [bar]. *)
Definition simple_hit (root_note bar beat : Z)
           (notes : list NoteEvent) (g : rng) : result (list NoteEvent * rng) :=
  let step := bar * steps_per_bar self + beat in
  let '(v, g) := randint 100 120 g in
  Ok (notes ++ [{| note := root_note; velocity := v;
                   time := (inject_Z step * step_duration self)%Q;
                   duration := (step_duration self * 3)%Q |}], g).

(** The hit of the bouncy pattern at position [pos] of bar [bar]. *)
Definition bouncy_hit (root_note : Z) (scale : list Z) (bar pos : Z)
           (notes : list NoteEvent) (g : rng) : result (list NoteEvent * rng) :=
  let step := bar * steps_per_bar self + pos in
  (* Vary notes using scale *)
  let* c := choice (firstn 4 scale) g in
  let note := root_note + fst c in
  let '(v, g) := randint 90 110 (snd c) in
  Ok (notes ++ [{| note := note; velocity := v;
                   time := (inject_Z step * step_duration self)%Q;
                   duration := (step_duration self * 2)%Q |}], g).

(** The hit of the rolling pattern at [step]. *)
Definition rolling_hit (root_note : Z) (scale : list Z) (step : Z)
           (notes : list NoteEvent) (g : rng) : result (list NoteEvent * rng) :=
  let* c := choice (firstn 3 scale) g in
  let note := root_note + fst c in
  let '(v, g) := randint 80 100 (snd c) in
  Ok (notes ++ [{| note := note; velocity := v;
                   time := (inject_Z step * step_duration self)%Q;
                   duration := (step_duration self * 1.5)%Q |}], g).

Definition create_808_bassline (root_note : Z) (scale : list Z) (bars : Z)
           (pattern_type : string) (g : rng) : result (list NoteEvent * rng) :=
  let notes : list NoteEvent := [] in
  let total_steps := steps_per_bar self * bars in
  if String.eqb pattern_type "simple" then
    (* Root note on beats 1 and 3 *)
    for_each_raising
      (fun bar => for_each_raising (simple_hit root_note bar) [0; 8])
      (range bars) notes g
  else if String.eqb pattern_type "bouncy" then
    (* More rhythmic 808 pattern *)
    for_each_raising
      (fun bar =>
         let pattern_steps := [0; 3; 6; 8; 11; 14] in
         for_each_raising (bouncy_hit root_note scale bar) pattern_steps)
      (range bars) notes g
  else if String.eqb pattern_type "rolling" then
    (* Fast 808 rolls *)
    for_each_raising (rolling_hit root_note scale) (range_by_two total_steps) notes g
  else Ok (notes, g).

End Bassline.

(** [list.sort(key=lambda x: x['time'])]: the library's sort is stable and
    compares keys with [<] only; an element is put in front of the first
    one of the sorted rest whose key is not smaller than its own. *)
Fixpoint insert_by_time (x : NoteEvent) (l : list NoteEvent) : list NoteEvent :=
  match l with
  | [] => [x]
  | y :: l' =>
      if Qlt_bool (time y) (time x) then y :: insert_by_time x l'
      else x :: y :: l'
  end.

Definition sort_by_time (l : list NoteEvent) : list NoteEvent :=
  fold_right insert_by_time [] l.

(** [combine_patterns( *patterns )] *)
Definition combine_patterns (patterns : list (list NoteEvent)) : list NoteEvent :=
  let combined := fold_left (fun combined pattern => combined ++ pattern) patterns [] in
  (* Sort by time *)
  sort_by_time combined.

End PatternBuilder.

(** ** [src/music_generator.py] *)

Module MusicGenerator.
Import PatternBuilder.

(** Musical scales (intervals from root). *)
Definition SCALES : gmap string (list Z) :=
  list_to_map
    [("major", [0; 2; 4; 5; 7; 9; 11]);
     ("minor", [0; 2; 3; 5; 7; 8; 10]);
     ("pentatonic_major", [0; 2; 4; 7; 9]);
     ("pentatonic_minor", [0; 3; 5; 7; 10]);
     ("blues", [0; 3; 5; 6; 7; 10]);
     ("harmonic_minor", [0; 2; 3; 5; 7; 8; 11]);
     ("dorian", [0; 2; 3; 5; 7; 9; 10])].

Record Template : Type := {
  tempo_range : Z * Z;
  scale : string;
  drum_style : string;
  bass_pattern : string;
  complexity : Q
}.

(** Genre templates. *)
Definition GENRE_TEMPLATES : gmap string Template :=
  list_to_map
    [("memphis", {| tempo_range := (160, 180); scale := "minor";
                    drum_style := "memphis"; bass_pattern := "simple";
                    complexity := 0.7 |});
     ("trap", {| tempo_range := (130, 150); scale := "minor";
                 drum_style := "trap"; bass_pattern := "bouncy";
                 complexity := 0.6 |});
     ("lofi", {| tempo_range := (70, 90); scale := "pentatonic_minor";
                 drum_style := "lofi"; bass_pattern := "simple";
                 complexity := 0.4 |});
     ("boom_bap", {| tempo_range := (85, 95); scale := "minor";
                     drum_style := "boom_bap"; bass_pattern := "simple";
                     complexity := 0.5 |});
     ("drill", {| tempo_range := (140, 150); scale := "harmonic_minor";
                  drum_style := "trap"; bass_pattern := "rolling";
                  complexity := 0.8 |})].

(** Note to MIDI mapping (C4 = 60). *)
Definition note_map : gmap string Z :=
  list_to_map
    [("C", 60); ("C#", 61); ("Db", 61);
     ("D", 62); ("D#", 63); ("Eb", 63);
     ("E", 64);
     ("F", 65); ("F#", 66); ("Gb", 66);
     ("G", 67); ("G#", 68); ("Ab", 68);
     ("A", 69); ("A#", 70); ("Bb", 70);
     ("B", 71)].

(** The root part of a key: the key without a trailing [m]. *)
Definition root_str (key : string) : string :=
  let key := Str.strip key in
  if Str.endswith "m" key then Str.drop_last key else key.

Definition _parse_key (key : string) (default_scale : string) : Z * string :=
  (* Extract root note and quality *)
  let key := Str.strip key in
  let scale_type := default_scale in
  (* Check for minor indicator *)
  let '(root_str, scale_type) :=
    if Str.endswith "m" key then (Str.drop_last key, "minor")
    else (key, if String.eqb default_scale "minor" then "major" else scale_type) in
  (* Get MIDI note *)
  let root_note := default 60 (note_map !! root_str) in
  (root_note, scale_type).

(** The dictionary [generate_beat] returns. *)
Record Beat : Type := {
  beat_genre : string;
  beat_bpm : Z;
  beat_key : string;
  beat_bars : Z;
  beat_drum_pattern : list NoteEvent;
  beat_bass_pattern : list NoteEvent;
  beat_combined_pattern : list NoteEvent;
  beat_scale : string;
  beat_root_note : Z
}.

(** The line [generate_beat] prints for a genre without a template. *)
Definition unknown_genre_notice (genre : string) : string :=
  ("Unknown genre '" ++ genre ++ "', using trap template")%string.

Section Generate.
Context {rng : Type} `{RandomSource rng}.

(** [generate_beat]: the lines printed, and the result or the exception. *)
Definition generate_beat (genre : string) (bpm : option Z) (key : string)
           (bars : Z) (include_808 : bool) (g : rng)
  : list string * result (Beat * rng) :=
  (* Get genre template *)
  let genre_lower := Str.lower genre in
  let '(printed, genre_lower) :=
    match GENRE_TEMPLATES !! genre_lower with
    | Some _ => ([], genre_lower)
    | None => ([unknown_genre_notice genre], "trap")
    end in
  (printed,
   match GENRE_TEMPLATES !! genre_lower with
   | None => Raise KeyError
   | Some template =>
       (* Set BPM *)
       let '(bpm, g) :=
         match bpm with
         | None => randint (fst (tempo_range template)) (snd (tempo_range template)) g
         | Some bpm => (bpm, g)
         end in
       (* Parse key to get root note and scale type *)
       let '(root_note, scale_type) := _parse_key key (scale template) in
       (* Initialize pattern builder with BPM *)
       let* pattern_builder := __init__ bpm default_steps_per_bar in
       (* Generate drum pattern *)
       let '(drum_pattern, g) :=
         create_drum_pattern pattern_builder (drum_style template) bars
                             (complexity template) g in
       (* Generate 808 bassline if requested *)
       let* bass :=
         if include_808 then
           let bass_root := root_note - 12 in
           match SCALES !! scale_type with
           | None => Raise KeyError
           | Some scale_intervals =>
               create_808_bassline pattern_builder bass_root scale_intervals
                                   bars (bass_pattern template) g
           end
         else Ok ([], g) in
       let '(bass_pattern, g) := bass in
       (* Combine patterns *)
       let combined_pattern := combine_patterns [drum_pattern; bass_pattern] in
       Ok ({| beat_genre := genre;
              beat_bpm := bpm;
              beat_key := key;
              beat_bars := bars;
              beat_drum_pattern := drum_pattern;
              beat_bass_pattern := bass_pattern;
              beat_combined_pattern := combined_pattern;
              beat_scale := scale_type;
              beat_root_note := root_note |}, g)
   end).

End Generate.

End MusicGenerator.

(** ** What a match of a pattern is

    [matches r s c s' c']: the pattern [r] can consume the text between [s]
    and its suffix [s'], taking the captures from [c] to [c'].  The matcher
    only ever hands such a pair to its continuation. *)

Module ReSpec.
Import Re.

Fixpoint matches (r : regex) (s : list ascii) (c : captures)
         (s' : list ascii) (c' : captures) : Prop :=
  match r with
  | Eps => s' = s /\ c' = c
  | Class p => exists a, s = a :: s' /\ p a = true /\ c' = c
  | Seq r1 r2 => exists s1 c1, matches r1 s c s1 c1 /\ matches r2 s1 c1 s' c'
  | Alt r1 r2 => matches r1 s c s' c' \/ matches r2 s c s' c'
  | Opt r1 => matches r1 s c s' c' \/ (s' = s /\ c' = c)
  | Star _ p => exists l, s = l ++ s' /\ forallb p l = true /\ c' = c
  | Group i r1 => exists c0, matches r1 s c s' c0 /\ c' = <[i := consumed s s']> c0
  end.

(** Text made of one decimal digit or more. *)
Definition digit_text (t : string) : Prop :=
  exists a l, t = string_of_list_ascii (a :: l) /\
              digit a = true /\ forallb digit l = true.

(** [int(t)] returns. *)
Definition int_ok (t : string) : Prop := exists n, Str.int t = Ok n.

End ReSpec.

(** ** Vocabulary of the statements about the parser *)

Module ParserSpec.
Import CommandParser.

(** Position of an operation in the order in which [_parse_sample_command]
    looks for operations: pitch, stretch, filter, slice. *)
Definition op_rank (o : operation) : nat :=
  match o with
  | pitch_shift _ => 0
  | time_stretch _ => 1
  | filter _ _ => 2
  | slice _ => 3
  end.

(** The operations are in that order, each kind at most once. *)
Definition in_checking_order (ops : list operation) : Prop :=
  StronglySorted Nat.lt (map op_rank ops).

(** The class [[A-G]] of the key pattern. *)
Definition capital_A_to_G : ascii -> bool := Re.one_of "ABCDEFG".

(** The white-space separated words of a text. *)
Fixpoint words_acc (cur : string) (s : string) : list string :=
  match s with
  | EmptyString => if String.eqb cur EmptyString then [] else [cur]
  | String c s' =>
      if Str.isspace c
      then (if String.eqb cur EmptyString then [] else [cur]) ++ words_acc EmptyString s'
      else words_acc (cur ++ String c EmptyString)%string s'
  end.

Definition words (s : string) : list string := words_acc EmptyString s.

(** A sample keyword is one of the words of the text. *)
Definition has_sample_word (s : string) : bool :=
  existsb (fun w => existsb (String.eqb w) sample_words) (words s).

End ParserSpec.

(** ** Vocabulary of the statements about patterns *)

Module PatternSpec.
Import PatternBuilder.

(** The events of a pattern that start at time [t], in pattern order. *)
Definition at_time (t : Q) (l : list NoteEvent) : list NoteEvent :=
  List.filter (fun e => Qeq_bool (time e) t) l.

(** [x] does not start after [y]. *)
Definition time_le (x y : NoteEvent) : Prop := (time x <= time y)%Q.

(** The rule set [create_drum_pattern] selects for a style name. *)
Inductive DrumStyle : Type := Memphis | Trap | Lofi | BoomBap | Basic.

Definition style_of (style : string) : DrumStyle :=
  if String.eqb (Str.lower style) "memphis" then Memphis
  else if String.eqb (Str.lower style) "trap" then Trap
  else if String.eqb (Str.lower style) "lofi" then Lofi
  else if String.eqb (Str.lower style) "boom_bap" then BoomBap
  else Basic.

(** A hit: what an event is apart from its velocity. *)
Record Hit : Type := {
  hit_note : Z;
  hit_time : Q;
  hit_duration : Q
}.

Definition hit_of (e : NoteEvent) : Hit :=
  {| hit_note := note e; hit_time := time e; hit_duration := duration e |}.

Definition hit (drum : string) (time duration : Q) : Hit :=
  {| hit_note := DRUM_NOTES !!! drum; hit_time := time; hit_duration := duration |}.

(** What a style adds at a step: hits that every run emits, and hits on
    which a draw decides, all of them or none. *)
Inductive Rule : Type :=
| Always (hits : list Hit)
| Drawn (hits : list Hit).

Definition memphis_rules (self : PatternBuilder) (step : Z) : list Rule :=
  let time := (inject_Z step * step_duration self)%Q in
  let bar_position := step mod steps_per_bar self in
  let kick := hit "kick" time (step_duration self * 2)%Q in
  let snare := hit "snare" time (step_duration self) in
  let hat := hit "hihat" time (step_duration self * 0.8)%Q in
  (if is_in bar_position [0; 8] then [Always [kick]]
   else if bar_position =? 12 then [Drawn [kick]] else []) ++
  (if is_in bar_position [4; 12] then [Always [snare]] else []) ++
  (if bar_position mod 2 =? 0 then [Always [hat]] else [Drawn [hat]]).

Definition trap_rules (self : PatternBuilder) (complexity : Q) (step : Z) : list Rule :=
  let time := (inject_Z step * step_duration self)%Q in
  let bar_position := step mod steps_per_bar self in
  let kick := hit "kick" time (step_duration self * 3)%Q in
  let snare := hit "snare" time (step_duration self * 2)%Q in
  let hat := hit "hihat" time (step_duration self * 0.7)%Q in
  let roll i := hit "hihat" (time + inject_Z i * step_duration self / 3)%Q
                    (step_duration self / 3)%Q in
  (if is_in bar_position [0; 6; 10] then [Always [kick]] else []) ++
  (if bar_position =? 8 then [Always [snare]] else []) ++
  (if bar_position mod 2 =? 0 then [Always [hat]] else []) ++
  (if (Qlt_bool 0.6 complexity && is_in bar_position [7; 15])%bool
   then [Drawn (map roll (range 3))] else []).

Definition lofi_rules (self : PatternBuilder) (step : Z) : list Rule :=
  let time :=
    if step mod 2 =? 1
    then (inject_Z (step - 1) * step_duration self + step_duration self * lofi_swing)%Q
    else (inject_Z step * step_duration self)%Q in
  let bar_position := step mod steps_per_bar self in
  let kick := hit "kick" time (step_duration self * 2)%Q in
  let snare := hit "snare" time (step_duration self) in
  let hat := hit "hihat" time (step_duration self) in
  (if is_in bar_position [0; 8] then [Always [kick]] else []) ++
  (if is_in bar_position [4; 12] then [Always [snare]] else []) ++
  (if bar_position mod 2 =? 0 then [Always [hat]] else []).

Definition boom_bap_rules (self : PatternBuilder) (step : Z) : list Rule :=
  let time := (inject_Z step * step_duration self)%Q in
  let bar_position := step mod steps_per_bar self in
  let kick := hit "kick" time (step_duration self * 2)%Q in
  let snare := hit "snare" time (step_duration self) in
  let hat := hit "hihat" time (step_duration self) in
  (if is_in bar_position [0; 10] then [Always [kick]] else []) ++
  (if is_in bar_position [4; 12] then [Always [snare]] else []) ++
  (if bar_position mod 4 =? 0 then [Always [hat]] else []).

Definition basic_rules (self : PatternBuilder) (step : Z) : list Rule :=
  let time := (inject_Z step * step_duration self)%Q in
  let bar_position := step mod steps_per_bar self in
  let kick := hit "kick" time (step_duration self) in
  let snare := hit "snare" time (step_duration self) in
  let hat := hit "hihat" time (step_duration self) in
  (if bar_position mod 4 =? 0 then [Always [kick]] else []) ++
  (if is_in bar_position [4; 12] then [Always [snare]] else []) ++
  (if bar_position mod 2 =? 0 then [Always [hat]] else []).

Definition step_rules (self : PatternBuilder) (style : DrumStyle) (complexity : Q)
           (step : Z) : list Rule :=
  match style with
  | Memphis => memphis_rules self step
  | Trap => trap_rules self complexity step
  | Lofi => lofi_rules self step
  | BoomBap => boom_bap_rules self step
  | Basic => basic_rules self step
  end.

(** The rules of a pattern of [bars] bars, step after step. *)
Definition drum_rules (self : PatternBuilder) (style : DrumStyle) (complexity : Q)
           (bars : Z) : list Rule :=
  flat_map (step_rules self style complexity) (range (steps_per_bar self * bars)).

(** The hits every run emits, and the hits a draw decides on. *)
Definition mandatory (rules : list Rule) : list Hit :=
  flat_map (fun r => match r with Always hits => hits | Drawn _ => [] end) rules.

Definition optional (rules : list Rule) : list Hit :=
  flat_map (fun r => match r with Always _ => [] | Drawn hits => hits end) rules.

(** [out] is what a run can emit by the rules: the hits of every [Always]
    rule and of some of the [Drawn] rules, in the order of the rules. *)
Inductive emits : list Rule -> list Hit -> Prop :=
| emits_nil : emits [] []
| emits_always (hits : list Hit) (rules : list Rule) (out : list Hit) :
    emits rules out -> emits (Always hits :: rules) (hits ++ out)
| emits_fired (hits : list Hit) (rules : list Rule) (out : list Hit) :
    emits rules out -> emits (Drawn hits :: rules) (hits ++ out)
| emits_skipped (hits : list Hit) (rules : list Rule) (out : list Hit) :
    emits rules out -> emits (Drawn hits :: rules) out.

(** One iteration adds what the rules of its step can emit. *)
Definition adds_by_rules {rng : Type} (rules_of : Z -> list Rule)
           (body : Z -> list NoteEvent -> rng -> list NoteEvent * rng) : Prop :=
  forall step notes g,
  exists added, fst (body step notes g) = notes ++ added /\
                emits (rules_of step) (map hit_of added).

(** The style draws to decide whether a hit is emitted. *)
Definition has_optional_hits (style : DrumStyle) (complexity : Q) : bool :=
  match style with
  | Memphis => true
  | Trap => Qlt_bool 0.6 complexity
  | Lofi | BoomBap | Basic => false
  end.

(** [steps_per_bar * bars * step_duration] *)
Definition total_duration (self : PatternBuilder) (bars : Z) : Q :=
  (inject_Z (steps_per_bar self * bars) * step_duration self)%Q.

(** The event starts inside the span of the pattern. *)
Definition in_span (self : PatternBuilder) (bars : Z) (e : NoteEvent) : Prop :=
  (0 <= time e)%Q /\ (time e < total_duration self bars)%Q.

(** The event starts on the grid, at an even step of the pattern that is at
    an even position of its bar. *)
Definition on_even_step (self : PatternBuilder) (bars : Z) (e : NoteEvent) : Prop :=
  exists step : Z,
    0 <= step < steps_per_bar self * bars /\
    Z.even step = true /\
    Z.even (step mod steps_per_bar self) = true /\
    time e = (inject_Z step * step_duration self)%Q.

End PatternSpec.

(** ** Vocabulary of the statements about the beat generator *)

Module GeneratorSpec.
Import PatternBuilder MusicGenerator.

(** The result bundle of the contract of the beat generator: tempo, key,
    scale name, root pitch, drum pattern, bass pattern, combined pattern. *)
Definition result_bundle (b : Beat)
  : Z * string * string * Z * list NoteEvent * list NoteEvent * list NoteEvent :=
  (beat_bpm b, beat_key b, beat_scale b, beat_root_note b,
   beat_drum_pattern b, beat_bass_pattern b, beat_combined_pattern b).

(** The names of the note table: seventeen spellings of the twelve pitches. *)
Definition note_names : list string :=
  ["C"; "C#"; "Db"; "D"; "D#"; "Eb"; "E"; "F"; "F#"; "Gb"; "G"; "G#"; "Ab";
   "A"; "A#"; "Bb"; "B"].

(** The returned dictionary with another string under ['genre']. *)
Definition with_genre (genre : string) (b : Beat) : Beat :=
  {| beat_genre := genre;
     beat_bpm := beat_bpm b;
     beat_key := beat_key b;
     beat_bars := beat_bars b;
     beat_drum_pattern := beat_drum_pattern b;
     beat_bass_pattern := beat_bass_pattern b;
     beat_combined_pattern := beat_combined_pattern b;
     beat_scale := beat_scale b;
     beat_root_note := beat_root_note b |}.

Definition map_result {A B : Type} (f : A -> B) (r : result A) : result B :=
  match r with
  | Ok a => Ok (f a)
  | Raise e => Raise e
  end.

(** What a call returns, as the contract sees it: the bundle and the state
    the generator is left in, or the exception. *)
Definition outcome {rng : Type} (r : result (Beat * rng))
  : result (Z * string * string * Z * list NoteEvent * list NoteEvent
            * list NoteEvent * rng) :=
  map_result (fun x => (result_bundle (fst x), snd x)) r.

End GeneratorSpec.

(** ** Values used in examples *)

(** [PatternBuilder(bpm=140)] *)
Definition builder_140 : PatternBuilder.PatternBuilder :=
  {| PatternBuilder.bpm := 140;
     PatternBuilder.steps_per_bar := 16;
     PatternBuilder.step_duration := (60 / inject_Z 140 / (inject_Z 16 / 4))%Q |}.

(** [PatternBuilder(bpm=120, steps_per_bar=3)] *)
Definition builder_three_steps : PatternBuilder.PatternBuilder :=
  {| PatternBuilder.bpm := 120;
     PatternBuilder.steps_per_bar := 3;
     PatternBuilder.step_duration := (60 / inject_Z 120 / (inject_Z 3 / 4))%Q |}.

(** A generator whose every draw is the lowest one: [random()] is 0. *)
Definition always_low : Tape := {| draws := []; then_always := 0 |}.

(** A generator whose [random()] is always 0.99. *)
Definition always_high : Tape := {| draws := []; then_always := 99 |}.

(** A command that names the slice before the pitch shift. *)
Definition slice_before_pitch : string := "take a.wav slice 4 pitch 3".

(** An example of the help text, with a key. *)
Definition key_of_Dm : string := "make a trap beat in key of Dm with 808s".

(** A command with a create keyword and a sample keyword. *)
Definition sample_and_create : string := "Create a beat and LOAD kick.wav".

(** A command whose primary insert pattern matches bar 0. *)
Definition insert_at_bar_zero : string := "use x.wav insert 0 at measure 7 beat 2".

(** A generation request without a sample keyword among its words. *)
Definition house_beat : string := "create a house beat".

(** ** What a parsed command can hold *)

Module ParsedSpec.
Import CommandParser.

(** [int(t)] returns a number that is not negative. *)
Definition nat_ok (t : string) : Prop := exists n, Str.int t = Ok n /\ 0 <= n.

(** The text is no longer than the 4300 characters up to which [int]
    converts every string of digits. *)
Definition within_digit_limit (text : string) : Prop :=
  (String.length text <= 4300)%nat.

(** The filter names of the filter pattern. *)
Definition filter_kinds : list string := ["lowpass"; "highpass"; "bandpass"].

(** The numbers an operation carries are in range: a rate, a cutoff and a
    slice count are not negative, a filter has one of the three kinds. *)
Definition operation_in_range (o : operation) : Prop :=
  match o with
  | pitch_shift _ => True
  | time_stretch rate => (0 <= rate)%Q
  | filter kind cutoff => In kind filter_kinds /\ 0 <= cutoff
  | slice n => 0 <= n
  end.

Definition parsed_in_range (r : parsed) : Prop :=
  match r with
  | sample_process _ ops bar beat =>
      Forall operation_in_range ops /\
      (forall n, bar = Some n -> 0 <= n) /\ 0 <= beat
  | generate_beat _ bpm _ bars _ =>
      (forall n, bpm = Some n -> 0 <= n) /\ 0 <= bars
  | unknown _ => True
  end.

(** The file extensions of the sample pattern. *)
Definition audio_extensions : list string := ["wav"; "mp3"; "flac"; "aiff"].

(** The genre names the parser looks for in a description. *)
Definition genre_words : list string := ["memphis"; "trap"; "lofi"; "drill"].

(** A genre is one of the four one-word names, or "boom" and "bap" around
    what separates them. *)
Definition genre_spelling (genre : string) : Prop :=
  In genre genre_words \/
  exists sep : string, genre = ("boom" ++ sep ++ "bap")%string.

(** The defaults of a sample command: no path without a dot, no operation
    without the word of one, no insert bar and beat 1 without a word for
    the position. *)
Definition sample_defaults_of (command : string) (p : option string)
           (ops : list operation) (b : option Z) (bt : Z) : Prop :=
  (Str.contains "." command = false -> p = None) /\
  (Str.any_in ["pitch"; "stretch"; "pass"; "slice"; "chop"] command = false -> ops = []) /\
  (Str.any_in ["insert"; "measure"; "bar"] command = false -> b = None /\ bt = 1).

(** The defaults of a generation command: no tempo without "bpm", 4 bars
    without "bar", no bass line without "808". *)
Definition generate_defaults_of (command : string) (bpm : option Z) (bars : Z)
           (include_808 : bool) : Prop :=
  (Str.contains "bpm" command = false -> bpm = None) /\
  (Str.contains "bar" command = false -> bars = 4) /\
  (Str.contains "808" command = false -> include_808 = false).

(** What a parsed command holds for the parts its text does not mention. *)
Definition defaults_kept (command : string) (r : parsed) : Prop :=
  match r with
  | sample_process p ops b bt => sample_defaults_of command p ops b bt
  | generate_beat _ bpm _ bars include_808 =>
      generate_defaults_of command bpm bars include_808
  | unknown raw => raw = command
  end.

End ParsedSpec.

(** ** Vocabulary of the statements about drawn values *)

Module DrawSpec.
Import PatternBuilder.

(** The draws of the generator stay in range, as those of the library do:
    [randbelow(n)] is in [0, n) for a positive [n]. *)
Definition in_range_draws (rng : Type) `{RandomSource rng} : Prop :=
  forall (n : Z) (g : rng), 0 < n -> 0 <= fst (randbelow n g) < n.

(** The event is a hit of the kick, the snare or the closed hi-hat with a
    velocity a MIDI note-on can carry. *)
Definition drum_hit (e : NoteEvent) : Prop :=
  In (note e) [36; 38; 42] /\ 40 <= velocity e <= 127.

(** The events are in time order and none starts after [b]. *)
Definition ordered_below (b : Q) (notes : list NoteEvent) : Prop :=
  StronglySorted PatternSpec.time_le notes /\ Forall (fun e => (time e <= b)%Q) notes.

(** The bound the events of the steps before [step] stay under: two thirds
    of a step after the start of the step before. *)
Definition step_bound (self : PatternBuilder) (step : Z) : Q :=
  (inject_Z step * step_duration self - step_duration self * (1 # 3))%Q.

(** The event is a note of the bass line: the root or the root raised by one
    of the first four intervals of the scale, at a velocity from 80 to 120. *)
Definition bass_hit (root_note : Z) (scale : list Z) (e : NoteEvent) : Prop :=
  (note e = root_note \/ exists i, In i (firstn 4 scale) /\ note e = root_note + i) /\
  80 <= velocity e <= 120.

(** The number of notes of a bass line. *)
Definition bass_count (self : PatternBuilder) (pattern_type : string) (bars : Z) : nat :=
  if String.eqb pattern_type "simple" then (2 * Z.to_nat bars)%nat
  else if String.eqb pattern_type "bouncy" then (6 * Z.to_nat bars)%nat
  else if String.eqb pattern_type "rolling"
       then Z.to_nat ((Z.max 0 (steps_per_bar self * bars) + 1) / 2)
       else 0%nat.

End DrawSpec.

(** ** Vocabulary of the statements about a generated beat *)

Module BeatSpec.
Import PatternBuilder MusicGenerator.

(** The template [generate_beat] uses for a genre: that of the genre, or
    the trap template for a genre without one. *)
Definition template_for (genre : string) : option Template :=
  match GENRE_TEMPLATES !! Str.lower genre with
  | Some template => Some template
  | None => GENRE_TEMPLATES !! "trap"
  end.

(** A tempo that is given is an integer [60.0 / bpm] can convert to a
    float. *)
Definition tempo_fits (bpm : option Z) : Prop :=
  match bpm with
  | Some n => Z.abs n < 2 ^ 1023
  | None => True
  end.

(** What a MIDI note-on message can carry. *)
Definition midi_note (e : NoteEvent) : Prop :=
  0 <= note e <= 127 /\ 1 <= velocity e <= 127.

(** A note of the bass line of a generated beat: an octave below the root,
    raised by at most seven semitones. *)
Definition bass_note (e : NoteEvent) : Prop :=
  48 <= note e <= 66 /\ 80 <= velocity e <= 120.

(** Notes per bar of a bass pattern at sixteen steps per bar. *)
Definition bass_notes_per_bar (pattern_type : string) : Z :=
  if String.eqb pattern_type "simple" then 2
  else if String.eqb pattern_type "bouncy" then 6
  else if String.eqb pattern_type "rolling" then 8
  else 0.

End BeatSpec.

(** ** [src/music_generator.py]: the melody generator *)

Module Melody.
Import PatternBuilder MusicGenerator.

Section Melody.
Context {rng : Type} `{RandomSource rng}.

(** One iteration of the loop of [generate_melody]. *)
Definition melody_step (pattern_builder : PatternBuilder) (root_note : Z)
           (scale_intervals : list Z) (note_density : Q) (step : Z)
           (notes : list NoteEvent) (g : rng) : result (list NoteEvent * rng) :=
  (* Probabilistic note placement *)
  let '(r, g) := random g in
  if Qlt_bool r note_density then
    (* Choose note from scale *)
    let* interval := choice scale_intervals g in
    (* Occasionally jump octaves *)
    let '(r, g) := random (snd interval) in
    let* octave_shift :=
      if Qlt_bool r 0.2 then choice [-12; 0; 12] g else Ok (0, g) in
    let note := root_note + fst interval + fst octave_shift in
    (* Ensure note is in valid MIDI range *)
    let note := Z.max 0 (Z.min 127 note) in
    let '(v, g) := randint 70 100 (snd octave_shift) in
    let* length := choice [1; 2; 3; 4] g in
    Ok (notes ++ [{| note := note;
                     velocity := v;
                     time := (inject_Z step * step_duration pattern_builder)%Q;
                     duration := (step_duration pattern_builder
                                  * inject_Z (fst length))%Q |}],
        snd length)
  else Ok (notes, g).

(** [generate_melody], from the pattern builder the generator holds: the
    pattern builder it holds afterwards, and the notes or the exception. *)
Definition generate_melody (pattern_builder : option PatternBuilder)
           (key scale : string) (bars : Z) (note_density : Q) (octave : Z) (g : rng)
  : option PatternBuilder * result (list NoteEvent * rng) :=
  let '(root_note, _) := _parse_key key scale in
  let root_note := octave * 12 + root_note mod 12 in (* Adjust to octave *)
  let scale_intervals :=
    default (SCALES !!! "pentatonic_minor") (SCALES !! scale) in
  let builder :=
    match pattern_builder with
    | Some pattern_builder => Ok pattern_builder
    | None => __init__ 120 default_steps_per_bar
    end in
  match builder with
  | Raise e => (pattern_builder, Raise e)
  | Ok pattern_builder =>
      let total_steps := steps_per_bar pattern_builder * bars in
      (Some pattern_builder,
       for_each_raising
         (melody_step pattern_builder root_note scale_intervals note_density)
         (range total_steps) [] g)
  end.

End Melody.

End Melody.

(** ** Vocabulary of the statements about a melody *)

Module MelodySpec.
Import PatternBuilder.

(** [random()] is a number from 0 up to, not including, 1. *)
Definition unit_random (rng : Type) `{RandomSource rng} : Prop :=
  forall g : rng, (0 <= fst (random g))%Q /\ (fst (random g) < 1)%Q.

(** A note of a melody over [pattern_builder]: on a step of the grid, for
    one to four steps, at a pitch and a velocity a MIDI message can carry. *)
Definition melody_note (pattern_builder : PatternBuilder) (bars : Z)
           (e : NoteEvent) : Prop :=
  0 <= note e <= 127 /\ 70 <= velocity e <= 100 /\
  (exists step : Z,
      0 <= step < steps_per_bar pattern_builder * bars /\
      time e = (inject_Z step * step_duration pattern_builder)%Q) /\
  (exists length : Z,
      1 <= length <= 4 /\
      duration e = (step_duration pattern_builder * inject_Z length)%Q).

(** What one iteration of the loop appends at [step]: a pitch of the scale
    over the root, moved by an octave or not, kept inside 0..127. *)
Definition step_note (pattern_builder : PatternBuilder) (root_note : Z)
           (intervals : list Z) (step : Z) (e : NoteEvent) : Prop :=
  (exists interval octave_shift : Z,
      In interval intervals /\ In octave_shift [-12; 0; 12] /\
      note e = Z.max 0 (Z.min 127 (root_note + interval + octave_shift))) /\
  70 <= velocity e <= 100 /\
  time e = (inject_Z step * step_duration pattern_builder)%Q /\
  (exists length : Z,
      1 <= length <= 4 /\
      duration e = (step_duration pattern_builder * inject_Z length)%Q).

(** The pitches a melody in [octave] can reach: from an octave under the
    start of [octave] to 34 semitones over it, kept inside 0..127. *)
Definition in_pitch_window (octave : Z) (e : NoteEvent) : Prop :=
  Z.max 0 (Z.min 127 (12 * octave - 12)) <= note e
  <= Z.max 0 (Z.min 127 (12 * octave + 34)).

(** The pattern builder a melody is laid out on: the one the generator
    holds, or [PatternBuilder(bpm=120)]. *)
Definition builder_used (held : option PatternBuilder) (used : PatternBuilder) : Prop :=
  match held with
  | Some pattern_builder => used = pattern_builder
  | None => PatternBuilder.__init__ 120 default_steps_per_bar = Ok used
  end.

(** [PatternBuilder(bpm=120)]: sixteen steps of an eighth of a second. *)
Definition builder_120 : PatternBuilder :=
  {| bpm := 120; steps_per_bar := 16;
     step_duration := (60 / inject_Z 120 / (inject_Z 16 / 4))%Q |}.

End MelodySpec.

(** ** [src/sample_processor.py]

    An audio array has one dimension, the samples of a mono file, or two,
    one row of samples for each channel.  What the audio libraries do to
    a row of samples is left open; the code around them is modelled. *)

Module SampleProcessor.

Section Arrays.
Context {sample : Type}.

Inductive Audio : Type :=
| Mono (samples : list sample)
| Channels (rows : list (list sample)).

(** [audio.shape[-1]]; the rows of an array have one length. *)
Definition last_dim (audio : Audio) : Z :=
  match audio with
  | Mono samples => Z.of_nat (length samples)
  | Channels rows =>
      match rows with
      | [] => 0
      | row :: _ => Z.of_nat (length row)
      end
  end.

(** An index of a slice, as the language reads it on [len] elements. *)
Definition slice_index (len i : Z) : Z :=
  if i <? 0 then Z.max 0 (len + i) else Z.min i len.

(** [xs[start:end]] *)
Definition py_slice (start end_ : Z) (xs : list sample) : list sample :=
  let len := Z.of_nat (length xs) in
  let start := slice_index len start in
  let end_ := slice_index len end_ in
  firstn (Z.to_nat (end_ - start)) (skipn (Z.to_nat start) xs).

(** [audio[:, start:end]] for two dimensions, [audio[start:end]] for one. *)
Definition slice_data (audio : Audio) (start end_ : Z) : Audio :=
  match audio with
  | Channels rows => Channels (map (py_slice start end_) rows)
  | Mono samples => Mono (py_slice start end_ samples)
  end.

(** [slice_sample]; the sample rate it is given is not used. *)
Definition slice_sample (audio : Audio) (num_slices : Z) : result (list Audio) :=
  (* Calculate slice length *)
  let total_length := last_dim audio in
  if num_slices =? 0 then Raise ZeroDivisionError
  else
    let slice_length := total_length / num_slices in
    Ok (map (fun i =>
               let start := i * slice_length in
               let end_ := if i <? num_slices - 1 then start + slice_length
                           else total_length in
               slice_data audio start end_)
            (range num_slices)).

(** [audio.T]: the columns of a two-dimensional array. *)
Definition transpose (rows : list (list sample)) : list (list sample) :=
  match rows with
  | [] => []
  | row :: _ =>
      map (fun j => flat_map (fun row => firstn 1 (skipn j row)) rows)
          (seq 0 (length row))
  end.

End Arrays.

Arguments Audio : clear implicits.

(** The calls into the audio libraries: [librosa.load] with the sample rate
    asked for, the three effects of [librosa.effects] on one row of
    samples, and [soundfile.write]. *)
Class AudioLibrary (sample : Type) : Type := {
  librosa_load : string -> Z -> result (Audio sample * Z);
  effects_pitch_shift : list sample -> Z -> Z -> result (list sample);
  effects_time_stretch : list sample -> Q -> result (list sample);
  effects_preemphasis : list sample -> Q -> result (list sample);
  sf_write : string -> Audio sample -> Z -> result unit
}.

(** What [process_command] returns: the processed array, or the slices. *)
Inductive Processed (sample : Type) : Type :=
| Array (audio : Audio sample)
| Slices (slices : list (Audio sample)).

Arguments Array {sample} _.
Arguments Slices {sample} _.

Section Processor.
Context {sample : Type} `{AudioLibrary sample}.

(** [self.sample_rate] *)
Variable sample_rate : Z.

(** [sr or self.sample_rate] *)
Definition sr_or (sr : option Z) : Z :=
  match sr with
  | Some sr => if sr =? 0 then sample_rate else sr
  | None => sample_rate
  end.

Definition load_sample (file_path : string) : result (Audio sample * Z) :=
  librosa_load file_path sample_rate.

(** [np.array([a, b])] of two rows. *)
Definition two_rows (a b : list sample) : result (Audio sample) :=
  if Nat.eqb (length a) (length b) then Ok (Channels [a; b])
  else Raise ValueError.

(** Handle stereo/mono: the effect on the first two rows of two dimensions,
    on the samples of one. *)
Definition on_channels (effect : list sample -> result (list sample))
           (audio : Audio sample) : result (Audio sample) :=
  match audio with
  | Channels rows =>
      match rows with
      | [] => Raise IndexError
      | row0 :: rest =>
          let* a := effect row0 in
          match rest with
          | [] => Raise IndexError
          | row1 :: _ =>
              let* b := effect row1 in
              two_rows a b
          end
      end
  | Mono samples =>
      let* a := effect samples in
      Ok (Mono a)
  end.

Definition pitch_shift (audio : Audio sample) (semitones : Z) (sr : option Z)
  : result (Audio sample) :=
  let sr := sr_or sr in
  on_channels (fun row => effects_pitch_shift row sr semitones) audio.

Definition time_stretch (audio : Audio sample) (rate : Q) : result (Audio sample) :=
  on_channels (fun row => effects_time_stretch row rate) audio.

Definition apply_filter (audio : Audio sample) (filter_type : string) (cutoff : Z)
           (sr : option Z) : result (Audio sample) :=
  let sr := sr_or sr in
  if String.eqb filter_type "lowpass" then
    (* Simple lowpass using librosa *)
    on_channels (fun row => effects_preemphasis row (-0.97)%Q) audio
  else if String.eqb filter_type "highpass" then
    on_channels (fun row => effects_preemphasis row 0.97%Q) audio
  else
    (* Default to no filtering for now *)
    Ok audio.

(** The calls of [soundfile.write] a run makes, in order. *)
Definition Written : Type := list (string * Audio sample * Z).

Definition save_sample (audio : Audio sample) (output_path : string) (sr : option Z)
  : Written * result unit :=
  let sr := sr_or sr in
  let data := match audio with
              | Channels rows => Channels (transpose rows)
              | Mono samples => Mono samples
              end in
  ([(output_path, data, sr)], sf_write output_path data sr).

(** The loop of [process_command] over the operations: the array at its
    end, or the slices it returns from. *)
Fixpoint run_operations (operations : list CommandParser.operation)
         (audio : Audio sample) (sr : Z) : result (Processed sample) :=
  match operations with
  | [] => Ok (Array audio)
  | op :: operations =>
      match op with
      | CommandParser.pitch_shift semitones =>
          let* audio := pitch_shift audio semitones (Some sr) in
          run_operations operations audio sr
      | CommandParser.time_stretch rate =>
          let* audio := time_stretch audio rate in
          run_operations operations audio sr
      | CommandParser.filter filter_type cutoff =>
          let* audio := apply_filter audio filter_type cutoff (Some sr) in
          run_operations operations audio sr
      | CommandParser.slice num_slices =>
          (* Return slices instead of continuing processing *)
          let* slices := slice_sample audio num_slices in
          Ok (Slices slices)
      end
  end.

(** [process_command]: the files written, and the result or the exception. *)
Definition process_command (file_path : string)
           (operations : list CommandParser.operation) (output_path : option string)
  : Written * result (Processed sample) :=
  match load_sample file_path with
  | Raise e => ([], Raise e)
  | Ok (audio, sr) =>
      match run_operations operations audio sr with
      | Raise e => ([], Raise e)
      | Ok (Slices slices) => ([], Ok (Slices slices))
      | Ok (Array audio) =>
          if CommandParser.truthy_str output_path then
            let '(written, saved) := save_sample audio (default "" output_path) (Some sr) in
            (written, let* _ := saved in Ok (Array audio))
          else ([], Ok (Array audio))
      end
  end.

End Processor.

End SampleProcessor.

(** ** Vocabulary of the statements about the sample processor *)

Module ProcessorSpec.
Import SampleProcessor.

Section Arrays.
Context {sample : Type}.

(** The rows of a two-dimensional array have one length, and there is at
    least one row. *)
Definition rectangular (audio : Audio sample) : Prop :=
  match audio with
  | Mono _ => True
  | Channels rows =>
      rows <> [] /\ Forall (fun row => Z.of_nat (length row) = last_dim audio) rows
  end.

(** The number of channels of an array. *)
Definition channels (audio : Audio sample) : nat :=
  match audio with
  | Mono _ => 1
  | Channels rows => length rows
  end.

(** The samples of channel [c]. *)
Definition channel (c : nat) (audio : Audio sample) : list sample :=
  match audio with
  | Mono samples => samples
  | Channels rows => nth c rows []
  end.

(** The array with no sample in any channel. *)
Definition silence (audio : Audio sample) : Audio sample :=
  match audio with
  | Mono _ => Mono []
  | Channels rows => Channels (map (fun _ => []) rows)
  end.

End Arrays.

(** What [soundfile.write] is given for an array: the array with its two
    dimensions exchanged, or the one-dimensional array itself. *)
Definition frames {sample : Type} (audio : Audio sample) : Audio sample :=
  match audio with
  | Mono samples => Mono samples
  | Channels rows => Channels (transpose rows)
  end.

(** The shape an effect leaves: one dimension for one, two rows of one
    length for two dimensions. *)
Definition effect_shape {sample : Type} (audio result : Audio sample) : Prop :=
  match audio with
  | Mono _ => exists samples, result = Mono samples
  | Channels rows =>
      (2 <= length rows)%nat /\
      exists a b, result = Channels [a; b] /\ length a = length b
  end.

(** The operation is a slice. *)
Definition is_slice (op : CommandParser.operation) : bool :=
  match op with
  | CommandParser.slice _ => true
  | _ => false
  end.

(** A filter type other than the two that are implemented. *)
Definition unfiltered (filter_type : string) : Prop :=
  filter_type <> "lowpass" /\ filter_type <> "highpass".

End ProcessorSpec.

(** An audio library for examples: every file holds the same stereo audio
    of six samples at the rate asked for, every effect returns the row it
    is given, and every write succeeds. *)
#[export] Instance plain_library : SampleProcessor.AudioLibrary Z := {
  librosa_load _ sr :=
    Ok (SampleProcessor.Channels [[1; 2; 3; 4; 5; 6]; [7; 8; 9; 10; 11; 12]], sr);
  effects_pitch_shift row _ _ := Ok row;
  effects_time_stretch row _ := Ok row;
  effects_preemphasis row _ := Ok row;
  sf_write _ _ _ := Ok tt
}.

(** ** [src/fl_controller.py]: sending notes

    What a run does outside the program is kept as the list of its calls
    of [print], [time.sleep] and [send], in order; each of the library
    calls returns or raises, and an exception ends the run. *)

Module FLStudioController.
Import PatternBuilder.

Inductive MessageType : Type := note_on | note_off.

(** [mido.Message(type, note=..., velocity=..., channel=...)] *)
Record Message : Type := {
  msg_type : MessageType;
  msg_note : Z;
  msg_velocity : Z;
  msg_channel : Z
}.

Inductive Call : Type :=
| Print (line : string)
| Sleep (seconds : Q)
| Send (message : Message).

(** The library calls: [time.sleep], the check of the constructor of
    [mido.Message], and [send] of the output port. *)
Class MidiLibrary : Type := {
  time_sleep : Q -> result unit;
  mido_Message : Message -> result unit;
  port_send : Message -> result unit
}.

(** A run: the calls made, and the value returned or the exception. *)
Definition Run (A : Type) : Type := list Call * result A.

Definition andthen {A B : Type} (m : Run A) (k : A -> Run B) : Run B :=
  match snd m with
  | Ok a => (fst m ++ fst (k a), snd (k a))
  | Raise e => (fst m, Raise e)
  end.

Notation "m ;;; k" := (andthen m (fun _ => k)) (at level 100, right associativity).

Section Controller.
Context `{MidiLibrary}.

Definition print (line : string) : Run unit := ([Print line], Ok tt).
Definition sleep (seconds : Q) : Run unit := ([Sleep seconds], time_sleep seconds).
Definition new_message (message : Message) : Run Message :=
  ([], let* _ := mido_Message message in Ok message).
Definition send (message : Message) : Run unit := ([Send message], port_send message).

(** [self.midi_output] is a port or [None]. *)
Variable midi_output : bool.

Definition send_midi_note (note velocity : Z) (duration : Q) (channel : Z) : Run unit :=
  if negb midi_output then print "No MIDI connection available"
  else
    (* Note on *)
    andthen (new_message {| msg_type := note_on; msg_note := note;
                            msg_velocity := velocity; msg_channel := channel |})
            (fun msg_on =>
    send msg_on ;;;
    (* Wait for duration *)
    sleep duration ;;;
    (* Note off *)
    andthen (new_message {| msg_type := note_off; msg_note := note;
                            msg_velocity := 0; msg_channel := channel |})
            (fun msg_off =>
    send msg_off)).

(** [for note_data in notes: ...] *)
Fixpoint for_notes (body : NoteEvent -> Run unit) (notes : list NoteEvent) : Run unit :=
  match notes with
  | [] => ([], Ok tt)
  | note_data :: notes => body note_data ;;; for_notes body notes
  end.

Definition create_pattern (pattern_name : string) (notes : list NoteEvent) (channel : Z)
  : Run unit :=
  if negb midi_output then print "No MIDI connection available"
  else
    print ("Creating pattern: " ++ pattern_name)%string ;;;
    for_notes (fun note_data =>
                 let wait_time := time note_data in
                 sleep wait_time ;;;
                 send_midi_note (note note_data) (velocity note_data)
                                (duration note_data) channel)
              notes.

End Controller.

End FLStudioController.

(** ** Vocabulary of the statements about sent notes *)

Module ControllerSpec.
Import PatternBuilder FLStudioController.

(** The messages of a run, each with the seconds slept before it is sent. *)
Fixpoint sent_at (elapsed : Q) (calls : list Call) : list (Q * Message) :=
  match calls with
  | [] => []
  | Print _ :: calls => sent_at elapsed calls
  | Sleep seconds :: calls => sent_at (elapsed + seconds)%Q calls
  | Send message :: calls => (elapsed, message) :: sent_at elapsed calls
  end.

(** The seconds a run sleeps in all. *)
Fixpoint slept (calls : list Call) : Q :=
  match calls with
  | [] => 0
  | Sleep seconds :: calls => (seconds + slept calls)%Q
  | _ :: calls => slept calls
  end.

(** The two messages of a note. *)
Definition on_message (channel : Z) (e : NoteEvent) : Message :=
  {| msg_type := note_on; msg_note := note e;
     msg_velocity := velocity e; msg_channel := channel |}.

Definition off_message (channel : Z) (e : NoteEvent) : Message :=
  {| msg_type := note_off; msg_note := note e;
     msg_velocity := 0; msg_channel := channel |}.

(** The calls of one event in a run that returns. *)
Definition event_calls (channel : Z) (e : NoteEvent) : list Call :=
  [Sleep (time e); Send (on_message channel e);
   Sleep (duration e); Send (off_message channel e)].

(** The seconds the events take when each one waits for its own time and
    then sounds for its duration. *)
Fixpoint played_through (notes : list NoteEvent) : Q :=
  match notes with
  | [] => 0
  | e :: notes => (time e + duration e + played_through notes)%Q
  end.

End ControllerSpec.

(** A library for examples in which every call returns. *)
#[export] Instance calls_return : FLStudioController.MidiLibrary := {
  time_sleep _ := Ok tt;
  mido_Message _ := Ok tt;
  port_send _ := Ok tt
}.

(** A kick at the start and a closed hi-hat half a second in. *)
Definition kick_then_hat : list PatternBuilder.NoteEvent :=
  [{| PatternBuilder.note := 36; PatternBuilder.velocity := 100;
      PatternBuilder.time := 0; PatternBuilder.duration := 1 # 4 |};
   {| PatternBuilder.note := 42; PatternBuilder.velocity := 80;
      PatternBuilder.time := 1 # 2; PatternBuilder.duration := 1 # 8 |}].

(** ** Vocabulary of the statements about sending a beat *)

Module SendSpec.
Import PatternBuilder FLStudioController.

(** The event does not start before the pattern and does not end before it
    starts. *)
Definition timed (e : NoteEvent) : Prop :=
  (0 <= time e)%Q /\ (0 <= duration e)%Q.

(** The event can be sent: its note and velocity are data bytes and its
    times can be slept. *)
Definition playable (e : NoteEvent) : Prop :=
  0 <= note e <= 127 /\ 0 <= velocity e <= 127 /\ timed e.

(** Libraries that take what they document: [time.sleep] a length that is
    not negative, [mido.Message] a note and a velocity from 0 to 127 on a
    channel from 0 to 15, and the port every message. *)
Definition accepting (library : MidiLibrary) : Prop :=
  (forall seconds : Q, (0 <= seconds)%Q -> time_sleep seconds = Ok tt) /\
  (forall message : Message,
      0 <= msg_note message <= 127 -> 0 <= msg_velocity message <= 127 ->
      0 <= msg_channel message <= 15 -> mido_Message message = Ok tt) /\
  (forall message : Message, port_send message = Ok tt).

End SendSpec.

(** * Properties *)

(** ** Key resolution *)

Section KeyResolver.
Import MusicGenerator GeneratorSpec.

(** A root is missing from the note table exactly when it is none of the
    names. *)
Lemma note_map_names (r : string) :
  note_map !! r = None <-> ~ In r note_names.
Proof.
  unfold note_map. rewrite <- not_elem_of_list_to_map.
  rewrite list_elem_of_In. reflexivity.
Qed.

Lemma _parse_key_root (key default_scale : string) :
  fst (_parse_key key default_scale) = default 60 (note_map !! root_str key).
Proof.
  unfold _parse_key, root_str.
  destruct (Str.endswith "m" (Str.strip key)); reflexivity.
Qed.

(** C5. The three documented resolutions hold, and a key whose root part is
    not a name of the note table resolves to root pitch 60; [_parse_key]
    is total, so nothing is raised. *)
Theorem C5_resolve_key :
  _parse_key "Dm" "major" = (62, "minor") /\
  _parse_key "C" "minor" = (60, "major") /\
  _parse_key "F#" "major" = (66, "major") /\
  (forall key default_scale : string,
      note_map !! root_str key = None ->
      fst (_parse_key key default_scale) = 60).
Proof.
  repeat split; try reflexivity.
  intros key default_scale Hnone.
  rewrite _parse_key_root, Hnone. reflexivity.
Qed.

Lemma C5_resolve_key_witness :
  note_map !! root_str "Hm" = None /\ fst (_parse_key "Hm" "major") = 60.
Proof.
  split; [vm_compute; reflexivity |].
  apply (proj2 (proj2 (proj2 C5_resolve_key)) "Hm" "major").
  vm_compute; reflexivity.
Defined.

End KeyResolver.

(** ** The matcher *)

Section Matcher.
Import Re ReSpec.

Lemma orelse_Some {A : Type} (x y : option A) (a : A) :
  orelse x y = Some a -> x = Some a \/ y = Some a.
Proof. destruct x; simpl; auto. Qed.

Lemma star_sound (greedy : bool) (p : ascii -> bool)
      (k : list ascii -> captures -> option captures) (c x : captures) :
  forall s, run (Star greedy p) k s c = Some x ->
            exists l s', s = l ++ s' /\ forallb p l = true /\ k s' c = Some x.
Proof.
  induction s as [|a s IH]; simpl; intros Hrun.
  - exists [], []. auto.
  - destruct (p a) eqn:Hp.
    + assert (Hcase : run (Star greedy p) k s c = Some x \/ k (a :: s) c = Some x).
      { destruct greedy; apply orelse_Some in Hrun; tauto. }
      destruct Hcase as [Hmore | Hstop].
      * destruct (IH Hmore) as (l & s' & -> & Hl & Hk).
        exists (a :: l), s'. simpl. rewrite Hp, Hl. auto.
      * exists [], (a :: s). auto.
    + exists [], (a :: s). auto.
Qed.

(** Whatever the matcher returns went through the continuation at the end
    of a match of the pattern. *)
Lemma run_sound (r : regex) :
  forall k s c x, run r k s c = Some x ->
                  exists s' c', matches r s c s' c' /\ k s' c' = Some x.
Proof.
  induction r as [|p|r1 IH1 r2 IH2|r1 IH1 r2 IH2|r1 IH1|greedy p|i r1 IH1];
    intros k s c x Hrun.
  - exists s, c. simpl. auto.
  - simpl in Hrun. destruct s as [|a s]; [discriminate|].
    destruct (p a) eqn:Hp; [|discriminate].
    exists s, c. simpl. eauto.
  - simpl in Hrun. apply IH1 in Hrun as (s1 & c1 & H1 & Hrun).
    apply IH2 in Hrun as (s2 & c2 & H2 & Hk).
    exists s2, c2. simpl. eauto.
  - simpl in Hrun. apply orelse_Some in Hrun as [Hrun | Hrun].
    + apply IH1 in Hrun as (s' & c' & Hm & Hk). exists s', c'. simpl. auto.
    + apply IH2 in Hrun as (s' & c' & Hm & Hk). exists s', c'. simpl. auto.
  - simpl in Hrun. apply orelse_Some in Hrun as [Hrun | Hrun].
    + apply IH1 in Hrun as (s' & c' & Hm & Hk). exists s', c'. simpl. auto.
    + exists s, c. simpl. auto.
  - apply star_sound in Hrun as (l & s' & -> & Hl & Hk).
    exists s', c. simpl. eauto.
  - simpl in Hrun. apply IH1 in Hrun as (s' & c' & Hm & Hk).
    exists s', (<[i := consumed s s']> c'). simpl. eauto.
Qed.

(** A successful search found a match that starts at some suffix of the text. *)
Lemma search_list_sound (r : regex) :
  forall s m, search_list r s = Some m ->
              exists pre s0 s', s = pre ++ s0 /\ matches r s0 ∅ s' m.
Proof.
  induction s as [|a s IH]; intros m Hs; simpl in Hs.
  - destruct (match_at r []) eqn:Hm; [|discriminate].
    injection Hs as ->. unfold match_at in Hm.
    apply run_sound in Hm as (s' & c' & Hm & Hk). injection Hk as ->.
    exists [], [], s'. auto.
  - destruct (match_at r (a :: s)) eqn:Hm.
    + injection Hs as ->. unfold match_at in Hm.
      apply run_sound in Hm as (s' & c' & Hm & Hk). injection Hk as ->.
      exists [], (a :: s), s'. auto.
    + apply IH in Hs as (pre & s0 & s' & -> & Hm').
      exists (a :: pre), s0, s'. auto.
Qed.

Lemma search_sound (r : regex) (s : string) (m : captures) :
  search r s = Some m ->
  exists pre s0 s', list_ascii_of_string s = pre ++ s0 /\ matches r s0 ∅ s' m.
Proof. apply search_list_sound. Qed.

Lemma consumed_app (l s' : list ascii) :
  consumed (l ++ s') s' = string_of_list_ascii l.
Proof.
  unfold consumed. rewrite length_app.
  replace (length l + length s' - length s')%nat with (length l) by lia.
  rewrite firstn_app, firstn_all, Nat.sub_diag. simpl. rewrite app_nil_r. reflexivity.
Qed.

End Matcher.

(** ** Integers captured by the patterns *)

Section CapturedIntegers.
Import Re ReSpec CommandParser ParserSpec.

Lemma digit_val_nonneg (a : ascii) : Str.isdigit a = true -> 0 <= Str.digit_val a.
Proof.
  unfold Str.isdigit, Str.between, Str.digit_val. intros H.
  apply andb_true_iff in H as [H _]. apply N.leb_le in H. lia.
Qed.

Lemma digits_acc_Some (l : list ascii) :
  forallb Str.isdigit l = true ->
  forall acc, 0 <= acc ->
              exists n, Str.digits_acc acc (string_of_list_ascii l) = Some n /\ 0 <= n.
Proof.
  induction l as [|a l IH]; simpl; intros Hl acc Hacc.
  - eauto.
  - apply andb_true_iff in Hl as [Ha Hl]. rewrite Ha.
    apply IH; [exact Hl|]. pose proof (digit_val_nonneg a Ha). lia.
Qed.

Lemma digit_not_minus (a : ascii) :
  Str.isdigit a = true -> Ascii.eqb a "-"%char = false.
Proof.
  intros H. destruct (Ascii.eqb_spec a "-"%char) as [->|]; [|reflexivity].
  vm_compute in H. discriminate.
Qed.

Lemma int_digit_text (t : string) :
  digit_text t -> exists n, Str.int t = Ok n /\ 0 <= n.
Proof.
  intros (a & l & -> & Ha & Hl). simpl.
  unfold digit in *.
  rewrite (digit_not_minus a Ha), Ha.
  destruct (digits_acc_Some l Hl (10 * 0 + Str.digit_val a)) as (n & -> & Hn).
  { pose proof (digit_val_nonneg a Ha). lia. }
  eauto.
Qed.

Lemma consumed_cons_app (a : ascii) (l s' : list ascii) :
  consumed (a :: l ++ s') s' = String a (string_of_list_ascii l).
Proof. apply (consumed_app (a :: l) s'). Qed.

Lemma consumed_cons2_app (a b : ascii) (l s' : list ascii) :
  consumed (a :: b :: l ++ s') s' = String a (String b (string_of_list_ascii l)).
Proof. apply (consumed_app (a :: b :: l) s'). Qed.

Lemma int_ok_digits (a : ascii) (l : list ascii) :
  digit a = true -> forallb digit l = true ->
  int_ok (String a (string_of_list_ascii l)).
Proof.
  intros Ha Hl.
  destruct (int_digit_text (String a (string_of_list_ascii l))) as (n & Hn & _).
  - exists a, l. auto.
  - exists n. exact Hn.
Qed.

Lemma int_ok_signed (m a : ascii) (l : list ascii) :
  Ascii.eqb "-"%char m = true -> digit a = true -> forallb digit l = true ->
  int_ok (String m (String a (string_of_list_ascii l))).
Proof.
  intros Hm Ha Hl. apply Ascii.eqb_eq in Hm as <-.
  unfold int_ok, Str.int. simpl. unfold digit in *. rewrite Ha.
  destruct (digits_acc_Some l Hl (10 * 0 + Str.digit_val a)) as (n & -> & Hn).
  { pose proof (digit_val_nonneg a Ha). lia. }
  eauto.
Qed.

(** Takes a match apart into the characters it consumed. *)
Ltac split_match :=
  repeat match goal with
         | H : exists _, _ |- _ => destruct H
         | H : _ /\ _ |- _ => destruct H
         | H : _ \/ _ |- _ => destruct H
         end; subst.

Ltac pattern_facts H :=
  apply search_sound in H as (? & ? & ? & _ & H);
  cbn [matches seq alt lit plus chr digits1 spaces0 spaces1] in H;
  split_match.

Ltac read_group :=
  unfold group_text, group;
  repeat first [rewrite lookup_insert_eq | rewrite lookup_insert_ne by discriminate].

Ltac group_digits :=
  read_group;
  first [rewrite consumed_cons_app; apply int_ok_digits; assumption
        | rewrite consumed_cons2_app; apply int_ok_signed; assumption].

Lemma bpm_int (m : captures) (s : string) :
  search pat_bpm s = Some m -> int_ok (group_text m 1).
Proof. intros H. unfold pat_bpm in H. pattern_facts H; group_digits. Qed.

Lemma bars_int (m : captures) (s : string) :
  search pat_bars s = Some m -> int_ok (group_text m 1).
Proof. intros H. unfold pat_bars in H. pattern_facts H; group_digits. Qed.

Lemma pitch_int (m : captures) (s : string) :
  search pat_pitch_shift s = Some m -> int_ok (group_text m 1).
Proof. intros H. unfold pat_pitch_shift in H. pattern_facts H; group_digits. Qed.

Lemma filter_int (m : captures) (s : string) :
  search pat_filter s = Some m -> int_ok (group_text m 2).
Proof. intros H. unfold pat_filter in H. pattern_facts H; group_digits. Qed.

Lemma slice_int (m : captures) (s : string) :
  search pat_slice s = Some m -> int_ok (group_text m 1).
Proof. intros H. unfold pat_slice in H. pattern_facts H; group_digits. Qed.

Lemma measure_int (m : captures) (s : string) :
  search pat_measure_position s = Some m -> int_ok (group_text m 1).
Proof. intros H. unfold pat_measure_position in H. pattern_facts H; group_digits. Qed.

Lemma beat_int (m : captures) (s : string) :
  search pat_beat_position s = Some m -> int_ok (group_text m 1).
Proof. intros H. unfold pat_beat_position in H. pattern_facts H; group_digits. Qed.

Lemma insert_int (m : captures) (s : string) :
  search pat_insert_position s = Some m ->
  int_ok (group_text m 1) /\
  (truthy_str (group m 2) = true -> int_ok (group_text m 2)).
Proof.
  intros H. unfold pat_insert_position in H. pattern_facts H.
  all: split; [group_digits|].
  all: unfold truthy_str; read_group;
    try (rewrite lookup_empty; discriminate); intros _; group_digits.
Qed.

(** *** The key pattern on lowercased text *)

Lemma lower_char_not_capital (c : ascii) : capital_A_to_G (Str.lower_char c) = false.
Proof. destruct c as [[] [] [] [] [] [] [] []]; reflexivity. Qed.

Lemma lower_no_capital (s : string) :
  forallb (fun a => negb (capital_A_to_G a)) (list_ascii_of_string (Str.lower s)) = true.
Proof.
  induction s as [|c s IH]; simpl; [reflexivity|].
  rewrite lower_char_not_capital. exact IH.
Qed.

Lemma lstrip_keeps (P : ascii -> bool) (s : string) :
  forallb P (list_ascii_of_string s) = true ->
  forallb P (list_ascii_of_string (Str.lstrip s)) = true.
Proof.
  induction s as [|c s IH]; simpl; [auto|]. intros H.
  destruct (Str.isspace c); [|exact H].
  apply andb_true_iff in H as [_ H]. auto.
Qed.

Lemma rstrip_keeps (P : ascii -> bool) (s : string) :
  forallb P (list_ascii_of_string s) = true ->
  forallb P (list_ascii_of_string (Str.rstrip s)) = true.
Proof.
  induction s as [|c s IH]; simpl; [auto|]. intros H.
  apply andb_true_iff in H as [Hc H]. specialize (IH H).
  destruct (Str.rstrip s) as [|c' t].
  - destruct (Str.isspace c); simpl; [reflexivity|]. rewrite Hc. reflexivity.
  - simpl in *. rewrite Hc. exact IH.
Qed.

Lemma strip_keeps (P : ascii -> bool) (s : string) :
  forallb P (list_ascii_of_string s) = true ->
  forallb P (list_ascii_of_string (Str.strip s)) = true.
Proof. intros H. unfold Str.strip. apply rstrip_keeps, lstrip_keeps, H. Qed.

(** The key pattern needs a capital letter A to G. *)
Lemma key_needs_capital (s : string) (m : captures) :
  search pat_key s = Some m ->
  forallb (fun a => negb (capital_A_to_G a)) (list_ascii_of_string s) = true ->
  False.
Proof.
  intros H Hall. unfold pat_key in H.
  apply search_sound in H as (pre & s0 & s' & Hs & H).
  rewrite Hs in Hall. clear Hs.
  cbn [matches seq alt lit plus chr digits1 spaces0 spaces1] in H.
  split_match.
  all: repeat (rewrite forallb_app in Hall; simpl in Hall).
  all: repeat match goal with
              | H : (_ && _)%bool = true |- _ => apply andb_true_iff in H as [? ?]
              end.
  all: match goal with
       | H1 : one_of "ABCDEFG" ?a = true, H2 : negb (capital_A_to_G ?a) = true |- _ =>
           unfold capital_A_to_G in H2; rewrite H1 in H2; discriminate
       end.
Qed.

(** On the text [parse] works on, the key pattern never matches. *)
Lemma key_never_found (text : string) :
  search pat_key (Str.strip (Str.lower text)) = None.
Proof.
  destruct (search pat_key (Str.strip (Str.lower text))) as [m|] eqn:Hm; [|reflexivity].
  exfalso. eapply key_needs_capital; [exact Hm|].
  apply strip_keeps, lower_no_capital.
Qed.

End CapturedIntegers.

(** ** The command interpreter *)

(** Decides one pattern search of the parser and reads the integers of a
    match. *)
Ltac search_case :=
  match goal with
  | |- context [Re.search CommandParser.pat_pitch_shift ?c] =>
      let E := fresh "Epitch" in
      destruct (Re.search CommandParser.pat_pitch_shift c) as [?m|] eqn:E;
      [destruct (pitch_int _ _ E) as [?n ->]|]
  | |- context [Re.search CommandParser.pat_time_stretch ?c] =>
      let E := fresh "Estretch" in
      let m := fresh "m" in
      destruct (Re.search CommandParser.pat_time_stretch c) as [m|] eqn:E;
      [let F := fresh "Efloat" in
       destruct (Str.float (CommandParser.group_text m 1)) as [?rate|?e] eqn:F|]
  | |- context [Re.search CommandParser.pat_filter ?c] =>
      let E := fresh "Efilter" in
      destruct (Re.search CommandParser.pat_filter c) as [?m|] eqn:E;
      [destruct (filter_int _ _ E) as [?n ->]|]
  | |- context [Re.search CommandParser.pat_slice ?c] =>
      let E := fresh "Eslice" in
      destruct (Re.search CommandParser.pat_slice c) as [?m|] eqn:E;
      [destruct (slice_int _ _ E) as [?n ->]|]
  | |- context [Re.search CommandParser.pat_insert_position ?c] =>
      let E := fresh "Einsert" in
      let m := fresh "m" in
      let Hbeat := fresh "Hbeat" in
      destruct (Re.search CommandParser.pat_insert_position c) as [m|] eqn:E;
      [destruct (insert_int _ _ E) as [[?n ->] Hbeat];
       let T := fresh "Etruthy" in
       destruct (CommandParser.truthy_str (Re.group m 2)) eqn:T;
       [destruct (Hbeat eq_refl) as [?n ->]|]|]
  | |- context [Re.search CommandParser.pat_measure_position ?c] =>
      let E := fresh "Emeasure" in
      destruct (Re.search CommandParser.pat_measure_position c) as [?m|] eqn:E;
      [destruct (measure_int _ _ E) as [?n ->]|]
  | |- context [Re.search CommandParser.pat_beat_position ?c] =>
      let E := fresh "Ebeat" in
      destruct (Re.search CommandParser.pat_beat_position c) as [?m|] eqn:E;
      [destruct (beat_int _ _ E) as [?n ->]|]
  | |- context [Re.search CommandParser.pat_bpm ?c] =>
      let E := fresh "Ebpm" in
      destruct (Re.search CommandParser.pat_bpm c) as [?m|] eqn:E;
      [destruct (bpm_int _ _ E) as [?n ->]|]
  | |- context [Re.search CommandParser.pat_bars ?c] =>
      let E := fresh "Ebars" in
      destruct (Re.search CommandParser.pat_bars c) as [?m|] eqn:E;
      [destruct (bars_int _ _ E) as [?n ->]|]
  | |- context [if negb (CommandParser.truthy_int ?b) then _ else _] =>
      let T := fresh "Eset" in destruct (CommandParser.truthy_int b) eqn:T
  end; cbn [rbind negb].

Ltac checking_order :=
  unfold ParserSpec.in_checking_order; cbn [map app ParserSpec.op_rank];
  repeat (constructor; try (unfold Nat.lt; lia)).

Section Interpreter.
Import Re ReSpec CommandParser ParserSpec.

Lemma float_raises (t : string) (e : exn) : Str.float t = Raise e -> e = ValueError.
Proof.
  unfold Str.float. destruct (Str.split_dot t) as [ip rest].
  destruct (Str.digits_acc 0 ip); [|congruence].
  destruct (Str.digits_acc 0 _); [|congruence].
  destruct (Nat.eqb _ _); congruence.
Qed.

(** [_parse_sample_command] returns a sample-processing command whose
    operations are in checking order; the one exception it can raise comes
    from [float] on the text after "stretch". *)
Lemma sample_returns (command : string) :
  match _parse_sample_command command with
  | Ok r => exists p ops b bt, r = sample_process p ops b bt /\ in_checking_order ops
  | Raise e => e = ValueError /\
               exists m, search pat_time_stretch command = Some m /\
                         Str.float (group_text m 1) = Raise ValueError
  end.
Proof.
  unfold _parse_sample_command.
  repeat search_case.
  all: try (do 4 eexists; split; [reflexivity | checking_order]).
  all: match goal with
       | F : Str.float _ = Raise ?e |- _ =>
           pose proof (float_raises _ _ F); subst e; eauto
       end.
Qed.

(** [_parse_generate_command] always returns a generation command; its key
    is "C" whenever the key pattern does not match. *)
Lemma generate_returns (command : string) :
  exists genre bpm key bars include_808,
    _parse_generate_command command = Ok (generate_beat genre bpm key bars include_808) /\
    (search pat_key command = None -> key = "C").
Proof.
  unfold _parse_generate_command.
  repeat search_case.
  all: do 5 eexists; split; [reflexivity|].
  all: intros ->; reflexivity.
Qed.

Lemma parse_sample (text : string) :
  Str.any_in sample_words (Str.strip (Str.lower text)) = true ->
  parse text = _parse_sample_command (Str.strip (Str.lower text)).
Proof. intros H. unfold parse. rewrite H. reflexivity. Qed.

Lemma parse_generate (text : string) :
  Str.any_in sample_words (Str.strip (Str.lower text)) = false ->
  Str.any_in create_words (Str.strip (Str.lower text)) = true ->
  parse text = _parse_generate_command (Str.strip (Str.lower text)).
Proof. intros H1 H2. unfold parse. rewrite H1, H2. reflexivity. Qed.

Lemma parse_unknown (text : string) :
  Str.any_in sample_words (Str.strip (Str.lower text)) = false ->
  Str.any_in create_words (Str.strip (Str.lower text)) = false ->
  parse text = Ok (unknown (Str.strip (Str.lower text))).
Proof. intros H1 H2. unfold parse. rewrite H1, H2. reflexivity. Qed.

(** What [parse] returns comes from one of its three branches. *)
Lemma parse_cases (text : string) :
  parse text = _parse_sample_command (Str.strip (Str.lower text)) \/
  parse text = _parse_generate_command (Str.strip (Str.lower text)) \/
  parse text = Ok (unknown (Str.strip (Str.lower text))).
Proof.
  unfold parse.
  destruct (Str.any_in sample_words _); [auto|].
  destruct (Str.any_in create_words _); auto.
Qed.

(** *** The documented examples *)

Example parse_sample_example :
  parse "take kick.wav, pitch down 3 semitones, stretch by 0.82, insert at bar 40 beat 3" =
  Ok (sample_process (Some "kick.wav") [pitch_shift (-3); time_stretch (41 # 50)]
                     (Some 40) 3).
Proof. vm_compute; reflexivity. Qed.

Example parse_generate_example :
  parse "create a memphis style beat with 808s at 170 bpm" =
  Ok (generate_beat "memphis" (Some 170) "C" 4 true).
Proof. vm_compute; reflexivity. Qed.

Example parse_measure_example :
  parse "load vocal.wav, highpass 200 hz, slice into 8, insert at measure 16" =
  Ok (sample_process (Some "vocal.wav") [filter "highpass" 200; slice 8] (Some 16) 1).
Proof. vm_compute; reflexivity. Qed.

Example parse_bars_example :
  parse "generate a lofi beat at 80 bpm 8 bars" =
  Ok (generate_beat "lofi" (Some 80) "C" 8 false).
Proof. vm_compute; reflexivity. Qed.

(** *** Order of the operations *)

(** The text mentions slice before pitch; the operations come out with the
    pitch shift before the slice. *)
Lemma C3_counterexample :
  String.index 0 "slice" slice_before_pitch = Some 11%nat /\
  String.index 0 "pitch" slice_before_pitch = Some 19%nat /\
  parse slice_before_pitch =
    Ok (sample_process (Some "a.wav") [pitch_shift 3; slice 4] None 1).
Proof. repeat split; vm_compute; reflexivity. Qed.

(** C3, amended. The operations of every sample-processing command are in
    the order in which the parser looks for them (pitch shift, time stretch,
    filter, slice), each kind at most once, whatever their order in the
    text. *)
Theorem C3_operations_in_checking_order
        (text : string) (p : option string) (ops : list operation)
        (b : option Z) (bt : Z) :
  parse text = Ok (sample_process p ops b bt) -> in_checking_order ops.
Proof.
  intros Hparse.
  destruct (parse_cases text) as [H | [H | H]]; rewrite H in Hparse.
  - pose proof (sample_returns (Str.strip (Str.lower text))) as Hs.
    rewrite Hparse in Hs. destruct Hs as (p' & ops' & b' & bt' & Heq & Hord).
    injection Heq as -> -> -> ->. exact Hord.
  - destruct (generate_returns (Str.strip (Str.lower text)))
      as (g & bp & k & n & i & Hg & _).
    rewrite Hg in Hparse. discriminate.
  - discriminate.
Qed.

Lemma C3_operations_in_checking_order_witness :
  parse slice_before_pitch =
    Ok (sample_process (Some "a.wav") [pitch_shift 3; slice 4] None 1) /\
  in_checking_order [pitch_shift 3; slice 4].
Proof.
  split; [vm_compute; reflexivity|].
  apply (C3_operations_in_checking_order slice_before_pitch (Some "a.wav")
           [pitch_shift 3; slice 4] None 1).
  vm_compute; reflexivity.
Defined.

(** *** The key of a generation command *)

(** C4. The text is lowercased before the key pattern, which asks for a
    capital letter, is searched in it: the key of every generation command
    is the default "C", also when the text names a key. *)
Theorem C4_key_is_always_C
        (text genre key : string) (bpm : option Z) (bars : Z) (include_808 : bool) :
  parse text = Ok (generate_beat genre bpm key bars include_808) -> key = "C".
Proof.
  intros Hparse.
  destruct (parse_cases text) as [H | [H | H]]; rewrite H in Hparse.
  - pose proof (sample_returns (Str.strip (Str.lower text))) as Hs.
    rewrite Hparse in Hs. destruct Hs as (p' & ops' & b' & bt' & Heq & _).
    discriminate.
  - destruct (generate_returns (Str.strip (Str.lower text)))
      as (g & bp & k & n & i & Hg & Hkey).
    rewrite Hg in Hparse. injection Hparse as -> -> -> -> ->.
    apply Hkey, key_never_found.
  - discriminate.
Qed.

Lemma C4_key_is_always_C_witness :
  parse key_of_Dm = Ok (generate_beat "trap" None "C" 4 true) /\ "C" = "C".
Proof.
  split; [vm_compute; reflexivity|].
  apply (C4_key_is_always_C key_of_Dm "trap" "C" None 4 true).
  vm_compute; reflexivity.
Defined.

(** *** Intent classification *)

(** The unknown result carries the lowercased, trimmed text and not the text
    given; a sample command whose stretch factor is not a number raises. *)
Lemma C6_counterexample :
  parse "  Hello THERE " = Ok (unknown "hello there") /\
  "hello there" <> "  Hello THERE " /\
  Str.any_in sample_words (Str.strip (Str.lower "take stretch .")) = true /\
  parse "take stretch ." = Raise ValueError.
Proof. repeat split; try (vm_compute; reflexivity). discriminate. Qed.

(** C6, amended. Intent is classified on the lowercased, trimmed text in a
    fixed priority.  A sample keyword hands the text to the sample parser:
    every result is a sample-processing command, and for a text within the
    digit limit of [int] the one exception is the [ValueError] of [float]
    on the text after "stretch".  Otherwise a create keyword gives a
    generation command: every result is one, and a text within the digit
    limit always has a result.  Otherwise the result is unknown and carries
    the lowercased, trimmed text. *)
Theorem C6_intent_priority (text : string) :
  (Str.any_in sample_words (Str.strip (Str.lower text)) = true ->
   (forall r, parse text = Ok r -> type_of r = SampleProcess) /\
   (ParsedSpec.within_digit_limit text ->
    forall e, parse text = Raise e ->
      e = ValueError /\
      exists m, search pat_time_stretch (Str.strip (Str.lower text)) = Some m /\
                Str.float (group_text m 1) = Raise ValueError)) /\
  (Str.any_in sample_words (Str.strip (Str.lower text)) = false ->
   Str.any_in create_words (Str.strip (Str.lower text)) = true ->
   (forall r, parse text = Ok r -> type_of r = GenerateBeat) /\
   (ParsedSpec.within_digit_limit text ->
    exists r, parse text = Ok r /\ type_of r = GenerateBeat)) /\
  (Str.any_in sample_words (Str.strip (Str.lower text)) = false ->
   Str.any_in create_words (Str.strip (Str.lower text)) = false ->
   parse text = Ok (unknown (Str.strip (Str.lower text)))).
Proof.
  split; [|split].
  - intros H. rewrite (parse_sample text H).
    pose proof (sample_returns (Str.strip (Str.lower text))) as Hs.
    destruct (_parse_sample_command _) as [r|e].
    + destruct Hs as (p & ops & b & bt & -> & _).
      split; [|discriminate]. intros r Hr. injection Hr as <-. reflexivity.
    + split; [discriminate|]. intros _ e' He'. injection He' as <-. exact Hs.
  - intros H1 H2. rewrite (parse_generate text H1 H2).
    destruct (generate_returns (Str.strip (Str.lower text)))
      as (g & bp & k & n & i & Hg & _).
    rewrite Hg. split.
    + intros r Hr. injection Hr as <-. reflexivity.
    + intros _. eexists; split; reflexivity.
  - apply parse_unknown.
Qed.

Lemma C6_intent_priority_witness :
  Str.any_in sample_words (Str.strip (Str.lower sample_and_create)) = true /\
  Str.any_in create_words (Str.strip (Str.lower sample_and_create)) = true /\
  parse sample_and_create = Ok (sample_process (Some "kick.wav") [] None 1) /\
  type_of (sample_process (Some "kick.wav") [] None 1) = SampleProcess /\
  Str.any_in sample_words (Str.strip (Str.lower key_of_Dm)) = false /\
  Str.any_in create_words (Str.strip (Str.lower key_of_Dm)) = true /\
  ParsedSpec.within_digit_limit key_of_Dm /\
  exists r, parse key_of_Dm = Ok r /\ type_of r = GenerateBeat.
Proof.
  assert (Hsample : Str.any_in sample_words (Str.strip (Str.lower sample_and_create)) = true)
    by (vm_compute; reflexivity).
  assert (Hparse : parse sample_and_create = Ok (sample_process (Some "kick.wav") [] None 1))
    by (vm_compute; reflexivity).
  assert (Hno : Str.any_in sample_words (Str.strip (Str.lower key_of_Dm)) = false)
    by (vm_compute; reflexivity).
  assert (Hcreate : Str.any_in create_words (Str.strip (Str.lower key_of_Dm)) = true)
    by (vm_compute; reflexivity).
  assert (Hlimit : ParsedSpec.within_digit_limit key_of_Dm)
    by (unfold ParsedSpec.within_digit_limit; simpl; lia).
  split; [exact Hsample|]. split; [vm_compute; reflexivity|].
  split; [exact Hparse|]. split.
  - exact (proj1 (proj1 (C6_intent_priority sample_and_create) Hsample) _ Hparse).
  - split; [exact Hno|]. split; [exact Hcreate|]. split; [exact Hlimit|].
    exact (proj2 (proj1 (proj2 (C6_intent_priority key_of_Dm)) Hno Hcreate) Hlimit).
Defined.

(** *** Insert position *)

(** A primary match with a bar other than 0 decides the position. *)
Lemma primary_kept_when_nonzero (command : string) (m : captures) (bar : Z)
      (p : option string) (ops : list operation) (b : option Z) (bt : Z) :
  search pat_insert_position command = Some m ->
  Str.int (group_text m 1) = Ok bar ->
  bar <> 0 ->
  _parse_sample_command command = Ok (sample_process p ops b bt) ->
  b = Some bar /\
  (if truthy_str (group m 2) then Str.int (group_text m 2) = Ok bt else bt = 1).
Proof.
  intros Hm Hbar Hnz. unfold _parse_sample_command.
  rewrite Hm, Hbar.
  assert (Hset : truthy_int (Some bar) = true).
  { simpl. apply negb_true_iff, Z.eqb_neq, Hnz. }
  destruct (insert_int _ _ Hm) as [_ Hbeat].
  destruct (truthy_str (group m 2)) eqn:Etruthy;
    [destruct (Hbeat eq_refl) as [n2 Hn2]; rewrite Hn2|].
  all: cbn [rbind]; repeat search_case; try congruence.
  all: intros H; injection H as <- <- <- <-; auto.
Qed.

(** A primary match with bar 0 counts as no match: a measure pattern that
    matches as well decides the bar. *)
Lemma fallback_when_primary_bar_zero (command : string) (m m' : captures) (bar : Z)
      (p : option string) (ops : list operation) (b : option Z) (bt : Z) :
  search pat_insert_position command = Some m ->
  Str.int (group_text m 1) = Ok 0 ->
  search pat_measure_position command = Some m' ->
  Str.int (group_text m' 1) = Ok bar ->
  _parse_sample_command command = Ok (sample_process p ops b bt) ->
  b = Some bar.
Proof.
  intros Hm Hbar Hm' Hbar'. unfold _parse_sample_command.
  rewrite Hm, Hbar, Hm', Hbar'.
  destruct (insert_int _ _ Hm) as [_ Hbeat].
  destruct (truthy_str (group m 2)) eqn:Etruthy;
    [destruct (Hbeat eq_refl) as [n2 Hn2]; rewrite Hn2|].
  all: cbn [rbind]; repeat search_case; try congruence.
  all: try (simpl in Eset; discriminate).
  all: intros H; injection H as <- <- <- <-; auto.
Qed.

(** C7. On a text whose primary insert pattern matches bar 0 (and no beat,
    so beat 1), the parser still applies the fallback: the position comes
    out as bar 7, beat 2, taken from the measure and beat patterns. *)
Theorem C7_fallback_applied_after_primary_bar_zero :
  option_map (fun m => (group m 1, group m 2))
             (search pat_insert_position insert_at_bar_zero) = Some (Some "0", None) /\
  option_map (fun m => group m 1)
             (search pat_measure_position insert_at_bar_zero) = Some (Some "7") /\
  option_map (fun m => group m 1)
             (search pat_beat_position insert_at_bar_zero) = Some (Some "2") /\
  parse insert_at_bar_zero = Ok (sample_process (Some "x.wav") [] (Some 7) 2).
Proof. repeat split; vm_compute; reflexivity. Qed.

(** *** Keywords inside words *)

(** C9. Keyword matching is substring containment: "create a house beat"
    has no sample keyword among its words, has the create keyword "create",
    and is parsed as a sample-processing command because "use" occurs inside
    "house". *)
Theorem C9_keyword_inside_a_word :
  words house_beat = ["create"; "a"; "house"; "beat"] /\
  has_sample_word house_beat = false /\
  Str.any_in create_words (Str.strip (Str.lower house_beat)) = true /\
  Str.contains "use" "house" = true /\
  Str.any_in sample_words (Str.strip (Str.lower house_beat)) = true /\
  parse house_beat = Ok (sample_process None [] None 1).
Proof. repeat split; vm_compute; reflexivity. Qed.

End Interpreter.

(** ** The pattern combiner *)

Section Combiner.
Import PatternBuilder PatternSpec.

Lemma Qlt_bool_true (x y : Q) : Qlt_bool x y = true -> (x < y)%Q.
Proof.
  unfold Qlt_bool. intros H. apply negb_true_iff in H.
  apply Qnot_le_lt. intros Hle. apply Qle_bool_iff in Hle. congruence.
Qed.

Lemma Qlt_bool_false (x y : Q) : Qlt_bool x y = false -> (y <= x)%Q.
Proof.
  unfold Qlt_bool. intros H. apply negb_false_iff in H.
  apply Qle_bool_iff, H.
Qed.

Lemma insert_by_time_perm (x : NoteEvent) (l : list NoteEvent) :
  Permutation (insert_by_time x l) (x :: l).
Proof.
  induction l as [|y l IH]; simpl; [reflexivity|].
  destruct (Qlt_bool (time y) (time x)); [|reflexivity].
  rewrite IH. apply perm_swap.
Qed.

Lemma sort_by_time_perm (l : list NoteEvent) : Permutation (sort_by_time l) l.
Proof.
  induction l as [|x l IH]; simpl; [reflexivity|].
  rewrite insert_by_time_perm. constructor. exact IH.
Qed.

Lemma insert_by_time_sorted (x : NoteEvent) (l : list NoteEvent) :
  StronglySorted time_le l -> StronglySorted time_le (insert_by_time x l).
Proof.
  induction l as [|y l IH]; simpl; intros Hs.
  - constructor; constructor.
  - inversion Hs as [|? ? Hl Hy]; subst.
    destruct (Qlt_bool (time y) (time x)) eqn:Hlt.
    + constructor; [apply IH, Hl|].
      apply (Permutation_Forall (Permutation_sym (insert_by_time_perm x l))).
      constructor; [|exact Hy].
      apply Qlt_le_weak, Qlt_bool_true, Hlt.
    + apply Qlt_bool_false in Hlt.
      constructor; [exact Hs|].
      constructor; [exact Hlt|].
      eapply Forall_impl; [exact Hy|].
      intros z Hz. unfold time_le in *. eapply Qle_trans; eauto.
Qed.

Lemma sort_by_time_sorted (l : list NoteEvent) : StronglySorted time_le (sort_by_time l).
Proof.
  induction l as [|x l IH]; simpl; [constructor|].
  apply insert_by_time_sorted, IH.
Qed.

(** An inserted event only moves past events that start strictly before it. *)
Lemma at_time_insert (t : Q) (x : NoteEvent) (l : list NoteEvent) :
  at_time t (insert_by_time x l) = at_time t (x :: l).
Proof.
  induction l as [|y l IH]; [reflexivity|].
  cbn [insert_by_time].
  destruct (Qlt_bool (time y) (time x)) eqn:Hlt; [|reflexivity].
  apply Qlt_bool_true in Hlt.
  unfold at_time in *. cbn [List.filter] in *. rewrite IH.
  destruct (Qeq_bool (time y) t) eqn:Hy, (Qeq_bool (time x) t) eqn:Hx; try reflexivity.
  apply Qeq_bool_iff in Hy, Hx. rewrite Hy, Hx in Hlt.
  exfalso. exact (Qlt_irrefl _ Hlt).
Qed.

Lemma at_time_sort (t : Q) (l : list NoteEvent) :
  at_time t (sort_by_time l) = at_time t l.
Proof.
  induction l as [|x l IH]; [reflexivity|].
  cbn [sort_by_time fold_right]. rewrite at_time_insert.
  unfold at_time in *. cbn [List.filter]. fold (sort_by_time l). rewrite IH. reflexivity.
Qed.

Lemma combine_patterns_concat (ps : list (list NoteEvent)) :
  combine_patterns ps = sort_by_time (concat ps).
Proof.
  unfold combine_patterns. f_equal.
  assert (H : forall acc, fold_left (fun c p => c ++ p) ps acc = acc ++ concat ps).
  { induction ps as [|p ps IH]; intros acc; simpl.
    - rewrite app_nil_r. reflexivity.
    - rewrite IH, app_assoc. reflexivity. }
  apply (H []).
Qed.

(** Whatever the number of patterns, the combination is the stable sort of
    their concatenation. *)
Lemma combine_is_stable_sort (ps : list (list NoteEvent)) :
  Permutation (combine_patterns ps) (concat ps) /\
  StronglySorted time_le (combine_patterns ps) /\
  (forall t : Q, at_time t (combine_patterns ps) = at_time t (concat ps)).
Proof.
  rewrite combine_patterns_concat. split; [|split].
  - apply sort_by_time_perm.
  - apply sort_by_time_sorted.
  - intros t. apply at_time_sort.
Qed.

(** C2. Combining two patterns keeps every event, orders them by start time,
    and among the events of one start time puts those of the first pattern
    before those of the second, each group in its input order. *)
Theorem C2_combine_is_a_stable_merge (a b : list NoteEvent) :
  length (combine_patterns [a; b]) = (length a + length b)%nat /\
  Permutation (combine_patterns [a; b]) (a ++ b) /\
  StronglySorted time_le (combine_patterns [a; b]) /\
  (forall t : Q, at_time t (combine_patterns [a; b]) = at_time t a ++ at_time t b).
Proof.
  destruct (combine_is_stable_sort [a; b]) as (Hperm & Hsorted & Hstable).
  cbn [concat] in Hperm, Hstable. rewrite app_nil_r in Hperm, Hstable.
  repeat split.
  - rewrite (Permutation_length Hperm). apply length_app.
  - exact Hperm.
  - exact Hsorted.
  - intros t. rewrite Hstable. unfold at_time. apply List.filter_app.
Qed.

(** Two events of one start time, one from each pattern, around an earlier
    one: the event of the first pattern stays in front. *)
Example combine_keeps_input_order :
  let kick := {| note := 36; velocity := 100; time := 1; duration := 1 |} in
  let bass := {| note := 24; velocity := 110; time := 1; duration := 3 |} in
  let early := {| note := 42; velocity := 80; time := 0; duration := 1 |} in
  combine_patterns [[kick]; [bass; early]] = [early; kick; bass].
Proof. reflexivity. Qed.

End Combiner.

(** ** Loops over the steps *)

Section Loops.
Import PatternBuilder PatternSpec.
Context {rng : Type} `{RandomSource rng}.

Lemma for_each_invariant {A : Type} (I : list NoteEvent -> Prop)
      (body : A -> list NoteEvent -> rng -> list NoteEvent * rng) (xs : list A) :
  (forall x notes g, In x xs -> I notes -> I (fst (body x notes g))) ->
  forall notes g, I notes -> I (fst (for_each body xs notes g)).
Proof.
  induction xs as [|x xs IH]; intros Hbody notes g Hn; simpl; [exact Hn|].
  destruct (body x notes g) as [notes' g'] eqn:Hb.
  apply IH.
  - intros y n g0 Hy. apply Hbody. right. exact Hy.
  - change notes' with (fst (notes', g')). rewrite <- Hb.
    apply Hbody; [left; reflexivity | exact Hn].
Qed.

Lemma for_each_ext {A : Type}
      (body1 body2 : A -> list NoteEvent -> rng -> list NoteEvent * rng) (xs : list A) :
  (forall x notes g, body1 x notes g = body2 x notes g) ->
  forall notes g, for_each body1 xs notes g = for_each body2 xs notes g.
Proof.
  intros Hbody. induction xs as [|x xs IH]; intros notes g; simpl; [reflexivity|].
  rewrite Hbody. destruct (body2 x notes g) as [notes' g']. apply IH.
Qed.

Lemma append_hit_fst (drum : string) (lo hi : Z) (t d : Q)
      (notes : list NoteEvent) (g : rng) :
  fst (append_hit drum lo hi t d notes g) =
  notes ++ [{| note := DRUM_NOTES !!! drum; velocity := fst (randint lo hi g);
               time := t; duration := d |}].
Proof. unfold append_hit. destruct (randint lo hi g). reflexivity. Qed.

End Loops.

Lemma in_range (step n : Z) : In step (range n) <-> 0 <= step < n.
Proof.
  unfold range. rewrite in_map_iff. split.
  - intros (k & <- & Hk). apply in_seq in Hk. lia.
  - intros Hs. exists (Z.to_nat step). split; [lia|]. apply in_seq. lia.
Qed.

Lemma is_in_spec (x : Z) (xs : list Z) : is_in x xs = true <-> In x xs.
Proof.
  unfold is_in. rewrite existsb_exists. split.
  - intros (y & Hy & Heq). apply Z.eqb_eq in Heq. subst. exact Hy.
  - intros Hx. exists x. split; [exact Hx | apply Z.eqb_refl].
Qed.

(** Names the event each appended hit adds. *)
Ltac hits :=
  repeat match goal with
         | |- context [PatternBuilder.append_hit ?d ?lo ?hi ?t ?du ?n ?g] =>
             let E := fresh "Ehit" in
             pose proof (append_hit_fst d lo hi t du n g) as E;
             destruct (PatternBuilder.append_hit d lo hi t du n g); cbn [fst] in E; subst
         end.

(** Decides the conditions and the draws of one iteration of a pattern loop. *)
Ltac decide_step :=
  repeat first
         [ match goal with
           | |- context [if ?c then _ else _] => destruct c eqn:?
           end
         | match goal with
           | |- context [random ?g] => destruct (random g)
           end
         | progress hits ].

(** ** Hits of a drum pattern *)

Section Rules.
Import PatternBuilder PatternSpec.

Lemma emits_app (r1 r2 : list Rule) (h1 h2 : list Hit) :
  emits r1 h1 -> emits r2 h2 -> emits (r1 ++ r2) (h1 ++ h2).
Proof.
  intros H1 H2. induction H1; simpl; [exact H2| | |].
  - rewrite <- app_assoc. constructor. exact IHemits.
  - rewrite <- app_assoc. apply emits_fired. exact IHemits.
  - apply emits_skipped. exact IHemits.
Qed.

Lemma emits_length (rules : list Rule) (out : list Hit) :
  emits rules out ->
  (length (mandatory rules) <= length out /\
   length out <= length (mandatory rules) + length (optional rules))%nat.
Proof.
  unfold mandatory, optional.
  induction 1; simpl; rewrite ?length_app in *; simpl; lia.
Qed.

Lemma emits_mandatory (rules : list Rule) (out : list Hit) :
  emits rules out -> optional rules = [] -> out = mandatory rules.
Proof.
  unfold mandatory, optional.
  induction 1; simpl; intros Hopt; [reflexivity| | |].
  - f_equal. apply IHemits, Hopt.
  - apply app_eq_nil in Hopt as [-> Hopt]. simpl. apply IHemits, Hopt.
  - apply app_eq_nil in Hopt as [-> Hopt]. simpl. apply IHemits, Hopt.
Qed.

Lemma optional_flat_map {A : Type} (f : A -> list Rule) (xs : list A) :
  (forall x, optional (f x) = []) -> optional (flat_map f xs) = [].
Proof.
  intros Hf. unfold optional in *. induction xs as [|x xs IH]; simpl; [reflexivity|].
  rewrite flat_map_app, Hf, IH. reflexivity.
Qed.

End Rules.

Section EventCount.
Import PatternBuilder PatternSpec.
Context {rng : Type} `{RandomSource rng}.

Lemma for_each_emits (rules_of : Z -> list Rule)
      (body : Z -> list NoteEvent -> rng -> list NoteEvent * rng) (xs : list Z) :
  adds_by_rules rules_of body ->
  forall notes g,
  exists added, fst (for_each body xs notes g) = notes ++ added /\
                emits (flat_map rules_of xs) (map hit_of added).
Proof.
  intros Hbody. induction xs as [|x xs IH]; intros notes g; simpl.
  - exists []. split; [symmetry; apply app_nil_r | constructor].
  - destruct (Hbody x notes g) as (a1 & E1 & H1).
    destruct (body x notes g) as [notes' g']. cbn [fst] in E1. subst notes'.
    destruct (IH (notes ++ a1) g') as (a2 & E2 & H2).
    exists (a1 ++ a2). split.
    + rewrite E2. symmetry. apply app_assoc.
    + rewrite map_app. apply emits_app; assumption.
Qed.

Variable self : PatternBuilder.

(** Finds the hits an iteration added and the rules that emit them. *)
Ltac added_hits :=
  cbn [fst]; rewrite <- ?app_assoc;
  first [ eexists; split; [reflexivity|]
        | exists []; split; [symmetry; apply app_nil_r|] ];
  cbn [app map hit_of note time duration]; unfold hit;
  repeat first [ apply emits_nil
               | apply (emits_always [_]) | apply (emits_fired [_])
               | apply (emits_fired [_; _; _])
               | apply emits_skipped ].

Lemma memphis_step_rules (complexity : Q) :
  adds_by_rules (memphis_rules self) (memphis_step (rng := rng) self complexity).
Proof.
  intros step notes g. unfold memphis_step, memphis_rules. cbv zeta.
  decide_step; added_hits.
Qed.

Lemma trap_step_rules (complexity : Q) :
  adds_by_rules (trap_rules self complexity) (trap_step (rng := rng) self complexity).
Proof.
  intros step notes g. unfold trap_step, trap_rules. cbv zeta.
  change (range 3) with [0; 1; 2]. cbn [for_each map]. unfold roll_hit.
  decide_step; added_hits.
Qed.

Lemma lofi_step_rules :
  adds_by_rules (lofi_rules self) (lofi_step (rng := rng) self lofi_swing).
Proof.
  intros step notes g. unfold lofi_step, lofi_rules. cbv zeta.
  destruct (step mod 2 =? 1);
    destruct (is_in _ [0; 8]), (is_in _ [4; 12]), (_ mod 2 =? 0); hits; added_hits.
Qed.

Lemma boom_bap_step_rules :
  adds_by_rules (boom_bap_rules self) (boom_bap_step (rng := rng) self).
Proof.
  intros step notes g. unfold boom_bap_step, boom_bap_rules. cbv zeta.
  decide_step; added_hits.
Qed.

Lemma basic_step_rules :
  adds_by_rules (basic_rules self) (basic_step (rng := rng) self).
Proof.
  intros step notes g. unfold basic_step, basic_rules, append_fixed. cbv zeta.
  decide_step; added_hits.
Qed.

Lemma create_drum_pattern_style (style : string) (bars : Z) (complexity : Q) (g : rng) :
  create_drum_pattern self style bars complexity g =
  match style_of style with
  | Memphis => _memphis_pattern self bars complexity g
  | Trap => _trap_pattern self bars complexity g
  | Lofi => _lofi_pattern self bars complexity g
  | BoomBap => _boom_bap_pattern self bars complexity g
  | Basic => _basic_pattern self bars g
  end.
Proof.
  unfold create_drum_pattern, style_of.
  repeat match goal with |- context [String.eqb ?a ?b] => destruct (String.eqb a b) end;
    reflexivity.
Qed.

(** Every run emits what the rules of the style can emit. *)
Lemma drum_pattern_emits (style : string) (bars : Z) (complexity : Q) (g : rng) :
  emits (drum_rules self (style_of style) complexity bars)
        (map hit_of (fst (create_drum_pattern self style bars complexity g))).
Proof.
  rewrite create_drum_pattern_style. unfold drum_rules.
  destruct (style_of style); cbn [step_rules].
  - destruct (for_each_emits _ _ (range (steps_per_bar self * bars))
                (memphis_step_rules complexity) [] g) as (added & E & Hr).
    unfold _memphis_pattern. rewrite E. exact Hr.
  - destruct (for_each_emits _ _ (range (steps_per_bar self * bars))
                (trap_step_rules complexity) [] g) as (added & E & Hr).
    unfold _trap_pattern. rewrite E. exact Hr.
  - destruct (for_each_emits _ _ (range (steps_per_bar self * bars))
                lofi_step_rules [] g) as (added & E & Hr).
    unfold _lofi_pattern. rewrite E. exact Hr.
  - destruct (for_each_emits _ _ (range (steps_per_bar self * bars))
                boom_bap_step_rules [] g) as (added & E & Hr).
    unfold _boom_bap_pattern. rewrite E. exact Hr.
  - destruct (for_each_emits _ _ (range (steps_per_bar self * bars))
                basic_step_rules [] g) as (added & E & Hr).
    unfold _basic_pattern. rewrite E. exact Hr.
Qed.

Lemma no_optional_rules (style : DrumStyle) (complexity : Q) (bars : Z) :
  has_optional_hits style complexity = false ->
  optional (drum_rules self style complexity bars) = [].
Proof.
  intros Hno. apply optional_flat_map. intros step.
  destruct style; simpl in Hno; try discriminate; cbn [step_rules].
  - unfold trap_rules. cbv zeta. rewrite Hno. cbn [andb].
    repeat match goal with |- context [if ?c then _ else _] => destruct c end;
      reflexivity.
  - unfold lofi_rules. cbv zeta.
    destruct (is_in _ [0; 8]), (is_in _ [4; 12]), (_ mod 2 =? 0); reflexivity.
  - unfold boom_bap_rules. cbv zeta.
    repeat match goal with |- context [if ?c then _ else _] => destruct c end;
      reflexivity.
  - unfold basic_rules. cbv zeta.
    repeat match goal with |- context [if ?c then _ else _] => destruct c end;
      reflexivity.
Qed.

End EventCount.

(** ** Where the events of a drum pattern start *)

Lemma grid_slot (sd : Q) (step total : Z) :
  (0 < sd)%Q -> 0 <= step < total ->
  (0 <= inject_Z step * sd)%Q /\ (inject_Z step * sd + sd <= inject_Z total * sd)%Q.
Proof.
  intros Hsd [H0 Ht]. split.
  - apply Qmult_le_0_compat; [|apply Qlt_le_weak, Hsd].
    change 0%Q with (inject_Z 0). rewrite <- Zle_Qle. exact H0.
  - assert (Hnext : (inject_Z step * sd + sd == inject_Z (step + 1) * sd)%Q)
      by (rewrite inject_Z_plus; ring).
    rewrite Hnext.
    apply Qmult_le_compat_r; [|apply Qlt_le_weak, Hsd].
    rewrite <- Zle_Qle. lia.
Qed.

Lemma init_fields (bpm spb : Z) (self : PatternBuilder.PatternBuilder) :
  PatternBuilder.__init__ bpm spb = Ok self ->
  bpm <> 0 /\ spb <> 0 /\ PatternBuilder.steps_per_bar self = spb /\
  PatternBuilder.step_duration self = (60 / inject_Z bpm / (inject_Z spb / 4))%Q.
Proof.
  unfold PatternBuilder.__init__. destruct (bpm =? 0) eqn:Hb; [discriminate|].
  destruct (spb =? 0) eqn:Hs; [discriminate|].
  intros Hok. injection Hok as <-. simpl.
  apply Z.eqb_neq in Hb, Hs. auto.
Qed.

Lemma init_step_duration_pos (bpm spb : Z) (self : PatternBuilder.PatternBuilder) :
  PatternBuilder.__init__ bpm spb = Ok self -> 0 < bpm -> 0 < spb ->
  (0 < PatternBuilder.step_duration self)%Q.
Proof.
  intros Hinit Hb Hs. destruct (init_fields _ _ _ Hinit) as (_ & _ & _ & ->).
  assert (Hb' : (0 < inject_Z bpm)%Q)
    by (change 0%Q with (inject_Z 0); rewrite <- Zlt_Qlt; exact Hb).
  assert (Hs' : (0 < inject_Z spb)%Q)
    by (change 0%Q with (inject_Z 0); rewrite <- Zlt_Qlt; exact Hs).
  unfold Qdiv.
  repeat first [apply Qmult_lt_0_compat | apply Qinv_lt_0_compat];
    try assumption; reflexivity.
Qed.

(** The total duration of a pattern is [240 * bars / bpm] seconds. *)
Lemma init_total_duration (bpm spb bars : Z) (self : PatternBuilder.PatternBuilder) :
  PatternBuilder.__init__ bpm spb = Ok self ->
  (PatternSpec.total_duration self bars == inject_Z (240 * bars) / inject_Z bpm)%Q.
Proof.
  intros Hinit. destruct (init_fields _ _ _ Hinit) as (Hb & Hs & Hspb & Hsd).
  unfold PatternSpec.total_duration. rewrite Hspb, Hsd.
  rewrite !inject_Z_mult.
  assert (Hb' : ~ (inject_Z bpm == 0)%Q).
  { change 0%Q with (inject_Z 0). rewrite inject_Z_injective. exact Hb. }
  assert (Hs' : ~ (inject_Z spb == 0)%Q).
  { change 0%Q with (inject_Z 0). rewrite inject_Z_injective. exact Hs. }
  change (inject_Z 240) with 240%Q.
  field. split; assumption.
Qed.

Section Span.
Import PatternBuilder PatternSpec.
Context {rng : Type} `{RandomSource rng}.
Variable self : PatternBuilder.
Variable bars : Z.
Hypothesis Hsd : (0 < step_duration self)%Q.

Lemma grid_in_span (step : Z) (n v : Z) (d : Q) :
  In step (range (steps_per_bar self * bars)) ->
  in_span self bars {| note := n; velocity := v;
                       time := (inject_Z step * step_duration self)%Q; duration := d |}.
Proof.
  intros Hstep. apply in_range in Hstep.
  destruct (grid_slot _ _ _ Hsd Hstep) as [H0 H1].
  unfold in_span, total_duration. cbn [time]. split; [exact H0|].
  set (X := (inject_Z step * step_duration self)%Q) in *.
  set (T := (inject_Z (steps_per_bar self * bars) * step_duration self)%Q) in *.
  clearbody X T. lra.
Qed.

Lemma roll_in_span (step i : Z) (n v : Z) (d : Q) :
  In step (range (steps_per_bar self * bars)) ->
  In i [0; 1; 2] ->
  in_span self bars {| note := n; velocity := v;
                       time := (inject_Z step * step_duration self
                                + inject_Z i * step_duration self / 3)%Q;
                       duration := d |}.
Proof.
  intros Hstep Hi. apply in_range in Hstep.
  destruct (grid_slot _ _ _ Hsd Hstep) as [H0 H1].
  unfold in_span, total_duration. cbn [time].
  set (X := (inject_Z step * step_duration self)%Q) in *.
  set (T := (inject_Z (steps_per_bar self * bars) * step_duration self)%Q) in *.
  clearbody X T.
  simpl in Hi. destruct Hi as [<- | [<- | [<- | []]]];
    unfold inject_Z, Qdiv; change (/ 3)%Q with (1 # 3)%Q; split; lra.
Qed.

Lemma swung_in_span (step : Z) (n v : Z) (d : Q) :
  In step (range (steps_per_bar self * bars)) ->
  (step mod 2 =? 1) = true ->
  in_span self bars {| note := n; velocity := v;
                       time := (inject_Z (step - 1) * step_duration self
                                + step_duration self * lofi_swing)%Q;
                       duration := d |}.
Proof.
  intros Hstep Hodd. apply in_range in Hstep. apply Z.eqb_eq in Hodd.
  assert (Hprev : 0 <= step - 1 < steps_per_bar self * bars).
  { split; [|lia]. destruct (Z.eq_dec step 0) as [->|]; [discriminate|]. lia. }
  destruct (grid_slot _ _ _ Hsd Hprev) as [H0 H1].
  unfold in_span, total_duration, lofi_swing. cbn [time].
  set (X := (inject_Z (step - 1) * step_duration self)%Q) in *.
  set (T := (inject_Z (steps_per_bar self * bars) * step_duration self)%Q) in *.
  clearbody X T. split; lra.
Qed.

Ltac span_goals :=
  cbn [fst];
  rewrite ?Forall_app, ?Forall_cons, ?Forall_nil; repeat split;
  try assumption;
  first [ apply grid_in_span; assumption
        | apply swung_in_span; assumption
        | apply roll_in_span; [assumption | simpl; tauto] ].

Lemma memphis_step_span (complexity : Q) (step : Z) (notes : list NoteEvent) (g : rng) :
  In step (range (steps_per_bar self * bars)) ->
  Forall (in_span self bars) notes ->
  Forall (in_span self bars) (fst (memphis_step self complexity step notes g)).
Proof.
  intros Hstep Hnotes. unfold memphis_step. cbv zeta.
  decide_step; span_goals.
Qed.

Lemma trap_step_span (complexity : Q) (step : Z) (notes : list NoteEvent) (g : rng) :
  In step (range (steps_per_bar self * bars)) ->
  Forall (in_span self bars) notes ->
  Forall (in_span self bars) (fst (trap_step self complexity step notes g)).
Proof.
  intros Hstep Hnotes. unfold trap_step. cbv zeta.
  change (range 3) with [0; 1; 2]. cbn [for_each]. unfold roll_hit.
  decide_step; span_goals.
Qed.

Lemma lofi_step_span (step : Z) (notes : list NoteEvent) (g : rng) :
  In step (range (steps_per_bar self * bars)) ->
  Forall (in_span self bars) notes ->
  Forall (in_span self bars) (fst (lofi_step self lofi_swing step notes g)).
Proof.
  intros Hstep Hnotes. unfold lofi_step. cbv zeta.
  destruct (step mod 2 =? 1) eqn:Hodd;
    destruct (is_in _ [0; 8]), (is_in _ [4; 12]), (_ mod 2 =? 0); hits; span_goals.
Qed.

Lemma boom_bap_step_span (step : Z) (notes : list NoteEvent) (g : rng) :
  In step (range (steps_per_bar self * bars)) ->
  Forall (in_span self bars) notes ->
  Forall (in_span self bars) (fst (boom_bap_step self step notes g)).
Proof.
  intros Hstep Hnotes. unfold boom_bap_step. cbv zeta.
  decide_step; span_goals.
Qed.

Lemma basic_step_span (step : Z) (notes : list NoteEvent) (g : rng) :
  In step (range (steps_per_bar self * bars)) ->
  Forall (in_span self bars) notes ->
  Forall (in_span self bars) (fst (basic_step self step notes g)).
Proof.
  intros Hstep Hnotes. unfold basic_step, append_fixed. cbv zeta.
  decide_step; span_goals.
Qed.

(** Every event of a drum pattern starts inside the span of the pattern. *)
Lemma drum_pattern_in_span (style : string) (complexity : Q) (g : rng) :
  Forall (in_span self bars) (fst (create_drum_pattern self style bars complexity g)).
Proof.
  rewrite create_drum_pattern_style.
  destruct (style_of style);
    (apply (for_each_invariant (Forall (in_span self bars))); [|constructor]);
    intros step notes g0 Hstep Hnotes.
  - apply memphis_step_span; assumption.
  - apply trap_step_span; assumption.
  - apply lofi_step_span; assumption.
  - apply boom_bap_step_span; assumption.
  - apply basic_step_span; assumption.
Qed.

End Span.

(** ** Event count and duration of a drum pattern *)

Section DrumPattern.
Import PatternBuilder PatternSpec.

(** Two runs of the memphis style on the same inputs, one where every
    optional hit fires and one where none does: 21 events and 12 events. *)
Lemma C1_counterexample :
  __init__ 140 16 = Ok builder_140 /\
  length (fst (create_drum_pattern builder_140 "memphis" 1 0.5 always_low)) = 21%nat /\
  length (fst (create_drum_pattern builder_140 "memphis" 1 0.5 always_high)) = 12%nat.
Proof. repeat split; vm_compute; reflexivity. Qed.

(** The same for the trap style at the complexity of the drill template. *)
Example trap_rolls_change_the_count :
  length (fst (create_drum_pattern builder_140 "trap" 1 0.8 always_low)) = 18%nat /\
  length (fst (create_drum_pattern builder_140 "trap" 1 0.8 always_high)) = 12%nat.
Proof. split; vm_compute; reflexivity. Qed.

(** C1, amended. For every style, bar count, tempo and complexity the rules
    of the style fix the hits of the pattern apart from their velocities:
    every run emits, in step order, every mandatory hit and some of the
    optional ones, so that runs differ only in which optional hits fire and
    in the velocities, and the event count lies between the number of
    mandatory hits and that number plus the number of optional hits.  For
    the styles without optional hits (lofi, boom_bap, default, and trap at
    complexity 0.6 or less) two runs agree on every event up to its
    velocity, hence on the event count.  The total duration
    [steps_per_bar * bars * step_duration] of a builder made by the
    constructor is [240 * bars / bpm], and for a positive tempo and a
    positive [steps_per_bar] every event starts inside it. *)
Theorem C1_event_count_and_span
        {rng : Type} `{RandomSource rng}
        (self : PatternBuilder) (style : string) (bars : Z) (complexity : Q) :
  (forall g : rng,
      emits (drum_rules self (style_of style) complexity bars)
            (map hit_of (fst (create_drum_pattern self style bars complexity g)))) /\
  (forall g : rng,
      (length (mandatory (drum_rules self (style_of style) complexity bars))
       <= length (fst (create_drum_pattern self style bars complexity g)) /\
       length (fst (create_drum_pattern self style bars complexity g))
       <= length (mandatory (drum_rules self (style_of style) complexity bars))
          + length (optional (drum_rules self (style_of style) complexity bars)))%nat) /\
  (has_optional_hits (style_of style) complexity = false ->
   forall g1 g2 : rng,
     map hit_of (fst (create_drum_pattern self style bars complexity g1)) =
     map hit_of (fst (create_drum_pattern self style bars complexity g2)) /\
     length (fst (create_drum_pattern self style bars complexity g1)) =
     length (fst (create_drum_pattern self style bars complexity g2))) /\
  (forall bpm spb : Z,
      __init__ bpm spb = Ok self ->
      (total_duration self bars == inject_Z (240 * bars) / inject_Z bpm)%Q /\
      (0 < bpm -> 0 < spb ->
       forall g : rng,
         Forall (in_span self bars)
                (fst (create_drum_pattern self style bars complexity g)))).
Proof.
  split; [|split; [|split]].
  - intros g. apply drum_pattern_emits.
  - intros g.
    pose proof (emits_length _ _ (drum_pattern_emits self style bars complexity g)) as Hl.
    rewrite length_map in Hl. exact Hl.
  - intros Hno g1 g2.
    pose proof (no_optional_rules self _ _ bars Hno) as Hopt.
    pose proof (emits_mandatory _ _ (drum_pattern_emits self style bars complexity g1) Hopt)
      as H1.
    pose proof (emits_mandatory _ _ (drum_pattern_emits self style bars complexity g2) Hopt)
      as H2.
    assert (Heq : map hit_of (fst (create_drum_pattern self style bars complexity g1)) =
                  map hit_of (fst (create_drum_pattern self style bars complexity g2)))
      by congruence.
    split; [exact Heq|].
    rewrite <- (length_map hit_of), Heq. apply length_map.
  - intros bpm spb Hinit. split.
    + apply (init_total_duration bpm spb bars self Hinit).
    + intros Hbpm Hspb g.
      apply drum_pattern_in_span.
      exact (init_step_duration_pos bpm spb self Hinit Hbpm Hspb).
Qed.

Lemma C1_event_count_and_span_witness :
  has_optional_hits (style_of "lofi") 0.4 = false /\
  map hit_of (fst (create_drum_pattern builder_140 "lofi" 2 0.4 always_low)) =
  map hit_of (fst (create_drum_pattern builder_140 "lofi" 2 0.4 always_high)) /\
  __init__ 140 16 = Ok builder_140 /\
  (total_duration builder_140 2 == inject_Z (240 * 2) / inject_Z 140)%Q /\
  Forall (in_span builder_140 2)
         (fst (create_drum_pattern builder_140 "lofi" 2 0.4 always_low)).
Proof.
  pose proof (C1_event_count_and_span builder_140 "lofi" 2 0.4) as (_ & _ & Hsame & Hspan).
  split; [reflexivity|]. split.
  - apply (Hsame eq_refl always_low always_high).
  - split; [reflexivity|]. destruct (Hspan 140 16 eq_refl) as [Htotal Hin].
    split; [exact Htotal|]. apply (Hin eq_refl eq_refl).
Defined.

(** On the 16-step grid a bar has 12 mandatory hits in the memphis, trap and
    lofi styles, 8 in boom_bap and 14 in the default style; memphis has 9
    optional hits a bar, trap 6 above complexity 0.6 and none at 0.6. *)
Example hits_per_bar :
  map (fun style => length (mandatory (drum_rules builder_140 style 0.5 1)))
      [Memphis; Trap; Lofi; BoomBap; Basic] = [12; 12; 12; 8; 14]%nat /\
  length (optional (drum_rules builder_140 Memphis 0.5 1)) = 9%nat /\
  length (optional (drum_rules builder_140 Trap 0.8 1)) = 6%nat /\
  length (optional (drum_rules builder_140 Trap 0.6 1)) = 0%nat.
Proof. repeat split; vm_compute; reflexivity. Qed.

(** The memphis run in which no optional hit fires emits the mandatory hits
    and nothing else; the run in which all fire emits every hit of the
    rules. *)
Example memphis_extremes :
  map hit_of (fst (create_drum_pattern builder_140 "memphis" 1 0.5 always_high)) =
  mandatory (drum_rules builder_140 Memphis 0.5 1) /\
  length (fst (create_drum_pattern builder_140 "memphis" 1 0.5 always_low)) =
  (length (mandatory (drum_rules builder_140 Memphis 0.5 1))
   + length (optional (drum_rules builder_140 Memphis 0.5 1)))%nat.
Proof. split; vm_compute; reflexivity. Qed.

End DrumPattern.

(** ** The lofi style *)

Lemma even_position (spb step : Z) :
  Z.even spb = true -> Z.even (step mod spb) = Z.even step.
Proof.
  intros Hspb. rewrite !Zeven_mod. f_equal.
  apply Z.mod_mod_divide. apply Z.even_spec in Hspb as [k ->].
  exists k. lia.
Qed.

Section Lofi.
Import PatternBuilder PatternSpec.
Context {rng : Type} `{RandomSource rng}.
Variable self : PatternBuilder.
Hypothesis Heven : Z.even (steps_per_bar self) = true.

(** At an odd step the bar position is odd, and nothing is emitted there. *)
Lemma odd_step_is_silent (step : Z) :
  (step mod 2 =? 1) = true ->
  is_in (step mod steps_per_bar self) [0; 8] = false /\
  is_in (step mod steps_per_bar self) [4; 12] = false /\
  ((step mod steps_per_bar self) mod 2 =? 0) = false.
Proof.
  intros Hodd. apply Z.eqb_eq in Hodd.
  assert (Hbp : (step mod steps_per_bar self) mod 2 = 1).
  { rewrite Z.mod_mod_divide; [exact Hodd|].
    apply Z.even_spec in Heven as [k ->]. exists k. lia. }
  repeat split.
  - destruct (is_in _ [0; 8]) eqn:E; [|reflexivity].
    apply is_in_spec in E. simpl in E.
    destruct E as [E | [E | []]]; rewrite <- E in Hbp; discriminate.
  - destruct (is_in _ [4; 12]) eqn:E; [|reflexivity].
    apply is_in_spec in E. simpl in E.
    destruct E as [E | [E | []]]; rewrite <- E in Hbp; discriminate.
  - apply Z.eqb_neq. lia.
Qed.

(** The swing factor has no part in what an iteration appends. *)
Lemma lofi_step_swing (s1 s2 : Q) (step : Z) (notes : list NoteEvent) (g : rng) :
  lofi_step self s1 step notes g = lofi_step self s2 step notes g.
Proof.
  unfold lofi_step.
  destruct (step mod 2 =? 1) eqn:Hodd; [|reflexivity].
  destruct (odd_step_is_silent step Hodd) as (-> & -> & ->). reflexivity.
Qed.

Lemma straight_on_even_step (bars step n v : Z) (d : Q) :
  In step (range (steps_per_bar self * bars)) ->
  (step mod 2 =? 1) = false ->
  on_even_step self bars {| note := n; velocity := v;
                            time := (inject_Z step * step_duration self)%Q;
                            duration := d |}.
Proof.
  intros Hstep Hodd. apply in_range in Hstep. apply Z.eqb_neq in Hodd.
  assert (Hev : Z.even step = true).
  { rewrite Zeven_mod. apply Z.eqb_eq. pose proof (Z.mod_pos_bound step 2). lia. }
  exists step. repeat split; try lia; try exact Hev.
  rewrite even_position by exact Heven. exact Hev.
Qed.

Lemma lofi_step_on_even_step (bars : Z) (swing : Q) (step : Z)
      (notes : list NoteEvent) (g : rng) :
  In step (range (steps_per_bar self * bars)) ->
  Forall (on_even_step self bars) notes ->
  Forall (on_even_step self bars) (fst (lofi_step self swing step notes g)).
Proof.
  intros Hstep Hnotes. unfold lofi_step. cbv zeta.
  destruct (step mod 2 =? 1) eqn:Hodd.
  - destruct (odd_step_is_silent step Hodd) as (-> & -> & ->). exact Hnotes.
  - destruct (is_in _ [0; 8]), (is_in _ [4; 12]), (_ mod 2 =? 0); hits; cbn [fst];
      rewrite ?Forall_app, ?Forall_cons, ?Forall_nil; repeat split;
      try assumption; apply straight_on_even_step; assumption.
Qed.

Lemma lofi_pattern_on_even_steps (bars : Z) (complexity : Q) (g : rng) :
  Forall (on_even_step self bars) (fst (_lofi_pattern self bars complexity g)).
Proof.
  unfold _lofi_pattern.
  apply (for_each_invariant (Forall (on_even_step self bars))); [|constructor].
  intros step notes g0 Hstep Hnotes. apply lofi_step_on_even_step; assumption.
Qed.

Lemma lofi_pattern_any_swing (bars : Z) (complexity swing : Q) (g : rng) :
  for_each (lofi_step self swing) (range (steps_per_bar self * bars)) [] g =
  _lofi_pattern self bars complexity g.
Proof.
  unfold _lofi_pattern. apply for_each_ext. intros step notes g0. apply lofi_step_swing.
Qed.

End Lofi.

Section LofiGrid.
Import PatternBuilder PatternSpec.

(** C10. On a grid with an even number of steps per bar (the program only
    builds the 16-step one), every event of a lofi pattern starts at
    [step * step_duration] for an even step at an even bar position, and the
    loop run with any other swing factor returns the same pattern and
    generator state: the swing never reaches an emitted event. *)
Theorem C10_lofi_events_on_the_straight_grid
        {rng : Type} `{RandomSource rng}
        (bpm spb : Z) (self : PatternBuilder)
        (style : string) (bars : Z) (complexity : Q) (g : rng) :
  __init__ bpm spb = Ok self ->
  Z.even spb = true ->
  style_of style = Lofi ->
  Forall (on_even_step self bars)
         (fst (create_drum_pattern self style bars complexity g)) /\
  (forall swing : Q,
      for_each (lofi_step self swing) (range (steps_per_bar self * bars)) [] g =
      create_drum_pattern self style bars complexity g).
Proof.
  intros Hinit Heven Hstyle.
  destruct (init_fields _ _ _ Hinit) as (_ & _ & Hspb & _).
  rewrite <- Hspb in Heven.
  rewrite create_drum_pattern_style, Hstyle. split.
  - apply lofi_pattern_on_even_steps, Heven.
  - intros swing. apply lofi_pattern_any_swing, Heven.
Qed.

Lemma C10_lofi_events_on_the_straight_grid_witness :
  __init__ 140 16 = Ok builder_140 /\
  Z.even 16 = true /\
  style_of "lofi" = Lofi /\
  Forall (on_even_step builder_140 2)
         (fst (create_drum_pattern builder_140 "lofi" 2 0.4 always_high)).
Proof.
  repeat split; try reflexivity.
  apply (proj1 (C10_lofi_events_on_the_straight_grid
                  140 16 builder_140 "lofi" 2 0.4 always_high
                  eq_refl eq_refl eq_refl)).
Defined.

(** With three steps per bar, which the constructor accepts and no caller
    passes, steps 3 and 5 are odd steps at even bar positions: their events
    start 0.7 of a step after steps 2 and 4 (step duration 2/3 s). *)
Example odd_grid_is_swung :
  __init__ 120 3 = Ok builder_three_steps /\
  map (fun e => Qred (time e))
      (fst (_lofi_pattern builder_three_steps 2 0.5 always_low)) =
  [0; 0; 4 # 3; 9 # 5; 9 # 5; 47 # 15]%Q.
Proof. split; [reflexivity | vm_compute; reflexivity]. Qed.

End LofiGrid.

(** ** The beat generator *)

Section Generator.
Import PatternBuilder MusicGenerator GeneratorSpec.
Context {rng : Type} `{RandomSource rng}.

(** A genre without a template is announced and generated from the trap
    template; the dictionary returned is the one for "trap" with the genre
    as given under ['genre']. *)
Lemma unknown_genre_is_trap (genre : string) (bpm : option Z) (key : string)
      (bars : Z) (include_808 : bool) (g : rng) :
  GENRE_TEMPLATES !! Str.lower genre = None ->
  generate_beat genre bpm key bars include_808 g =
  ([unknown_genre_notice genre],
   map_result (fun r => (with_genre genre (fst r), snd r))
              (snd (generate_beat "trap" bpm key bars include_808 g))).
Proof.
  intros Hunknown.
  assert (Htrap : exists template, GENRE_TEMPLATES !! "trap" = Some template)
    by (eexists; vm_compute; reflexivity).
  destruct Htrap as [template Htrap].
  unfold generate_beat. rewrite Hunknown.
  change (Str.lower "trap") with "trap".
  rewrite Htrap. cbn beta iota zeta. rewrite Htrap. cbn [snd].
  f_equal.
  destruct bpm as [bpm|]; [|destruct (randint _ _ g) as [bpm g']].
  all: destruct (_parse_key key (scale template)) as [root_note scale_type].
  all: destruct (__init__ bpm default_steps_per_bar) as [pb|]; [|reflexivity]; cbn [rbind].
  all: destruct (create_drum_pattern pb _ bars _ _) as [drums g1].
  all: destruct include_808; cbn [rbind map_result]; try reflexivity.
  all: destruct (SCALES !! scale_type) as [intervals|]; [|reflexivity].
  all: destruct (create_808_bassline pb _ intervals bars _ g1) as [[bass g2]|]; reflexivity.
Qed.

Lemma known_genre_prints_nothing (genre : string) (bpm : option Z) (key : string)
      (bars : Z) (include_808 : bool) (g : rng) (template : Template) :
  GENRE_TEMPLATES !! Str.lower genre = Some template ->
  fst (generate_beat genre bpm key bars include_808 g) = [].
Proof. intros Hknown. unfold generate_beat. rewrite Hknown. reflexivity. Qed.

(** C8. For a genre without a template, under the same generator state the
    call returns what the call for "trap" returns: the same exception, or
    the same result bundle and the same generator state; the dictionaries
    differ only in echoing the genre given, and the unknown genre is
    announced on the output. *)
Theorem C8_unknown_genre_generates_as_trap
        (genre : string) (bpm : option Z) (key : string)
        (bars : Z) (include_808 : bool) (g : rng) :
  GENRE_TEMPLATES !! Str.lower genre = None ->
  outcome (snd (generate_beat genre bpm key bars include_808 g)) =
  outcome (snd (generate_beat "trap" bpm key bars include_808 g)) /\
  snd (generate_beat genre bpm key bars include_808 g) =
  map_result (fun r => (with_genre genre (fst r), snd r))
             (snd (generate_beat "trap" bpm key bars include_808 g)) /\
  fst (generate_beat genre bpm key bars include_808 g) = [unknown_genre_notice genre] /\
  fst (generate_beat "trap" bpm key bars include_808 g) = [].
Proof.
  intros Hunknown.
  rewrite (unknown_genre_is_trap genre bpm key bars include_808 g Hunknown).
  cbn [fst snd].
  assert (Htrap : exists template, GENRE_TEMPLATES !! Str.lower "trap" = Some template)
    by (eexists; vm_compute; reflexivity).
  destruct Htrap as [template Htrap].
  split; [|split; [reflexivity|split; [reflexivity|]]].
  - destruct (snd (generate_beat "trap" bpm key bars include_808 g)) as [[b g']|e];
      reflexivity.
  - exact (known_genre_prints_nothing "trap" bpm key bars include_808 g template Htrap).
Qed.

End Generator.

Lemma C8_unknown_genre_generates_as_trap_witness :
  MusicGenerator.GENRE_TEMPLATES !! Str.lower "unknownXYZ" = None /\
  GeneratorSpec.outcome
    (snd (MusicGenerator.generate_beat "unknownXYZ" (Some 140) "Dm" 1 true always_low)) =
  GeneratorSpec.outcome
    (snd (MusicGenerator.generate_beat "trap" (Some 140) "Dm" 1 true always_low)).
Proof.
  split; [vm_compute; reflexivity|].
  apply (proj1 (C8_unknown_genre_generates_as_trap
                  "unknownXYZ" (Some 140) "Dm" 1 true always_low
                  ltac:(vm_compute; reflexivity))).
Defined.

(** * Further properties *)

(** ** What the parser returns *)

Section ParsedCommands.
Import Re ReSpec CommandParser ParserSpec ParsedSpec.

(** *** Texts and their characters *)

Lemma string_of_chars (s : string) : string_of_list_ascii (list_ascii_of_string s) = s.
Proof. apply string_of_list_ascii_of_string. Qed.

Lemma prefix_chars (w : list ascii) (rest : list ascii) :
  String.prefix (string_of_list_ascii w) (string_of_list_ascii (w ++ rest)) = true.
Proof.
  induction w as [|a w IH]; simpl.
  - destruct (string_of_list_ascii rest); reflexivity.
  - destruct (ascii_dec a a) as [_|Hne]; [exact IH | contradiction].
Qed.

Lemma contains_unfold (w s : string) :
  Str.contains w s =
  if String.prefix w s then true
  else match s with
       | EmptyString => false
       | String _ s' => Str.contains w s'
       end.
Proof. destruct s; reflexivity. Qed.

(** A text that holds the characters of [w] somewhere contains [w]. *)
Lemma contains_chars (w pre rest : list ascii) :
  Str.contains (string_of_list_ascii w) (string_of_list_ascii (pre ++ w ++ rest)) = true.
Proof.
  induction pre as [|a pre IH]; rewrite contains_unfold.
  - cbn [app]. rewrite prefix_chars. reflexivity.
  - destruct (String.prefix _ _); [reflexivity|]. cbn [app string_of_list_ascii]. exact IH.
Qed.

Lemma contains_in_text (w : string) (s : string) (pre rest : list ascii) :
  list_ascii_of_string s = pre ++ list_ascii_of_string w ++ rest ->
  Str.contains w s = true.
Proof.
  intros Hs. rewrite <- (string_of_chars s), Hs, <- (string_of_chars w) at 1.
  apply contains_chars.
Qed.

Lemma chars_eq (a b : ascii) : Ascii.eqb a b = true -> b = a.
Proof. intros H. apply Ascii.eqb_eq in H. congruence. Qed.

Ltac split_match :=
  repeat match goal with
         | H : exists _, _ |- _ => destruct H
         | H : _ /\ _ |- _ => destruct H
         | H : _ \/ _ |- _ => destruct H
         end; subst.

(** The stretch pattern only matches in a text that contains "stretch". *)
Lemma stretch_match_contains (s : string) (m : captures) :
  search pat_time_stretch s = Some m -> Str.contains "stretch" s = true.
Proof.
  intros H. unfold pat_time_stretch in H.
  apply search_sound in H as (pre & s0 & s' & Hs & H).
  cbn [matches seq alt lit plus chr digits1 spaces0 spaces1] in H.
  destruct H as (s1 & c1 & Hlit & _).
  split_match.
  repeat match goal with
         | H : Ascii.eqb _ _ = true |- _ => apply chars_eq in H; subst
         end.
  eapply (contains_in_text "stretch" s pre). exact Hs.
Qed.

(** *** Numbers and names the patterns capture *)

Lemma nat_ok_digits (a : ascii) (l : list ascii) :
  digit a = true -> forallb digit l = true ->
  nat_ok (String a (string_of_list_ascii l)).
Proof.
  intros Ha Hl. apply int_digit_text. exists a, l. auto.
Qed.

Ltac inv_search H :=
  apply search_sound in H as (? & ? & ? & _ & H);
  cbn [matches seq alt lit plus chr digits1 spaces0 spaces1] in H;
  split_match.

Ltac read_captures :=
  unfold group_text, group;
  repeat first [rewrite lookup_insert_eq | rewrite lookup_insert_ne by discriminate].

Ltac captured_digits :=
  read_captures; rewrite consumed_cons_app; apply nat_ok_digits; assumption.

Lemma bpm_nat (m : captures) (s : string) :
  search pat_bpm s = Some m -> nat_ok (group_text m 1).
Proof. intros H. unfold pat_bpm in H. inv_search H; captured_digits. Qed.

Lemma bars_nat (m : captures) (s : string) :
  search pat_bars s = Some m -> nat_ok (group_text m 1).
Proof. intros H. unfold pat_bars in H. inv_search H; captured_digits. Qed.

Lemma slice_nat (m : captures) (s : string) :
  search pat_slice s = Some m -> nat_ok (group_text m 1).
Proof. intros H. unfold pat_slice in H. inv_search H; captured_digits. Qed.

Lemma measure_nat (m : captures) (s : string) :
  search pat_measure_position s = Some m -> nat_ok (group_text m 1).
Proof. intros H. unfold pat_measure_position in H. inv_search H; captured_digits. Qed.

Lemma beat_nat (m : captures) (s : string) :
  search pat_beat_position s = Some m -> nat_ok (group_text m 1).
Proof. intros H. unfold pat_beat_position in H. inv_search H; captured_digits. Qed.

Lemma insert_nat (m : captures) (s : string) :
  search pat_insert_position s = Some m ->
  nat_ok (group_text m 1) /\
  (truthy_str (group m 2) = true -> nat_ok (group_text m 2)).
Proof.
  intros H. unfold pat_insert_position in H. inv_search H.
  all: split; [captured_digits|].
  all: unfold truthy_str; read_captures;
    try (rewrite lookup_empty; discriminate); intros _; captured_digits.
Qed.

Ltac name_chars :=
  repeat match goal with
         | H : Ascii.eqb _ _ = true |- _ => apply chars_eq in H; subst
         end.

Lemma consumed_prefix (l s' : list ascii) (t : string) :
  string_of_list_ascii l = t -> consumed (l ++ s') s' = t.
Proof. intros <-. apply consumed_app. Qed.

(** The characters of [s] in front of its suffix [s']. *)
Ltac prefix_of s s' :=
  lazymatch s with
  | s' => constr:(@nil ascii)
  | ?a :: ?t => let l := prefix_of t s' in constr:(a :: l)
  | ?l0 ++ ?t => let l := prefix_of t s' in constr:(l0 ++ l)
  end.

(** Reads the text a group consumed. *)
Ltac consumed_text :=
  match goal with
  | |- context [consumed ?s ?s'] =>
      let l := prefix_of s s' in
      replace (consumed s s') with (string_of_list_ascii l)
        by (rewrite <- (consumed_app l s'); f_equal;
            cbn [app]; rewrite <- ?app_assoc; reflexivity)
  end.

Lemma filter_captures (m : captures) (s : string) :
  search pat_filter s = Some m ->
  In (group_text m 1) filter_kinds /\ nat_ok (group_text m 2).
Proof.
  intros H. unfold pat_filter in H. inv_search H.
  all: split; [|captured_digits].
  all: name_chars; read_captures; consumed_text; simpl; tauto.
Qed.

Lemma digits_acc_nonneg (s : string) :
  forall acc n, Str.digits_acc acc s = Some n -> 0 <= acc -> 0 <= n.
Proof.
  induction s as [|c s IH]; simpl; intros acc n Hn Hacc.
  - injection Hn as <-. exact Hacc.
  - destruct (Str.isdigit c) eqn:Hc; [|discriminate].
    apply (IH _ _ Hn). pose proof (digit_val_nonneg c Hc). lia.
Qed.

(** [float] never returns a negative number on the text the parser gives it. *)
Lemma float_nonneg (t : string) (r : Q) : Str.float t = Ok r -> (0 <= r)%Q.
Proof.
  unfold Str.float. destruct (Str.split_dot t) as [ip rest].
  set (fp := match rest with Some f => f | None => EmptyString end).
  destruct (Str.digits_acc 0 ip) as [i|] eqn:Hi; [|congruence].
  destruct (Str.digits_acc 0 fp) as [f|] eqn:Hf; [|congruence].
  destruct (Nat.eqb _ _); [congruence|].
  intros Hr. injection Hr as <-.
  apply digits_acc_nonneg in Hi, Hf; try lia.
  rewrite Qred_correct.
  apply Qle_trans with (inject_Z i + 0)%Q.
  - rewrite Qplus_0_r. change 0%Q with (inject_Z 0). rewrite <- Zle_Qle. exact Hi.
  - apply Qplus_le_r. unfold Qle. simpl. lia.
Qed.

(** Decides one pattern search and keeps what is known of the numbers read. *)
Ltac parser_case :=
  match goal with
  | |- context [search pat_pitch_shift ?c] =>
      let E := fresh "Epitch" in
      destruct (search pat_pitch_shift c) as [?m|] eqn:E;
      [destruct (pitch_int _ _ E) as [?n ->]|]
  | |- context [search pat_time_stretch ?c] =>
      let E := fresh "Estretch" in
      let m := fresh "m" in
      destruct (search pat_time_stretch c) as [m|] eqn:E;
      [let F := fresh "Efloat" in
       destruct (Str.float (group_text m 1)) as [?rate|?e] eqn:F;
       [apply float_nonneg in F|]|]
  | |- context [search pat_filter ?c] =>
      let E := fresh "Efilter" in
      destruct (search pat_filter c) as [?m|] eqn:E;
      [destruct (filter_captures _ _ E) as [? [?n [-> ?]]]|]
  | |- context [search pat_slice ?c] =>
      let E := fresh "Eslice" in
      destruct (search pat_slice c) as [?m|] eqn:E;
      [destruct (slice_nat _ _ E) as [?n [-> ?]]|]
  | |- context [search pat_insert_position ?c] =>
      let E := fresh "Einsert" in
      let m := fresh "m" in
      let Hbeat := fresh "Hbeat" in
      destruct (search pat_insert_position c) as [m|] eqn:E;
      [destruct (insert_nat _ _ E) as [[?n [-> ?]] Hbeat];
       let T := fresh "Etruthy" in
       destruct (truthy_str (group m 2)) eqn:T;
       [destruct (Hbeat eq_refl) as [?n [-> ?]]|]|]
  | |- context [search pat_measure_position ?c] =>
      let E := fresh "Emeasure" in
      destruct (search pat_measure_position c) as [?m|] eqn:E;
      [destruct (measure_nat _ _ E) as [?n [-> ?]]|]
  | |- context [search pat_beat_position ?c] =>
      let E := fresh "Ebeat" in
      destruct (search pat_beat_position c) as [?m|] eqn:E;
      [destruct (beat_nat _ _ E) as [?n [-> ?]]|]
  | |- context [search pat_bpm ?c] =>
      let E := fresh "Ebpm" in
      destruct (search pat_bpm c) as [?m|] eqn:E;
      [destruct (bpm_nat _ _ E) as [?n [-> ?]]|]
  | |- context [search pat_bars ?c] =>
      let E := fresh "Ebars" in
      destruct (search pat_bars c) as [?m|] eqn:E;
      [destruct (bars_nat _ _ E) as [?n [-> ?]]|]
  | |- context [if negb (truthy_int ?b) then _ else _] =>
      let T := fresh "Eset" in destruct (truthy_int b) eqn:T
  end; cbn [rbind negb].

Lemma sample_in_range (command : string) (r : parsed) :
  _parse_sample_command command = Ok r -> parsed_in_range r.
Proof.
  unfold _parse_sample_command. repeat parser_case; try discriminate.
  all: intros Hr; injection Hr as <-; cbn [parsed_in_range app].
  all: repeat split; try lia; try (intros ? [= <-]; lia); try discriminate.
  all: repeat (apply Forall_cons; split); try apply Forall_nil; cbn [operation_in_range]; auto.
Qed.

Lemma generate_in_range (command : string) (r : parsed) :
  _parse_generate_command command = Ok r -> parsed_in_range r.
Proof.
  unfold _parse_generate_command. repeat parser_case.
  all: intros Hr; injection Hr as <-; cbn [parsed_in_range].
  all: split; try lia; try (intros ? [= <-]; lia); try discriminate.
Qed.

(** X1. Every number of a parsed command is in range: the bar, the beat,
    the tempo, the bar count, a cutoff and a slice count are not negative, a
    stretch rate is not negative, and a filter has one of the three kinds.
    Only the semitones of a pitch shift can be negative. *)
Theorem X1_parsed_numbers_in_range (text : string) (r : parsed) :
  parse text = Ok r -> parsed_in_range r.
Proof.
  intros Hparse.
  destruct (parse_cases text) as [H | [H | H]]; rewrite H in Hparse.
  - exact (sample_in_range _ _ Hparse).
  - exact (generate_in_range _ _ Hparse).
  - injection Hparse as <-. exact I.
Qed.

Lemma X1_parsed_numbers_in_range_witness :
  parse "take a.wav, pitch down 3, stretch by .82, lowpass 200 hz, slice into 8, insert at bar 40 beat 3" =
    Ok (sample_process (Some "a.wav")
                       [pitch_shift (-3); time_stretch (41 # 50);
                        filter "lowpass" 200; slice 8]
                       (Some 40) 3) /\
  parsed_in_range
    (sample_process (Some "a.wav")
                    [pitch_shift (-3); time_stretch (41 # 50);
                     filter "lowpass" 200; slice 8]
                    (Some 40) 3).
Proof.
  split; [vm_compute; reflexivity|].
  apply (X1_parsed_numbers_in_range
           "take a.wav, pitch down 3, stretch by .82, lowpass 200 hz, slice into 8, insert at bar 40 beat 3").
  vm_compute; reflexivity.
Defined.


(** X2. For a text within the digit limit of [int], the only exception
    [parse] raises is the [ValueError] of [float], and only for a sample
    command whose text contains "stretch". *)
Theorem X2_parse_raises_only_on_stretch (text : string) (e : exn) :
  within_digit_limit text ->
  parse text = Raise e ->
  e = ValueError /\
  Str.any_in sample_words (Str.strip (Str.lower text)) = true /\
  Str.contains "stretch" (Str.strip (Str.lower text)) = true.
Proof.
  intros _ Hparse. unfold parse in Hparse.
  destruct (Str.any_in sample_words _) eqn:Hsample.
  - pose proof (sample_returns (Str.strip (Str.lower text))) as Hs.
    rewrite Hparse in Hs. destruct Hs as (-> & m & Hm & _).
    repeat split. exact (stretch_match_contains _ _ Hm).
  - destruct (Str.any_in create_words _); [|discriminate].
    destruct (generate_returns (Str.strip (Str.lower text)))
      as (g & bp & k & n & i & Hg & _).
    rewrite Hg in Hparse. discriminate.
Qed.

Lemma X2_parse_raises_only_on_stretch_witness :
  parse "take stretch ." = Raise ValueError /\
  Str.contains "stretch" (Str.strip (Str.lower "take stretch .")) = true.
Proof.
  split; [vm_compute; reflexivity|].
  apply (X2_parse_raises_only_on_stretch "take stretch ." ValueError).
  - unfold within_digit_limit. simpl. lia.
  - vm_compute; reflexivity.
Defined.

(** X3. The pitch operation of a command that says "pitch down" never raises
    the pitch: its semitones are zero or negative. *)
Theorem X3_pitch_down_never_raises_pitch
        (text : string) (p : option string) (ops : list operation)
        (b : option Z) (bt n : Z) :
  parse text = Ok (sample_process p ops b bt) ->
  Str.contains "pitch down" (Str.strip (Str.lower text)) = true ->
  In (pitch_shift n) ops ->
  n <= 0.
Proof.
  intros Hparse Hdown.
  destruct (parse_cases text) as [H | [H | H]]; rewrite H in Hparse.
  - revert Hparse. unfold _parse_sample_command. rewrite Hdown.
    repeat parser_case; try discriminate.
    all: intros Hr; injection Hr as <- <- <- <-; cbn [app In].
    all: intros Hin; repeat destruct Hin as [Hin | Hin]; try discriminate; try contradiction.
    all: injection Hin as <-; cbn [andb]; destruct (0 <? _) eqn:Hpos; lia.
  - destruct (generate_returns (Str.strip (Str.lower text)))
      as (g & bp & k & n' & i & Hg & _).
    rewrite Hg in Hparse. discriminate.
  - discriminate.
Qed.

Lemma X3_pitch_down_never_raises_pitch_witness :
  parse "take kick.wav, pitch down 3 semitones" =
    Ok (sample_process (Some "kick.wav") [pitch_shift (-3)] None 1) /\
  -3 <= 0.
Proof.
  split; [vm_compute; reflexivity|].
  apply (X3_pitch_down_never_raises_pitch
           "take kick.wav, pitch down 3 semitones" (Some "kick.wav")
           [pitch_shift (-3)] None 1 (-3)).
  - vm_compute; reflexivity.
  - vm_compute; reflexivity.
  - left; reflexivity.
Defined.

(** *** The sample path *)

Lemma string_of_app (l1 l2 : list ascii) :
  string_of_list_ascii (l1 ++ l2) =
  (string_of_list_ascii l1 ++ string_of_list_ascii l2)%string.
Proof. induction l1 as [|a l1 IH]; simpl; [reflexivity|]. rewrite IH. reflexivity. Qed.

Lemma lower_char_not_upper (c : ascii) : Str.isupper (Str.lower_char c) = false.
Proof. destruct c as [[] [] [] [] [] [] [] []]; reflexivity. Qed.

Lemma lower_is_lower (s : string) :
  forallb (fun a => negb (Str.isupper a)) (list_ascii_of_string (Str.lower s)) = true.
Proof.
  induction s as [|c s IH]; simpl; [reflexivity|].
  rewrite lower_char_not_upper. exact IH.
Qed.

Lemma lower_fixes (l : list ascii) :
  forallb (fun a => negb (Str.isupper a)) l = true ->
  Str.lower (string_of_list_ascii l) = string_of_list_ascii l.
Proof.
  induction l as [|a l IH]; simpl; [reflexivity|]. intros H.
  apply andb_true_iff in H as [Ha Hl].
  unfold Str.lower in *. simpl. rewrite (IH Hl).
  unfold Str.lower_char. apply negb_true_iff in Ha. rewrite Ha. reflexivity.
Qed.

(** What the sample pattern captures: a non-empty stem, a dot and an audio
    extension, made of characters of the text. *)
Lemma sample_path_captured (s : string) (m : captures) (P : ascii -> bool) :
  search pat_sample_process s = Some m ->
  forallb P (list_ascii_of_string s) = true ->
  exists (stem : list ascii) (ext : string),
    group m 1 = Some (string_of_list_ascii stem ++ "." ++ ext)%string /\
    stem <> [] /\ In ext audio_extensions /\
    forallb P (stem ++ list_ascii_of_string ("." ++ ext)) = true.
Proof.
  intros H Hall. unfold pat_sample_process in H.
  apply search_sound in H as (pre & s0 & s' & Hs & H).
  rewrite Hs in Hall. clear Hs.
  cbn [matches seq alt lit plus chr digits1 spaces0 spaces1] in H.
  split_match; name_chars.
  all: unfold group; rewrite lookup_insert_eq; consumed_text.
  all: match goal with
       | |- context [string_of_list_ascii (?a :: ?l ++ ?e)] =>
           exists (a :: l), (string_of_list_ascii (tl e))
       end.
  all: cbn [tl string_of_list_ascii].
  all: split; [change (?a :: ?l ++ ?e) with ((a :: l) ++ e);
               rewrite string_of_app; reflexivity|].
  all: split; [discriminate|].
  all: split; [simpl; tauto|].
  all: repeat (rewrite forallb_app in Hall; cbn [forallb] in Hall).
  all: repeat match goal with
              | H : (_ && _)%bool = true |- _ => apply andb_true_iff in H as [? ?]
              end.
  all: cbn [list_ascii_of_string append app forallb]; rewrite forallb_app; cbn [forallb].
  all: repeat (apply andb_true_iff; split); assumption || reflexivity.
Qed.

Lemma sample_path_field (command : string) (p : option string)
      (ops : list operation) (b : option Z) (bt : Z) :
  _parse_sample_command command = Ok (sample_process p ops b bt) ->
  p = match search pat_sample_process command with
      | Some m => group m 1
      | None => None
      end.
Proof.
  unfold _parse_sample_command. repeat parser_case; try discriminate.
  all: intros Hr; injection Hr as <- <- <- <-; reflexivity.
Qed.

(** X4. The sample path of a parsed command is in lower case and ends in a
    dot and one of the four extensions, after at least one character. *)
Theorem X4_sample_path_lower_case_with_extension
        (text path : string) (ops : list operation) (b : option Z) (bt : Z) :
  parse text = Ok (sample_process (Some path) ops b bt) ->
  (exists stem ext : string,
      path = (stem ++ "." ++ ext)%string /\ stem <> EmptyString /\
      In ext audio_extensions) /\
  Str.lower path = path.
Proof.
  intros Hparse.
  destruct (parse_cases text) as [H | [H | H]]; rewrite H in Hparse.
  - apply sample_path_field in Hparse.
    destruct (search pat_sample_process _) as [m|] eqn:Hm; [|discriminate].
    destruct (sample_path_captured _ m (fun a => negb (Str.isupper a)) Hm)
      as (stem & ext & Hg & Hstem & Hext & Hlow).
    { apply strip_keeps, lower_is_lower. }
    rewrite Hg in Hparse. injection Hparse as ->. split.
    + exists (string_of_list_ascii stem), ext. repeat split; [|exact Hext].
      destruct stem; [contradiction | discriminate].
    + rewrite <- (string_of_chars ("." ++ ext)), <- string_of_app.
      apply lower_fixes, Hlow.
  - destruct (generate_returns (Str.strip (Str.lower text)))
      as (g & bp & k & n' & i & Hg & _).
    rewrite Hg in Hparse. discriminate.
  - discriminate.
Qed.

Lemma X4_sample_path_lower_case_with_extension_witness :
  parse "Take Loops/Kick.WAV" = Ok (sample_process (Some "loops/kick.wav") [] None 1) /\
  Str.lower "loops/kick.wav" = "loops/kick.wav".
Proof.
  split; [vm_compute; reflexivity|].
  apply (X4_sample_path_lower_case_with_extension
           "Take Loops/Kick.WAV" "loops/kick.wav" [] None 1).
  vm_compute; reflexivity.
Defined.

(** *** The genre *)

Lemma prefix_split (w s : string) :
  String.prefix w s = true ->
  exists rest, list_ascii_of_string s = list_ascii_of_string w ++ rest.
Proof.
  revert s. induction w as [|a w IH]; intros s H.
  - exists (list_ascii_of_string s). reflexivity.
  - destruct s as [|b s]; [discriminate|]. simpl in H.
    destruct (ascii_dec a b) as [->|]; [|discriminate].
    destruct (IH s H) as [rest Hrest]. exists rest. simpl. rewrite Hrest. reflexivity.
Qed.

(** A text contains [w] exactly when its characters hold those of [w]. *)
Lemma contains_split (w s : string) :
  Str.contains w s = true ->
  exists pre rest, list_ascii_of_string s = pre ++ list_ascii_of_string w ++ rest.
Proof.
  induction s as [|b s IH]; rewrite contains_unfold; intros H.
  - destruct (String.prefix w "") eqn:Hp; [|discriminate].
    destruct (prefix_split _ _ Hp) as [rest Hrest]. exists [], rest. exact Hrest.
  - destruct (String.prefix w (String b s)) eqn:Hp.
    + destruct (prefix_split _ _ Hp) as [rest Hrest]. exists [], rest. exact Hrest.
    + destruct (IH H) as (pre & rest & Hs). exists (b :: pre), rest.
      simpl. rewrite Hs. reflexivity.
Qed.

Lemma search_list_later (r : regex) (x : list ascii) :
  is_Some (match_at r x) -> forall pre, is_Some (search_list r (pre ++ x)).
Proof.
  intros Hx. assert (Hhere : forall y, is_Some (match_at r y) -> is_Some (search_list r y)).
  { intros y [c Hc]. destruct y; simpl; rewrite Hc; eauto. }
  induction pre as [|a pre IH]; [exact (Hhere _ Hx)|].
  cbn [app search_list]. destruct (match_at r (a :: pre ++ x)); eauto.
Qed.

(** The genre pattern matches wherever one of the four genre words starts. *)
Lemma genre_word_matches (w : string) (rest : list ascii) :
  In w genre_words -> is_Some (match_at pat_genre (list_ascii_of_string w ++ rest)).
Proof.
  intros Hw. simpl in Hw.
  destruct Hw as [<- | [<- | [<- | [<- | []]]]]; vm_compute; eauto.
Qed.

Lemma genre_word_found (w s : string) :
  In w genre_words -> Str.contains w s = true -> is_Some (search pat_genre s).
Proof.
  intros Hw Hc. destruct (contains_split _ _ Hc) as (pre & rest & Hs).
  unfold search. rewrite Hs. apply search_list_later, genre_word_matches, Hw.
Qed.

Lemma chars_of_string (l : list ascii) :
  list_ascii_of_string (string_of_list_ascii l) = l.
Proof. apply list_ascii_of_string_of_list_ascii. Qed.

(** The description the looser pattern captures is a part of the text. *)
Lemma description_in_text (s : string) (m : captures) :
  search pat_create_beat s = Some m ->
  exists pre rest,
    list_ascii_of_string s = pre ++ list_ascii_of_string (group_text m 1) ++ rest.
Proof.
  intros H. unfold pat_create_beat in H.
  apply search_sound in H as (pre & s0 & s' & Hs & H).
  cbn [matches seq alt lit plus chr digits1 spaces0 spaces1] in H.
  split_match; name_chars.
  all: read_captures; rewrite consumed_cons_app;
    change (String ?a (string_of_list_ascii ?l)) with (string_of_list_ascii (a :: l));
    rewrite chars_of_string.
  all: match goal with
       | Hs : list_ascii_of_string _ = ?pre0 ++ ?big,
         Hd : dot ?d = true, Hl : forallb dot ?l = true |- _ =>
           match big with
           | context [d :: l ++ ?x] =>
               let front := prefix_of big (d :: l ++ x) in
               exists (pre0 ++ front), x; rewrite Hs;
               repeat (progress cbn [app] || rewrite <- app_assoc); reflexivity
           end
       end.
Qed.

Lemma contains_part (w s : string) (part : string) (pre rest : list ascii) :
  list_ascii_of_string s = pre ++ list_ascii_of_string part ++ rest ->
  Str.contains w part = true -> Str.contains w s = true.
Proof.
  intros Hs Hw. destruct (contains_split _ _ Hw) as (p & r & Hpart).
  apply (contains_in_text w s (pre ++ p) (r ++ rest)).
  rewrite Hs, Hpart, <- !app_assoc. reflexivity.
Qed.

(** When the genre pattern finds nothing in the text, the description of a
    "create a ... beat" phrase holds no genre word either. *)
Lemma description_without_genre (command : string) (bm : captures) :
  search pat_genre command = None ->
  search pat_create_beat command = Some bm ->
  first_genre_in (group_text bm 1) = None.
Proof.
  intros Hnone Hbm. unfold first_genre_in.
  destruct (find _ _) as [g|] eqn:Hfind; [|reflexivity].
  apply find_some in Hfind as [Hin Hc].
  destruct (description_in_text _ _ Hbm) as (pre & rest & Hs).
  pose proof (contains_part g command _ pre rest Hs Hc) as Hcommand.
  destruct (genre_word_found g command Hin Hcommand) as [m Hm].
  congruence.
Qed.

Lemma map_chars_app (f : ascii -> ascii) (s1 s2 : string) :
  Str.map_chars f (s1 ++ s2)%string = (Str.map_chars f s1 ++ Str.map_chars f s2)%string.
Proof. induction s1 as [|a s1 IH]; simpl; [reflexivity|]. rewrite IH. reflexivity. Qed.

(** What the genre pattern captures, spaces replaced. *)
Lemma genre_captured (s : string) (m : captures) :
  search pat_genre s = Some m ->
  genre_spelling (Str.replace_char " "%char "_"%char (group_text m 1)) /\
  group_text m 1 <> EmptyString.
Proof.
  intros H. unfold pat_genre in H. inv_search H; name_chars.
  all: read_captures; consumed_text.
  all: split; [|discriminate].
  1-3, 5: left; simpl; tauto.
  right.
  match goal with
  | |- context [string_of_list_ascii (_ :: _ :: _ :: _ :: ?ws ++ _)] =>
      exists (Str.replace_char " "%char "_"%char (string_of_list_ascii ws))
  end.
  cbn [string_of_list_ascii]. rewrite string_of_app.
  unfold Str.replace_char. cbn [Str.map_chars]. rewrite map_chars_app. reflexivity.
Qed.

Lemma generate_genre (command : string) (genre : string) (bpm : option Z)
      (key : string) (bars : Z) (include_808 : bool) :
  _parse_generate_command command = Ok (generate_beat genre bpm key bars include_808) ->
  genre_spelling genre /\ (search pat_genre command = None -> genre = "trap").
Proof.
  unfold _parse_generate_command.
  destruct (search pat_genre command) as [m|] eqn:Hm.
  - destruct (genre_captured _ _ Hm) as [Hsp Hne].
    assert (Htruthy : truthy_str (Some (Str.replace_char " "%char "_"%char (group_text m 1)))
                      = true).
    { simpl. destruct (group_text m 1) as [|a t]; [contradiction | reflexivity]. }
    rewrite Htruthy. cbn [default].
    repeat parser_case.
    all: intros Hr; injection Hr as <- <- <- <- <-; split; [exact Hsp | discriminate].
  - assert (Hnone : (if Str.contains "beat" command
                     then match search pat_create_beat command with
                          | Some bm => first_genre_in (group_text bm 1)
                          | None => None
                          end
                     else None) = None).
    { destruct (Str.contains "beat" command); [|reflexivity].
      destruct (search pat_create_beat command) as [bm|] eqn:Hbm; [|reflexivity].
      exact (description_without_genre _ _ Hm Hbm). }
    rewrite Hnone. cbn [truthy_str].
    repeat parser_case.
    all: intros Hr; injection Hr as <- <- <- <- <-; split; [|reflexivity].
    all: left; simpl; tauto.
Qed.

(** X5. The genre of a generation command is "memphis", "trap", "lofi",
    "drill" or "boom...bap" (what separated the two words kept, spaces as
    underscores); when the genre pattern does not match the text, it is
    "trap": the description between "create" and "beat" never decides. *)
Theorem X5_genre_vocabulary
        (text genre key : string) (bpm : option Z) (bars : Z) (include_808 : bool) :
  parse text = Ok (generate_beat genre bpm key bars include_808) ->
  genre_spelling genre /\
  (search pat_genre (Str.strip (Str.lower text)) = None -> genre = "trap").
Proof.
  intros Hparse.
  destruct (parse_cases text) as [H | [H | H]]; rewrite H in Hparse.
  - pose proof (sample_returns (Str.strip (Str.lower text))) as Hs.
    rewrite Hparse in Hs. destruct Hs as (p' & ops' & b' & bt' & Heq & _).
    discriminate.
  - exact (generate_genre _ _ _ _ _ _ Hparse).
  - discriminate.
Qed.

Lemma X5_genre_vocabulary_witness :
  parse "create a jazzy beat" = Ok (generate_beat "trap" None "C" 4 false) /\
  genre_spelling "trap".
Proof.
  split; [vm_compute; reflexivity|].
  apply (X5_genre_vocabulary "create a jazzy beat" "trap" "C" None 4 false).
  vm_compute; reflexivity.
Defined.

(** *** Words a pattern needs *)

Ltac starts_with l w :=
  lazymatch w with
  | nil => idtac
  | ?c :: ?w' => lazymatch l with c :: ?l' => starts_with l' w' end
  end.

(** The part of [l] in front of the first place where the characters [w]
    stand. *)
Ltac before_word l w :=
  match l with
  | _ => let _ := constr:(ltac:(starts_with l w; exact I) : True) in constr:(@nil ascii)
  | ?a :: ?t => let p := before_word t w in constr:(a :: p)
  | ?l0 ++ ?t => let p := before_word t w in constr:(l0 ++ p)
  end.

Ltac has_word :=
  match goal with
  | Hs : list_ascii_of_string ?s = ?pre ++ ?l |- Str.contains ?w ?s = true =>
      let wl := eval cbv in (list_ascii_of_string w) in
      let p := before_word l wl in
      eapply (contains_in_text w s (pre ++ p));
      rewrite Hs; cbn [list_ascii_of_string];
      repeat (progress cbn [app] || rewrite <- app_assoc); reflexivity
  end.

Ltac inv_search_in H :=
  let Hs := fresh "Hs" in
  apply search_sound in H as (? & ? & ? & Hs & H);
  cbn [matches seq alt lit plus chr digits1 spaces0 spaces1] in H;
  split_match; name_chars.

Lemma insert_needs (s : string) (m : captures) :
  search pat_insert_position s = Some m -> Str.contains "insert" s = true.
Proof. intros H. unfold pat_insert_position in H. inv_search_in H; has_word. Qed.

Lemma measure_needs (s : string) (m : captures) :
  search pat_measure_position s = Some m ->
  Str.contains "measure" s = true \/ Str.contains "bar" s = true.
Proof.
  intros H. unfold pat_measure_position in H.
  inv_search_in H; first [left; has_word | right; has_word].
Qed.

Lemma bpm_needs (s : string) (m : captures) :
  search pat_bpm s = Some m -> Str.contains "bpm" s = true.
Proof. intros H. unfold pat_bpm in H. inv_search_in H; has_word. Qed.

Lemma bars_needs (s : string) (m : captures) :
  search pat_bars s = Some m -> Str.contains "bar" s = true.
Proof. intros H. unfold pat_bars in H. inv_search_in H; has_word. Qed.

Lemma with_808_needs (s : string) (m : captures) :
  search pat_with_808 s = Some m -> Str.contains "808" s = true.
Proof. intros H. unfold pat_with_808 in H. inv_search_in H; has_word. Qed.

Lemma pitch_needs (s : string) (m : captures) :
  search pat_pitch_shift s = Some m -> Str.contains "pitch" s = true.
Proof. intros H. unfold pat_pitch_shift in H. inv_search_in H; has_word. Qed.

Lemma filter_needs (s : string) (m : captures) :
  search pat_filter s = Some m -> Str.contains "pass" s = true.
Proof. intros H. unfold pat_filter in H. inv_search_in H; has_word. Qed.

Lemma slice_needs (s : string) (m : captures) :
  search pat_slice s = Some m ->
  Str.contains "slice" s = true \/ Str.contains "chop" s = true.
Proof.
  intros H. unfold pat_slice in H.
  inv_search_in H; first [left; has_word | right; has_word].
Qed.

Lemma sample_needs (s : string) (m : captures) :
  search pat_sample_process s = Some m -> Str.contains "." s = true.
Proof. intros H. unfold pat_sample_process in H. inv_search_in H; has_word. Qed.

Ltac words_needed :=
  repeat match goal with
         | E : search pat_sample_process _ = Some _ |- _ => apply sample_needs in E
         | E : search pat_pitch_shift _ = Some _ |- _ => apply pitch_needs in E
         | E : search pat_time_stretch _ = Some _ |- _ => apply stretch_match_contains in E
         | E : search pat_filter _ = Some _ |- _ => apply filter_needs in E
         | E : search pat_slice _ = Some _ |- _ => apply slice_needs in E as [E | E]
         | E : search pat_insert_position _ = Some _ |- _ => apply insert_needs in E
         | E : search pat_measure_position _ = Some _ |- _ =>
             apply measure_needs in E as [E | E]
         | E : search pat_bpm _ = Some _ |- _ => apply bpm_needs in E
         | E : search pat_bars _ = Some _ |- _ => apply bars_needs in E
         | E : search pat_with_808 _ = Some _ |- _ => apply with_808_needs in E
         end.

Ltac none_mentioned H :=
  cbn [Str.any_in existsb] in H; rewrite ?orb_false_iff in H;
  repeat match goal with
         | H' : _ /\ _ |- _ => destruct H'
         end.

Lemma sample_defaults (command : string) (p : option string) (ops : list operation)
      (b : option Z) (bt : Z) :
  _parse_sample_command command = Ok (sample_process p ops b bt) ->
  sample_defaults_of command p ops b bt.
Proof.
  unfold _parse_sample_command, sample_defaults_of.
  destruct (search pat_sample_process command) as [m0|] eqn:Esample.
  all: repeat search_case; try discriminate.
  all: intros Hr; injection Hr as <- <- <- <-.
  all: words_needed.
  all: split; [|split]; [intros Hdot | intros Hops | intros Hpos].
  all: try none_mentioned Hops; try none_mentioned Hpos.
  all: first [reflexivity | congruence | split; reflexivity].
Qed.

Lemma generate_defaults (command genre key : string) (bpm : option Z) (bars : Z)
      (include_808 : bool) :
  _parse_generate_command command = Ok (generate_beat genre bpm key bars include_808) ->
  generate_defaults_of command bpm bars include_808.
Proof.
  unfold _parse_generate_command, generate_defaults_of.
  destruct (search pat_with_808 command) as [m0|] eqn:E808.
  all: repeat search_case; try discriminate.
  all: intros Hr; injection Hr as _ <- _ <- <-.
  all: words_needed.
  all: split; [|split]; intros Hno.
  all: first [reflexivity | congruence].
Qed.

(** X6. What the text does not mention keeps its default: without a dot
    there is no sample path; without "pitch", "stretch", "pass", "slice"
    and "chop" there is no operation; without "insert", "measure" and
    "bar" there is no insert bar and the beat is 1; without "bpm" there is
    no tempo, without "bar" there are 4 bars, and without "808" there is
    no bass line.  A command that is not understood is returned as its
    text, in lower case and stripped. *)
Theorem X6_unmentioned_fields_keep_defaults (text : string) (r : parsed) :
  parse text = Ok r -> defaults_kept (Str.strip (Str.lower text)) r.
Proof.
  intros Hparse.
  destruct (parse_cases text) as [H | [H | H]]; rewrite H in Hparse.
  - pose proof (sample_returns (Str.strip (Str.lower text))) as Hs.
    rewrite Hparse in Hs. destruct Hs as (p & ops & b & bt & -> & _).
    exact (sample_defaults _ _ _ _ _ Hparse).
  - destruct (generate_returns (Str.strip (Str.lower text)))
      as (g & bp & k & n & i & Hg & _).
    rewrite Hg in Hparse. injection Hparse as <-.
    exact (generate_defaults _ _ _ _ _ _ Hg).
  - injection Hparse as <-. reflexivity.
Qed.

Lemma X6_unmentioned_fields_keep_defaults_witness :
  parse "Make a LOFI beat" = Ok (generate_beat "lofi" None "C" 4 false) /\
  defaults_kept "make a lofi beat" (generate_beat "lofi" None "C" 4 false).
Proof.
  split; [vm_compute; reflexivity|].
  apply (X6_unmentioned_fields_keep_defaults "Make a LOFI beat").
  vm_compute; reflexivity.
Defined.

End ParsedCommands.

(** ** Draws that stay in range *)

Lemma tape_in_range : DrawSpec.in_range_draws Tape.
Proof.
  intros n g Hn. unfold randbelow; simpl.
  destruct (tape_next g) as [x t]. simpl.
  destruct (n <=? 0) eqn:E; [apply Z.leb_le in E; lia|].
  apply Z.mod_pos_bound. exact Hn.
Qed.

Section Draws.
Import DrawSpec.
Context {rng : Type} `{RandomSource rng}.
Hypothesis Hdraws : in_range_draws rng.

Lemma randint_in_range (lo hi : Z) (g : rng) :
  lo <= hi -> lo <= fst (randint lo hi g) <= hi.
Proof.
  intros Hle. unfold randint.
  pose proof (Hdraws (hi - lo + 1) g ltac:(lia)) as Hb.
  destruct (randbelow (hi - lo + 1) g) as [n g']. simpl in *. lia.
Qed.

Lemma choice_returns (seq : list Z) (g : rng) :
  seq <> [] -> exists x g', choice seq g = Ok (x, g') /\ In x seq.
Proof.
  intros Hne. unfold choice. destruct seq as [|a seq]; [contradiction|].
  pose proof (Hdraws (Z.of_nat (length (a :: seq))) g
                     ltac:(simpl length; lia)) as Hb.
  destruct (randbelow _ g) as [i g']. simpl fst in Hb.
  destruct (nth_error (a :: seq) (Z.to_nat i)) as [x|] eqn:Hx.
  - exists x, g'. split; [reflexivity|]. eapply nth_error_In, Hx.
  - apply nth_error_None in Hx. lia.
Qed.

End Draws.

(** ** Notes and velocities of a drum pattern *)

Section DrumHits.
Import PatternBuilder PatternSpec DrawSpec.
Context {rng : Type} `{RandomSource rng}.
Hypothesis Hdraws : in_range_draws rng.
Variable self : PatternBuilder.

Lemma drawn_hit (drum : string) (lo hi : Z) (t d : Q) (g : rng) :
  In (DRUM_NOTES !!! drum) [36; 38; 42] -> 40 <= lo -> lo <= hi -> hi <= 127 ->
  drum_hit {| note := DRUM_NOTES !!! drum; velocity := fst (randint lo hi g);
              time := t; duration := d |}.
Proof.
  intros Hn Hlo Hle Hhi. split; [exact Hn|]. cbn [velocity].
  pose proof (randint_in_range Hdraws lo hi g Hle). lia.
Qed.

Ltac drum_goals :=
  cbn [fst];
  rewrite ?Forall_app, ?Forall_cons, ?Forall_nil; repeat split;
  try assumption;
  first [ apply drawn_hit; [vm_compute; tauto | lia | lia | lia]
        | vm_compute; tauto
        | cbn [velocity]; lia ].

Lemma memphis_step_drums (complexity : Q) (step : Z) (notes : list NoteEvent) (g : rng) :
  Forall drum_hit notes -> Forall drum_hit (fst (memphis_step self complexity step notes g)).
Proof. intros Hnotes. unfold memphis_step. cbv zeta. decide_step; drum_goals. Qed.

Lemma trap_step_drums (complexity : Q) (step : Z) (notes : list NoteEvent) (g : rng) :
  Forall drum_hit notes -> Forall drum_hit (fst (trap_step self complexity step notes g)).
Proof.
  intros Hnotes. unfold trap_step. cbv zeta.
  change (range 3) with [0; 1; 2]. cbn [for_each]. unfold roll_hit.
  decide_step; drum_goals.
Qed.

Lemma lofi_step_drums (swing : Q) (step : Z) (notes : list NoteEvent) (g : rng) :
  Forall drum_hit notes -> Forall drum_hit (fst (lofi_step self swing step notes g)).
Proof. intros Hnotes. unfold lofi_step. cbv zeta. decide_step; drum_goals. Qed.

Lemma boom_bap_step_drums (step : Z) (notes : list NoteEvent) (g : rng) :
  Forall drum_hit notes -> Forall drum_hit (fst (boom_bap_step self step notes g)).
Proof. intros Hnotes. unfold boom_bap_step. cbv zeta. decide_step; drum_goals. Qed.

Lemma basic_step_drums (step : Z) (notes : list NoteEvent) (g : rng) :
  Forall drum_hit notes -> Forall drum_hit (fst (basic_step self step notes g)).
Proof.
  intros Hnotes. unfold basic_step, append_fixed. cbv zeta. decide_step.
  all: cbn [fst]; rewrite ?Forall_app, ?Forall_cons, ?Forall_nil; repeat split;
    try assumption; try (vm_compute; tauto); cbn [velocity]; lia.
Qed.

Lemma drum_pattern_hits (style : string) (bars : Z) (complexity : Q) (g : rng) :
  Forall drum_hit (fst (create_drum_pattern self style bars complexity g)).
Proof.
  rewrite create_drum_pattern_style.
  destruct (style_of style);
    (apply (for_each_invariant (Forall drum_hit)); [|constructor]);
    intros step notes g0 _ Hnotes.
  - apply memphis_step_drums; assumption.
  - apply trap_step_drums; assumption.
  - apply lofi_step_drums; assumption.
  - apply boom_bap_step_drums; assumption.
  - apply basic_step_drums; assumption.
Qed.

End DrumHits.

(** ** Time order of a drum pattern *)

Section IndexedLoops.
Import PatternBuilder.
Context {rng : Type} `{RandomSource rng}.

(** An invariant that follows the counter of a loop over [range(n)]. *)
Lemma for_each_from_invariant (I : Z -> list NoteEvent -> Prop)
      (body : Z -> list NoteEvent -> rng -> list NoteEvent * rng) (len start : nat) :
  (forall step notes g,
      (start <= Z.to_nat step < start + len)%nat -> 0 <= step ->
      I step notes -> I (step + 1) (fst (body step notes g))) ->
  forall notes g,
    I (Z.of_nat start) notes ->
    I (Z.of_nat (start + len))
      (fst (for_each body (map Z.of_nat (seq start len)) notes g)).
Proof.
  revert start. induction len as [|len IH]; intros start Hbody notes g Hn; simpl.
  - rewrite Nat.add_0_r. exact Hn.
  - destruct (body (Z.of_nat start) notes g) as [notes' g'] eqn:Hb.
    replace (start + S len)%nat with (S start + len)%nat by lia.
    apply IH.
    + intros step n g0 Hstep H0. apply Hbody; [lia | exact H0].
    + replace (Z.of_nat (S start)) with (Z.of_nat start + 1) by lia.
      change notes' with (fst (notes', g')). rewrite <- Hb.
      apply Hbody; [lia | lia | exact Hn].
Qed.

Lemma for_each_range_invariant (I : Z -> list NoteEvent -> Prop)
      (body : Z -> list NoteEvent -> rng -> list NoteEvent * rng) (n : Z) :
  (forall step notes g,
      0 <= step < n -> I step notes -> I (step + 1) (fst (body step notes g))) ->
  forall notes g,
    I 0 notes -> I (Z.max 0 n) (fst (for_each body (range n) notes g)).
Proof.
  intros Hbody notes g Hn. unfold range.
  replace (Z.max 0 n) with (Z.of_nat (0 + Z.to_nat n)) by lia.
  apply (for_each_from_invariant I body (Z.to_nat n) 0); [|exact Hn].
  intros step n0 g0 Hstep H0. apply Hbody. lia.
Qed.

End IndexedLoops.

Section TimeOrder.
Import PatternBuilder PatternSpec DrawSpec.
Context {rng : Type} `{RandomSource rng}.
Variable self : PatternBuilder.
Hypothesis Hsd : (0 < step_duration self)%Q.

Lemma ordered_snoc (b b' : Q) (notes : list NoteEvent) (e : NoteEvent) :
  ordered_below b notes -> (b <= time e)%Q -> (time e <= b')%Q ->
  ordered_below b' (notes ++ [e]).
Proof.
  intros [Hs Hb] Hlo Hhi. split.
  - clear Hhi. induction notes as [|x notes IH]; simpl.
    + constructor; constructor.
    + inversion Hs as [|? ? Hs' Hx]; subst. inversion Hb as [|? ? Hxb Hb']; subst.
      constructor; [apply IH; assumption|].
      rewrite Forall_app. split; [exact Hx|].
      constructor; [|constructor]. unfold time_le. eapply Qle_trans; eassumption.
  - rewrite Forall_app. split.
    + eapply Forall_impl; [exact Hb|]. intros x Hx. cbn beta in *.
      eapply Qle_trans; [exact Hx|]. eapply Qle_trans; eassumption.
    + constructor; [exact Hhi | constructor].
Qed.

Lemma ordered_weaken (b b' : Q) (notes : list NoteEvent) :
  ordered_below b notes -> (b <= b')%Q -> ordered_below b' notes.
Proof.
  intros [Hs Hb] Hle. split; [exact Hs|].
  eapply Forall_impl; [exact Hb|]. intros x Hx. cbn beta in *.
  eapply Qle_trans; eassumption.
Qed.

Ltac times :=
  unfold step_bound, lofi_swing; cbn [time];
  unfold Z.sub; rewrite ?inject_Z_plus;
  change (Z.opp (Zpos xH)) with (Zneg xH);
  unfold inject_Z, Qdiv; change (/ 3)%Q with (1 # 3)%Q;
  repeat match goal with
         | |- context [(?z # 1)%Q] =>
             is_var z; let X := fresh "X" in set (X := (z # 1)%Q); clearbody X
         end;
  let sd := fresh "sd" in
  pose proof Hsd as Hsd'; set (sd := step_duration self) in *; clearbody sd; lra.

Ltac ordered :=
  lazymatch goal with
  | |- ordered_below _ (_ ++ [_]) =>
      eapply ordered_snoc; [ordered | times | first [apply Qle_refl | times]]
  | |- ordered_below _ _ => eassumption
  end.

Ltac ordered_step :=
  cbn [fst];
  lazymatch goal with
  | |- ordered_below _ (_ ++ [_]) =>
      eapply ordered_snoc; [ordered | times | times]
  | |- ordered_below _ _ => eapply ordered_weaken; [eassumption | times]
  end.

Lemma memphis_step_ordered (complexity : Q) (step : Z) (notes : list NoteEvent) (g : rng) :
  ordered_below (step_bound self step) notes ->
  ordered_below (step_bound self (step + 1)) (fst (memphis_step self complexity step notes g)).
Proof. intros Hnotes. unfold memphis_step. cbv zeta. decide_step; ordered_step. Qed.

Lemma trap_step_ordered (complexity : Q) (step : Z) (notes : list NoteEvent) (g : rng) :
  ordered_below (step_bound self step) notes ->
  ordered_below (step_bound self (step + 1)) (fst (trap_step self complexity step notes g)).
Proof.
  intros Hnotes. unfold trap_step. cbv zeta.
  change (range 3) with [0; 1; 2]. cbn [for_each]. unfold roll_hit.
  decide_step; ordered_step.
Qed.

Lemma lofi_step_ordered (step : Z) (notes : list NoteEvent) (g : rng) :
  ordered_below (step_bound self step) notes ->
  ordered_below (step_bound self (step + 1)) (fst (lofi_step self lofi_swing step notes g)).
Proof. intros Hnotes. unfold lofi_step. cbv zeta. decide_step; ordered_step. Qed.

Lemma boom_bap_step_ordered (step : Z) (notes : list NoteEvent) (g : rng) :
  ordered_below (step_bound self step) notes ->
  ordered_below (step_bound self (step + 1)) (fst (boom_bap_step self step notes g)).
Proof. intros Hnotes. unfold boom_bap_step. cbv zeta. decide_step; ordered_step. Qed.

Lemma basic_step_ordered (step : Z) (notes : list NoteEvent) (g : rng) :
  ordered_below (step_bound self step) notes ->
  ordered_below (step_bound self (step + 1)) (fst (basic_step self step notes g)).
Proof.
  intros Hnotes. unfold basic_step, append_fixed. cbv zeta. decide_step; ordered_step.
Qed.

Lemma drum_pattern_ordered (style : string) (bars : Z) (complexity : Q) (g : rng) :
  StronglySorted time_le (fst (create_drum_pattern self style bars complexity g)).
Proof.
  rewrite create_drum_pattern_style.
  destruct (style_of style);
    (eapply proj1;
     apply (for_each_range_invariant (fun step => ordered_below (step_bound self step)));
     [|split; constructor]);
    intros step notes g0 _ Hnotes.
  - apply memphis_step_ordered; assumption.
  - apply trap_step_ordered; assumption.
  - apply lofi_step_ordered; assumption.
  - apply boom_bap_step_ordered; assumption.
  - apply basic_step_ordered; assumption.
Qed.

End TimeOrder.

Section SortedInput.
Import PatternBuilder PatternSpec.

Lemma insert_in_front (x : NoteEvent) (l : list NoteEvent) :
  Forall (time_le x) l -> insert_by_time x l = x :: l.
Proof.
  intros Hx. destruct l as [|y l]; [reflexivity|]. simpl.
  inversion Hx as [|? ? Hxy _]; subst. unfold time_le in Hxy.
  destruct (Qlt_bool (time y) (time x)) eqn:Hlt; [|reflexivity].
  apply Qlt_bool_true in Hlt. exfalso. apply (Qlt_not_le _ _ Hlt), Hxy.
Qed.

(** Sorting leaves a list that is in time order as it is. *)
Lemma sort_sorted (l : list NoteEvent) :
  StronglySorted time_le l -> sort_by_time l = l.
Proof.
  induction 1 as [|x l Hs IH Hx]; simpl; [reflexivity|].
  rewrite IH. apply insert_in_front, Hx.
Qed.

End SortedInput.

(** ** The bass line *)

Section BassLine.
Import PatternBuilder PatternSpec DrawSpec.
Context {rng : Type} `{RandomSource rng}.
Variable self : PatternBuilder.

(** A loop whose body returns and adds [k] events that keep [P] returns,
    adds [k] events for each element, and keeps [P]. *)
Lemma for_each_raising_adds {A : Type} (P : list NoteEvent -> Prop) (k : nat)
      (body : A -> list NoteEvent -> rng -> result (list NoteEvent * rng))
      (xs : list A) :
  (forall x notes g,
      exists notes' g',
        body x notes g = Ok (notes', g') /\
        length notes' = (length notes + k)%nat /\ (P notes -> P notes')) ->
  forall notes g,
    exists notes' g',
      for_each_raising body xs notes g = Ok (notes', g') /\
      length notes' = (length notes + k * length xs)%nat /\ (P notes -> P notes').
Proof.
  intros Hbody. induction xs as [|x xs IH]; intros notes g; simpl.
  - exists notes, g. repeat split; [lia | auto].
  - destruct (Hbody x notes g) as (n1 & g1 & -> & Hlen1 & HP1). cbn [rbind fst snd].
    destruct (IH n1 g1) as (n2 & g2 & -> & Hlen2 & HP2).
    exists n2, g2. repeat split; [lia | auto].
Qed.

Lemma firstn_three_of_four {A : Type} (x : A) (l : list A) :
  In x (firstn 3 l) -> In x (firstn 4 l).
Proof.
  destruct l as [|a [|b [|c [|d l]]]]; simpl; tauto.
Qed.

Lemma range_length (n : Z) : length (range n) = Z.to_nat n.
Proof. unfold range. rewrite length_map, length_seq. reflexivity. Qed.

Lemma evens_below (k : nat) :
  length (List.filter Z.even (map Z.of_nat (seq 0 k))) = Nat.div2 (S k).
Proof.
  assert (Hboth : forall k,
             length (List.filter Z.even (map Z.of_nat (seq 0 k))) = Nat.div2 (S k) /\
             length (List.filter Z.even (map Z.of_nat (seq 0 (S k)))) = Nat.div2 (S (S k))).
  { clear k. induction k as [|k [IH1 IH2]]; [split; reflexivity|].
    split; [exact IH2|].
    rewrite seq_S, map_app, List.filter_app, length_app, IH2. cbn [seq map List.filter Nat.add].
    replace (Z.even (Z.of_nat (S k))) with (negb (Z.even (Z.of_nat k)))
      by (rewrite Nat2Z.inj_succ, Z.even_succ, <- Z.negb_even; reflexivity).
    rewrite seq_S, map_app, List.filter_app, length_app in IH2. cbn [seq map List.filter Nat.add] in IH2.
    destruct (Z.even (Z.of_nat k)); cbn [negb length] in *; simpl Nat.div2 in *; lia. }
  apply Hboth.
Qed.

Lemma range_by_two_length (n : Z) :
  length (range_by_two n) = Z.to_nat ((Z.max 0 n + 1) / 2).
Proof.
  unfold range_by_two, range. rewrite evens_below.
  rewrite Nat.div2_div. 
  replace (Z.max 0 n) with (Z.of_nat (Z.to_nat n)) by lia.
  change 2 with (Z.of_nat 2). change 1 with (Z.of_nat 1).
  rewrite <- Nat2Z.inj_add, <- Nat2Z.inj_div, Nat2Z.id. f_equal. lia.
Qed.

Hypothesis Hdraws : in_range_draws rng.

Ltac added_note :=
  repeat split;
  [ rewrite length_app; simpl; lia
  | intros HP; rewrite Forall_app; split; [exact HP|];
    constructor; [|constructor]; split; cbn [note velocity] ].

Lemma simple_hit_adds (root_note : Z) (scale : list Z) (bar beat : Z)
      (notes : list NoteEvent) (g : rng) :
  exists notes' g',
    simple_hit self root_note bar beat notes g = Ok (notes', g') /\
    length notes' = (length notes + 1)%nat /\
    (Forall (bass_hit root_note scale) notes -> Forall (bass_hit root_note scale) notes').
Proof.
  unfold simple_hit. cbv zeta.
  pose proof (randint_in_range Hdraws 100 120 g ltac:(lia)) as Hv.
  destruct (randint 100 120 g) as [v g']. cbn [fst] in Hv.
  eexists _, _. split; [reflexivity|]. added_note; [left; reflexivity | lia].
Qed.

Lemma bouncy_hit_adds (root_note : Z) (scale : list Z) (bar pos : Z)
      (notes : list NoteEvent) (g : rng) :
  scale <> [] ->
  exists notes' g',
    bouncy_hit self root_note scale bar pos notes g = Ok (notes', g') /\
    length notes' = (length notes + 1)%nat /\
    (Forall (bass_hit root_note scale) notes -> Forall (bass_hit root_note scale) notes').
Proof.
  intros Hscale. unfold bouncy_hit. cbv zeta.
  destruct (choice_returns Hdraws (firstn 4 scale) g) as (i & g1 & -> & Hi).
  { destruct scale; [contradiction | discriminate]. }
  cbn [rbind fst snd].
  pose proof (randint_in_range Hdraws 90 110 g1 ltac:(lia)) as Hv.
  destruct (randint 90 110 g1) as [v g']. cbn [fst] in Hv.
  eexists _, _. split; [reflexivity|]. added_note; [right; eauto | lia].
Qed.

Lemma rolling_hit_adds (root_note : Z) (scale : list Z) (step : Z)
      (notes : list NoteEvent) (g : rng) :
  scale <> [] ->
  exists notes' g',
    rolling_hit self root_note scale step notes g = Ok (notes', g') /\
    length notes' = (length notes + 1)%nat /\
    (Forall (bass_hit root_note scale) notes -> Forall (bass_hit root_note scale) notes').
Proof.
  intros Hscale. unfold rolling_hit. cbv zeta.
  destruct (choice_returns Hdraws (firstn 3 scale) g) as (i & g1 & -> & Hi).
  { destruct scale; [contradiction | discriminate]. }
  cbn [rbind fst snd].
  pose proof (randint_in_range Hdraws 80 100 g1 ltac:(lia)) as Hv.
  destruct (randint 80 100 g1) as [v g']. cbn [fst] in Hv.
  eexists _, _. split; [reflexivity|].
  added_note; [right; exists i; split; [apply firstn_three_of_four, Hi | reflexivity] | lia].
Qed.

Lemma bassline_returns (root_note : Z) (scale : list Z) (bars : Z)
      (pattern_type : string) (g : rng) :
  scale <> [] \/ pattern_type = "simple" ->
  exists notes g',
    create_808_bassline self root_note scale bars pattern_type g = Ok (notes, g') /\
    length notes = bass_count self pattern_type bars /\
    Forall (bass_hit root_note scale) notes.
Proof.
  intros Hscale. unfold create_808_bassline, bass_count. cbv zeta.
  destruct (String.eqb pattern_type "simple") eqn:Esimple.
  - destruct (for_each_raising_adds (Forall (bass_hit root_note scale)) 2
                (fun bar => for_each_raising (simple_hit self root_note bar) [0; 8])
                (range bars)) with (notes := @nil NoteEvent) (g := g)
      as (notes & g' & Hok & Hlen & HP).
    { intros bar n0 g0.
      apply (for_each_raising_adds (Forall (bass_hit root_note scale)) 1).
      intros beat n1 g1. apply simple_hit_adds. }
    exists notes, g'. rewrite range_length in Hlen. simpl in Hlen.
    repeat split; [exact Hok | lia | apply HP; constructor].
  - assert (Hne : scale <> []).
    { destruct Hscale as [Hne | ->]; [exact Hne | discriminate]. }
    destruct (String.eqb pattern_type "bouncy").
    + destruct (for_each_raising_adds (Forall (bass_hit root_note scale)) 6
                  (fun bar => for_each_raising (bouncy_hit self root_note scale bar)
                                               [0; 3; 6; 8; 11; 14])
                  (range bars)) with (notes := @nil NoteEvent) (g := g)
        as (notes & g' & Hok & Hlen & HP).
      { intros bar n0 g0.
        apply (for_each_raising_adds (Forall (bass_hit root_note scale)) 1).
        intros pos n1 g1. apply bouncy_hit_adds, Hne. }
      exists notes, g'. rewrite range_length in Hlen. simpl in Hlen.
      repeat split; [exact Hok | lia | apply HP; constructor].
    + destruct (String.eqb pattern_type "rolling").
      * destruct (for_each_raising_adds (Forall (bass_hit root_note scale)) 1
                    (rolling_hit self root_note scale)
                    (range_by_two (steps_per_bar self * bars)))
          with (notes := @nil NoteEvent) (g := g)
          as (notes & g' & Hok & Hlen & HP).
        { intros step n0 g0. apply rolling_hit_adds, Hne. }
        exists notes, g'. rewrite range_by_two_length in Hlen. simpl in Hlen.
        repeat split; [exact Hok | lia | apply HP; constructor].
      * exists [], g. repeat split. constructor.
Qed.

End BassLine.

(** ** The key *)

Section KeyRanges.
Import MusicGenerator.

Lemma note_map_range (root : string) (n : Z) :
  note_map !! root = Some n -> 60 <= n <= 71.
Proof.
  intros Hn. unfold note_map in Hn.
  apply elem_of_list_to_map_2 in Hn.
  repeat (apply elem_of_cons in Hn as [Hn | Hn]; [injection Hn as -> ->; lia|]).
  apply elem_of_nil in Hn. contradiction.
Qed.

Lemma parse_key_root_range (key default_scale : string) :
  60 <= fst (_parse_key key default_scale) <= 71.
Proof.
  rewrite _parse_key_root.
  destruct (note_map !! root_str key) as [n|] eqn:Hn; simpl; [|lia].
  exact (note_map_range _ _ Hn).
Qed.

Lemma parse_key_scale (key default_scale : string) :
  snd (_parse_key key default_scale) =
  if Str.endswith "m" (Str.strip key) then "minor"
  else if String.eqb default_scale "minor" then "major" else default_scale.
Proof.
  unfold _parse_key. destruct (Str.endswith "m" (Str.strip key)); reflexivity.
Qed.

End KeyRanges.

(** ** What [generate_beat] returns *)

Section GeneratedBeat.
Import PatternBuilder PatternSpec MusicGenerator GeneratorSpec DrawSpec BeatSpec.
Context {rng : Type} `{RandomSource rng}.

Lemma template_listed (name : string) (template : Template) :
  GENRE_TEMPLATES !! name = Some template ->
  In name ["memphis"; "trap"; "lofi"; "boom_bap"; "drill"].
Proof.
  intros Hn. unfold GENRE_TEMPLATES in Hn.
  apply elem_of_list_to_map_2 in Hn.
  repeat (apply elem_of_cons in Hn as [Hn | Hn]; [injection Hn as -> _; simpl; tauto|]).
  apply elem_of_nil in Hn. contradiction.
Qed.

Ltac each_template H :=
  let Hin := fresh "Hin" in
  pose proof (template_listed _ _ H) as Hin; simpl in Hin;
  repeat destruct Hin as [<- | Hin]; try contradiction;
  vm_compute in H; injection H as <-.

(** The tempo range of a template lies between 70 and 180. *)
Lemma template_tempo (name : string) (template : Template) :
  GENRE_TEMPLATES !! name = Some template ->
  70 <= fst (tempo_range template) /\
  fst (tempo_range template) <= snd (tempo_range template) /\
  snd (tempo_range template) <= 180.
Proof. intros Hn. each_template Hn; simpl; lia. Qed.

Lemma template_scale (name : string) (template : Template) :
  GENRE_TEMPLATES !! name = Some template ->
  In (scale template) ["minor"; "pentatonic_minor"; "harmonic_minor"].
Proof. intros Hn. each_template Hn; simpl; tauto. Qed.

(** Every scale has an interval, and its first four are between 0 and 7. *)
Lemma scale_intervals (name : string) (intervals : list Z) :
  SCALES !! name = Some intervals ->
  intervals <> [] /\ Forall (fun i => 0 <= i <= 7) (firstn 4 intervals).
Proof.
  intros Hn. unfold SCALES in Hn.
  apply elem_of_list_to_map_2 in Hn.
  repeat (apply elem_of_cons in Hn as [Hn | Hn];
          [injection Hn as _ ->; split; [discriminate|];
           simpl; repeat constructor; lia|]).
  apply elem_of_nil in Hn. contradiction.
Qed.

(** The scale a key resolves to under a template has intervals. *)
Lemma resolved_scale_known (name key : string) (template : Template) :
  GENRE_TEMPLATES !! name = Some template ->
  exists intervals, SCALES !! snd (_parse_key key (scale template)) = Some intervals.
Proof.
  intros Hn. rewrite parse_key_scale.
  pose proof (template_scale _ _ Hn) as Hs. simpl in Hs.
  destruct (Str.endswith "m" (Str.strip key)); [eexists; vm_compute; reflexivity|].
  repeat destruct Hs as [<- | Hs]; try contradiction; eexists; vm_compute; reflexivity.
Qed.

Lemma template_for_known (genre : string) :
  exists name template,
    GENRE_TEMPLATES !! name = Some template /\ template_for genre = Some template.
Proof.
  unfold template_for.
  destruct (GENRE_TEMPLATES !! Str.lower genre) as [template|] eqn:Hk.
  - exists (Str.lower genre), template. auto.
  - exists "trap". eexists. split; vm_compute; reflexivity.
Qed.

(** The call with the template looked up. *)
Lemma generate_beat_template (genre : string) (bpm : option Z) (key : string)
      (bars : Z) (include_808 : bool) (g : rng) (template : Template) :
  template_for genre = Some template ->
  snd (generate_beat genre bpm key bars include_808 g) =
  let bg := match bpm with
            | None => randint (fst (tempo_range template)) (snd (tempo_range template)) g
            | Some bpm => (bpm, g)
            end in
  let* pattern_builder := __init__ (fst bg) default_steps_per_bar in
  let dg := create_drum_pattern pattern_builder (drum_style template) bars
                                (complexity template) (snd bg) in
  let* bass :=
    if include_808 then
      match SCALES !! snd (_parse_key key (scale template)) with
      | None => Raise KeyError
      | Some scale_intervals =>
          create_808_bassline pattern_builder
                              (fst (_parse_key key (scale template)) - 12)
                              scale_intervals bars (bass_pattern template) (snd dg)
      end
    else Ok ([], snd dg) in
  Ok ({| beat_genre := genre;
         beat_bpm := fst bg;
         beat_key := key;
         beat_bars := bars;
         beat_drum_pattern := fst dg;
         beat_bass_pattern := fst bass;
         beat_combined_pattern := combine_patterns [fst dg; fst bass];
         beat_scale := snd (_parse_key key (scale template));
         beat_root_note := fst (_parse_key key (scale template)) |}, snd bass).
Proof.
  unfold template_for, generate_beat.
  destruct (GENRE_TEMPLATES !! Str.lower genre) as [t|] eqn:Hk; intros Ht.
  - injection Ht as ->. cbn beta iota zeta. rewrite Hk. cbn [snd].
    destruct bpm as [n|]; [|destruct (randint _ _ g) as [n g0]]; cbn [fst snd].
    all: destruct (_parse_key key (scale template)) as [root st]; cbn [fst snd].
    all: destruct (__init__ n default_steps_per_bar) as [pb|]; [|reflexivity]; cbn [rbind].
    all: destruct (create_drum_pattern pb _ bars _ _) as [drums g1]; cbn [fst snd].
    all: destruct include_808; cbn [rbind]; try reflexivity.
    all: destruct (SCALES !! st) as [intervals|]; [|reflexivity].
    all: destruct (create_808_bassline pb _ intervals bars _ g1) as [[bass g2]|]; reflexivity.
  - cbn beta iota zeta. rewrite Ht. cbn [snd].
    destruct bpm as [n|]; [|destruct (randint _ _ g) as [n g0]]; cbn [fst snd].
    all: destruct (_parse_key key (scale template)) as [root st]; cbn [fst snd].
    all: destruct (__init__ n default_steps_per_bar) as [pb|]; [|reflexivity]; cbn [rbind].
    all: destruct (create_drum_pattern pb _ bars _ _) as [drums g1]; cbn [fst snd].
    all: destruct include_808; cbn [rbind]; try reflexivity.
    all: destruct (SCALES !! st) as [intervals|]; [|reflexivity].
    all: destruct (create_808_bassline pb _ intervals bars _ g1) as [[bass g2]|]; reflexivity.
Qed.

Hypothesis Hdraws : in_range_draws rng.

Ltac beat_fields :=
  cbn [beat_bpm beat_root_note beat_scale beat_drum_pattern beat_bass_pattern
       beat_combined_pattern fst snd];
  split; [destruct bpm; assumption|];
  split; [reflexivity|]; split; [reflexivity|]; split; [assumption|];
  split; [reflexivity|]; split; [|reflexivity].

Lemma generate_beat_returns (genre : string) (bpm : option Z) (key : string)
      (bars : Z) (include_808 : bool) (g : rng) (template : Template) :
  template_for genre = Some template -> bpm <> Some 0 ->
  exists b g' pb g1,
    snd (generate_beat genre bpm key bars include_808 g) = Ok (b, g') /\
    match bpm with
    | Some n => beat_bpm b = n
    | None => fst (tempo_range template) <= beat_bpm b <= snd (tempo_range template)
    end /\
    beat_root_note b = fst (_parse_key key (scale template)) /\
    beat_scale b = snd (_parse_key key (scale template)) /\
    __init__ (beat_bpm b) default_steps_per_bar = Ok pb /\
    beat_drum_pattern b =
      fst (create_drum_pattern pb (drum_style template) bars (complexity template) g1) /\
    (if include_808
     then exists intervals,
         SCALES !! beat_scale b = Some intervals /\
         length (beat_bass_pattern b) = bass_count pb (bass_pattern template) bars /\
         Forall (bass_hit (beat_root_note b - 12) intervals) (beat_bass_pattern b)
     else beat_bass_pattern b = []) /\
    beat_combined_pattern b =
      combine_patterns [beat_drum_pattern b; beat_bass_pattern b].
Proof.
  intros Ht Hbpm. rewrite (generate_beat_template _ _ _ _ _ _ _ Ht). cbv zeta.
  destruct (template_for_known genre) as (name & t' & Hname & Ht').
  rewrite Ht in Ht'. injection Ht' as <-.
  destruct (template_tempo _ _ Hname) as (Hlo & Hle & Hhi).
  set (bg := match bpm with
             | Some n => (n, g)
             | None => randint (fst (tempo_range template)) (snd (tempo_range template)) g
             end).
  assert (Hn : match bpm with
               | Some n => fst bg = n
               | None => fst (tempo_range template) <= fst bg <= snd (tempo_range template)
               end).
  { subst bg. destruct bpm as [n|]; [reflexivity|]. apply randint_in_range; assumption. }
  assert (Hnz : fst bg <> 0).
  { destruct bpm as [n|]; [rewrite Hn; congruence | lia]. }
  clearbody bg. destruct bg as [n g0]. cbn [fst snd] in *.
  unfold __init__ at 1. apply Z.eqb_neq in Hnz. rewrite Hnz.
  change (default_steps_per_bar =? 0) with false. cbn [rbind].
  set (pb := {| bpm := n; steps_per_bar := default_steps_per_bar;
                step_duration := _ |}).
  assert (Hinit : __init__ n default_steps_per_bar = Ok pb).
  { unfold __init__. rewrite Hnz. reflexivity. }
  clearbody pb.
  destruct include_808.
  - destruct (resolved_scale_known name key template Hname) as [intervals Hscale].
    rewrite Hscale.
    destruct (scale_intervals _ _ Hscale) as [Hne _].
    destruct (bassline_returns pb Hdraws (fst (_parse_key key (scale template)) - 12)
                               intervals bars (bass_pattern template)
                               (snd (create_drum_pattern pb (drum_style template) bars
                                                         (complexity template) g0))
                               (or_introl Hne))
      as (bass & g2 & -> & Hlen & Hhits).
    cbn [rbind fst snd].
    eexists _, _, pb, g0. split; [reflexivity|]. beat_fields.
    exists intervals. auto.
  - cbn [rbind fst snd].
    eexists _, _, pb, g0. split; [reflexivity|]. beat_fields. reflexivity.
Qed.

End GeneratedBeat.

(** ** Drum patterns, bass lines and generated beats *)

Section GeneratorProperties.
Import CommandParser PatternBuilder PatternSpec MusicGenerator GeneratorSpec DrawSpec BeatSpec.

(** X7. With draws in range, every event of a drum pattern, of any style, is
    a kick (36), a snare (38) or a closed hi-hat (42) with a velocity from
    40 to 127. *)
Theorem X7_drum_hits_in_midi_range
        {rng : Type} `{RandomSource rng}
        (self : PatternBuilder) (style : string) (bars : Z) (complexity : Q) (g : rng) :
  in_range_draws rng ->
  Forall drum_hit (fst (create_drum_pattern self style bars complexity g)).
Proof. intros Hdraws. apply drum_pattern_hits, Hdraws. Qed.

Lemma X7_drum_hits_in_midi_range_witness :
  in_range_draws Tape /\
  Forall drum_hit (fst (create_drum_pattern builder_140 "memphis" 2 0.7 always_low)).
Proof.
  split; [exact tape_in_range|].
  apply (X7_drum_hits_in_midi_range builder_140 "memphis" 2 0.7 always_low tape_in_range).
Defined.

(** X8. A drum pattern of a builder with a positive tempo and step count is
    already in time order, for every style and every draw, so combining it
    with nothing returns it unchanged. *)
Theorem X8_drum_pattern_in_time_order
        {rng : Type} `{RandomSource rng}
        (self : PatternBuilder) (bpm spb : Z)
        (style : string) (bars : Z) (complexity : Q) (g : rng) :
  __init__ bpm spb = Ok self -> 0 < bpm -> 0 < spb ->
  StronglySorted time_le (fst (create_drum_pattern self style bars complexity g)) /\
  combine_patterns [fst (create_drum_pattern self style bars complexity g); []] =
  fst (create_drum_pattern self style bars complexity g).
Proof.
  intros Hinit Hbpm Hspb.
  pose proof (drum_pattern_ordered
                self (init_step_duration_pos bpm spb self Hinit Hbpm Hspb)
                style bars complexity g) as Hsorted.
  split; [exact Hsorted|].
  unfold combine_patterns. cbn [fold_left app]. rewrite app_nil_r.
  apply sort_sorted, Hsorted.
Qed.

Lemma X8_drum_pattern_in_time_order_witness :
  __init__ 140 16 = Ok builder_140 /\
  combine_patterns [fst (create_drum_pattern builder_140 "trap" 2 0.8 always_low); []] =
  fst (create_drum_pattern builder_140 "trap" 2 0.8 always_low).
Proof.
  split; [reflexivity|].
  apply (X8_drum_pattern_in_time_order builder_140 140 16 "trap" 2 0.8 always_low);
    [reflexivity | lia | lia].
Defined.

(** X9. With draws in range and a scale that is not empty, the bass line is
    returned without an exception; it has two notes per bar (simple), six
    per bar (bouncy), one for every second step (rolling) and none for
    another pattern type; every note is the root or the root raised by one
    of the first four intervals of the scale, at a velocity from 80 to 120. *)
Theorem X9_bass_line_count_and_notes
        {rng : Type} `{RandomSource rng}
        (self : PatternBuilder) (root_note : Z) (scale : list Z) (bars : Z)
        (pattern_type : string) (g : rng) :
  in_range_draws rng -> scale <> [] ->
  exists notes g',
    create_808_bassline self root_note scale bars pattern_type g = Ok (notes, g') /\
    length notes = bass_count self pattern_type bars /\
    Forall (bass_hit root_note scale) notes.
Proof. intros Hdraws Hscale. apply bassline_returns; auto. Qed.

Lemma X9_bass_line_count_and_notes_witness :
  exists notes g',
    create_808_bassline builder_140 48 [0; 2; 3; 5; 7; 8; 10] 2 "rolling" always_low
    = Ok (notes, g') /\
    length notes = 16%nat /\
    Forall (bass_hit 48 [0; 2; 3; 5; 7; 8; 10]) notes.
Proof.
  apply (X9_bass_line_count_and_notes builder_140 48 [0; 2; 3; 5; 7; 8; 10] 2
                                      "rolling" always_low tape_in_range).
  discriminate.
Defined.

Lemma range_starts_at_zero (n : Z) : 0 < n -> exists rest, range n = 0 :: rest.
Proof.
  intros Hn. unfold range.
  destruct (Z.to_nat n) as [|k] eqn:Hk; [lia|]. simpl. eauto.
Qed.

(** X10. With an empty scale the bouncy pattern raises [IndexError] as soon
    as there is a bar, and the rolling pattern as soon as there is a step:
    [random.choice] has nothing to choose from. *)
Theorem X10_bass_line_of_an_empty_scale
        {rng : Type} `{RandomSource rng}
        (self : PatternBuilder) (root_note : Z) (bars : Z) (g : rng) :
  (0 < bars ->
   create_808_bassline self root_note [] bars "bouncy" g = Raise IndexError) /\
  (0 < steps_per_bar self * bars ->
   create_808_bassline self root_note [] bars "rolling" g = Raise IndexError).
Proof.
  split; intros Hpos; unfold create_808_bassline; cbv zeta.
  - change (String.eqb "bouncy" "simple") with false.
    change (String.eqb "bouncy" "bouncy") with true. cbv iota.
    destruct (range_starts_at_zero bars Hpos) as [rest ->]. reflexivity.
  - change (String.eqb "rolling" "simple") with false.
    change (String.eqb "rolling" "bouncy") with false.
    change (String.eqb "rolling" "rolling") with true. cbv iota.
    unfold range_by_two.
    destruct (range_starts_at_zero _ Hpos) as [rest ->]. reflexivity.
Qed.

Lemma X10_bass_line_of_an_empty_scale_witness :
  create_808_bassline builder_140 36 [] 1 "bouncy" always_low = Raise IndexError /\
  create_808_bassline builder_140 36 [] 1 "rolling" always_low = Raise IndexError.
Proof.
  split.
  - apply (proj1 (X10_bass_line_of_an_empty_scale builder_140 36 1 always_low)). lia.
  - apply (proj2 (X10_bass_line_of_an_empty_scale builder_140 36 1 always_low)).
    reflexivity.
Defined.

(** X11. The root a key resolves to is a pitch from 60 to 71.  The scale is
    "minor" exactly when the key, stripped, ends in "m"; otherwise it is
    "major" for the default "minor" and the default for any other. *)
Theorem X11_key_root_and_scale (key default_scale : string) :
  60 <= fst (_parse_key key default_scale) <= 71 /\
  (snd (_parse_key key default_scale) = "minor" <->
   Str.endswith "m" (Str.strip key) = true) /\
  (Str.endswith "m" (Str.strip key) = false ->
   snd (_parse_key key default_scale) =
   if String.eqb default_scale "minor" then "major" else default_scale).
Proof.
  split; [apply parse_key_root_range|]. rewrite parse_key_scale.
  destruct (Str.endswith "m" (Str.strip key)).
  - split; [tauto | discriminate].
  - split; [|reflexivity]. split; [|discriminate].
    destruct (String.eqb default_scale "minor") eqn:E; [discriminate|].
    intros ->. discriminate.
Qed.

Lemma X11_key_root_and_scale_witness :
  Str.endswith "m" (Str.strip "F#") = false /\
  snd (_parse_key "F#" "minor") = "major".
Proof.
  split; [reflexivity|].
  apply (proj2 (proj2 (X11_key_root_and_scale "F#" "minor"))). reflexivity.
Defined.

(** X12. With draws in range, the only exception of [generate_beat] is the
    [ZeroDivisionError] of a tempo of 0: for every other tempo, drawn or
    given and of a size that fits a float, and every genre, key, bar count
    and bass switch a beat is returned. *)
Theorem X12_generate_beat_raises_only_for_tempo_zero
        {rng : Type} `{RandomSource rng}
        (genre : string) (bpm : option Z) (key : string)
        (bars : Z) (include_808 : bool) (g : rng) :
  in_range_draws rng -> tempo_fits bpm ->
  (bpm = Some 0 ->
   snd (generate_beat genre bpm key bars include_808 g) = Raise ZeroDivisionError) /\
  (bpm <> Some 0 ->
   exists b g', snd (generate_beat genre bpm key bars include_808 g) = Ok (b, g')).
Proof.
  intros Hdraws _.
  destruct (template_for_known genre) as (name & template & Hname & Ht).
  split.
  - intros ->. rewrite (generate_beat_template _ _ _ _ _ _ _ Ht). reflexivity.
  - intros Hbpm.
    destruct (generate_beat_returns Hdraws genre bpm key bars include_808 g template
                                    Ht Hbpm) as (b & g' & _ & _ & Hok & _).
    eauto.
Qed.

Lemma X12_generate_beat_raises_only_for_tempo_zero_witness :
  snd (generate_beat "lofi" (Some 0) "Am" 4 true always_low) = Raise ZeroDivisionError /\
  exists b g', snd (generate_beat "lofi" None "Am" 4 true always_low) = Ok (b, g').
Proof.
  split.
  - apply (proj1 (X12_generate_beat_raises_only_for_tempo_zero
                    "lofi" (Some 0) "Am" 4 true always_low tape_in_range
                    ltac:(simpl; lia))).
    reflexivity.
  - apply (proj2 (X12_generate_beat_raises_only_for_tempo_zero
                    "lofi" None "Am" 4 true always_low tape_in_range I)).
    discriminate.
Defined.

(** X13. A tempo that is given is returned as it is; a tempo that is drawn
    lies in the tempo range of the template of the genre, the trap
    template for an unknown genre, and so between 70 and 180. *)
Theorem X13_tempo_of_a_generated_beat
        {rng : Type} `{RandomSource rng}
        (genre : string) (bpm : option Z) (key : string)
        (bars : Z) (include_808 : bool) (g g' : rng) (b : Beat) (template : Template) :
  in_range_draws rng ->
  template_for genre = Some template ->
  snd (generate_beat genre bpm key bars include_808 g) = Ok (b, g') ->
  match bpm with
  | Some n => beat_bpm b = n
  | None =>
      fst (tempo_range template) <= beat_bpm b <= snd (tempo_range template) /\
      70 <= beat_bpm b <= 180
  end.
Proof.
  intros Hdraws Ht Hok.
  assert (Hbpm : bpm <> Some 0).
  { intros ->. rewrite (generate_beat_template _ _ _ _ _ _ _ Ht) in Hok. discriminate. }
  destruct (generate_beat_returns Hdraws genre bpm key bars include_808 g template
                                  Ht Hbpm) as (b0 & g0 & _ & _ & Hok0 & Hn & _).
  rewrite Hok in Hok0. injection Hok0 as <- <-.
  destruct bpm as [n|]; [exact Hn|]. split; [exact Hn|].
  destruct (template_for_known genre) as (name & t' & Hname & Ht').
  rewrite Ht in Ht'. injection Ht' as <-.
  destruct (template_tempo _ _ Hname) as (Hlo & _ & Hhi). lia.
Qed.

Lemma X13_tempo_of_a_generated_beat_witness :
  exists b g',
    snd (generate_beat "drill" None "C" 1 false always_low) = Ok (b, g') /\
    140 <= beat_bpm b <= 150.
Proof.
  destruct (snd (generate_beat "drill" None "C" 1 false always_low))
    as [[b g']|e] eqn:Hok; [|vm_compute in Hok; discriminate].
  exists b, g'. split; [reflexivity|].
  apply (X13_tempo_of_a_generated_beat
           "drill" None "C" 1 false always_low g' b
           {| tempo_range := (140, 150); scale := "harmonic_minor";
              drum_style := "trap"; bass_pattern := "rolling"; complexity := 0.8 |}
           tape_in_range eq_refl Hok).
Defined.

Lemma drum_hit_midi (e : NoteEvent) : drum_hit e -> midi_note e.
Proof.
  intros [Hn Hv]. split; [|lia].
  simpl in Hn. destruct Hn as [<- | [<- | [<- | []]]]; lia.
Qed.

Lemma bass_hit_note (root_note : Z) (intervals : list Z) (e : NoteEvent) :
  60 <= root_note <= 71 ->
  Forall (fun i => 0 <= i <= 7) (firstn 4 intervals) ->
  bass_hit (root_note - 12) intervals e -> bass_note e.
Proof.
  intros Hroot Hint [Hn Hv]. split; [|exact Hv].
  destruct Hn as [-> | (i & Hi & ->)]; [lia|].
  rewrite List.Forall_forall in Hint. specialize (Hint i Hi). lia.
Qed.

Lemma bass_note_midi (e : NoteEvent) : bass_note e -> midi_note e.
Proof. intros [Hn Hv]. split; lia. Qed.

(** The drum hits and the bass notes of a returned beat. *)
Lemma generated_hits {rng : Type} `{RandomSource rng}
      (genre : string) (bpm : option Z) (key : string)
      (bars : Z) (include_808 : bool) (g g' : rng) (b : Beat) :
  in_range_draws rng ->
  snd (generate_beat genre bpm key bars include_808 g) = Ok (b, g') ->
  Forall drum_hit (beat_drum_pattern b) /\
  Forall bass_note (beat_bass_pattern b).
Proof.
  intros Hdraws Hok.
  destruct (template_for_known genre) as (name & template & Hname & Ht).
  assert (Hbpm : bpm <> Some 0).
  { intros ->. rewrite (generate_beat_template _ _ _ _ _ _ _ Ht) in Hok. discriminate. }
  destruct (generate_beat_returns Hdraws genre bpm key bars include_808 g template
                                  Ht Hbpm)
    as (b0 & g0 & pb & g1 & Hok0 & _ & Hroot & Hscale & _ & Hdrums & Hbass & _).
  rewrite Hok in Hok0. injection Hok0 as <- <-. split.
  - rewrite Hdrums. apply drum_pattern_hits, Hdraws.
  - destruct include_808; [|rewrite Hbass; constructor].
    destruct Hbass as (intervals & Hint & _ & Hhits).
    destruct (scale_intervals _ _ Hint) as [_ Hfirst].
    eapply Forall_impl; [exact Hhits|]. intros e He.
    apply (bass_hit_note (beat_root_note b) intervals); [|exact Hfirst | exact He].
    rewrite Hroot. apply parse_key_root_range.
Qed.

(** The combined pattern of a returned beat holds its drum hits and its
    bass notes, and nothing else. *)
Lemma generated_combined {rng : Type} `{RandomSource rng}
      (genre : string) (bpm : option Z) (key : string)
      (bars : Z) (include_808 : bool) (g g' : rng) (b : Beat) :
  snd (generate_beat genre bpm key bars include_808 g) = Ok (b, g') ->
  Permutation (beat_combined_pattern b) (beat_drum_pattern b ++ beat_bass_pattern b).
Proof.
  intros Hok.
  destruct (template_for_known genre) as (name & template & Hname & Ht).
  rewrite (generate_beat_template _ _ _ _ _ _ _ Ht) in Hok. cbv zeta in Hok.
  destruct (__init__ _ default_steps_per_bar) as [pb|e]; [|discriminate].
  cbn [rbind] in Hok.
  match type of Hok with
  | (let* bass := ?m in _) = _ => destruct m as [[bass g2]|e]; [|discriminate]
  end.
  cbn [rbind fst snd] in Hok. injection Hok as <- _.
  cbn [beat_combined_pattern beat_drum_pattern beat_bass_pattern].
  rewrite (proj1 (combine_is_stable_sort _)). cbn [concat]. rewrite app_nil_r.
  reflexivity.
Qed.

(** X14. With draws in range, every event of a generated beat fits a MIDI
    note-on message: the drum hits are kicks, snares and closed hi-hats at
    velocities from 40 to 127, the bass notes lie between 48 and 66 at
    velocities from 80 to 120, and the combined pattern holds no other
    events. *)
Theorem X14_events_of_a_generated_beat
        {rng : Type} `{RandomSource rng}
        (genre : string) (bpm : option Z) (key : string)
        (bars : Z) (include_808 : bool) (g g' : rng) (b : Beat) :
  in_range_draws rng ->
  snd (generate_beat genre bpm key bars include_808 g) = Ok (b, g') ->
  Forall drum_hit (beat_drum_pattern b) /\
  Forall bass_note (beat_bass_pattern b) /\
  Forall midi_note (beat_combined_pattern b).
Proof.
  intros Hdraws Hok.
  destruct (generated_hits genre bpm key bars include_808 g g' b Hdraws Hok) as [Hd Hb].
  split; [exact Hd|]. split; [exact Hb|].
  apply (Permutation_Forall (Permutation_sym (generated_combined _ _ _ _ _ _ _ _ Hok))).
  rewrite Forall_app. split.
  - eapply Forall_impl; [exact Hd|]. intros e. apply drum_hit_midi.
  - eapply Forall_impl; [exact Hb|]. intros e. apply bass_note_midi.
Qed.

Lemma X14_events_of_a_generated_beat_witness :
  exists b g',
    snd (generate_beat "trap" (Some 140) "Dm" 2 true always_low) = Ok (b, g') /\
    Forall midi_note (beat_combined_pattern b).
Proof.
  destruct (snd (generate_beat "trap" (Some 140) "Dm" 2 true always_low))
    as [[b g']|e] eqn:Hok; [|vm_compute in Hok; discriminate].
  exists b, g'. split; [reflexivity|].
  apply (X14_events_of_a_generated_beat
           "trap" (Some 140) "Dm" 2 true always_low g' b tape_in_range Hok).
Defined.

Lemma bass_count_per_bar (pb : PatternBuilder) (pattern_type : string) (bars : Z) :
  steps_per_bar pb = 16 ->
  bass_count pb pattern_type bars = Z.to_nat (bass_notes_per_bar pattern_type * bars).
Proof.
  intros Hspb. unfold bass_count, bass_notes_per_bar. rewrite Hspb.
  destruct (String.eqb pattern_type "simple"); [lia|].
  destruct (String.eqb pattern_type "bouncy"); [lia|].
  destruct (String.eqb pattern_type "rolling"); [|reflexivity].
  destruct (Z.le_gt_cases bars 0).
  - replace (Z.max 0 (16 * bars)) with 0 by lia.
    change ((0 + 1) / 2) with 0. lia.
  - replace (Z.max 0 (16 * bars)) with (16 * bars) by lia.
    replace (16 * bars + 1) with (1 + (8 * bars) * 2) by lia.
    rewrite Z.div_add by lia. reflexivity.
Qed.

(** X15. The bass line of a generated beat has two, six or eight notes per
    bar, by the bass pattern of the template (simple, bouncy, rolling).
    Without the bass switch it is empty, and for a positive tempo the
    combined pattern is then the drum pattern, unchanged. *)
Theorem X15_bass_line_of_a_generated_beat
        {rng : Type} `{RandomSource rng}
        (genre : string) (bpm : option Z) (key : string)
        (bars : Z) (include_808 : bool) (g g' : rng) (b : Beat) (template : Template) :
  in_range_draws rng ->
  template_for genre = Some template ->
  snd (generate_beat genre bpm key bars include_808 g) = Ok (b, g') ->
  length (beat_bass_pattern b) =
    (if include_808
     then Z.to_nat (bass_notes_per_bar (bass_pattern template) * bars)
     else 0%nat) /\
  (include_808 = false -> 0 < beat_bpm b ->
   beat_combined_pattern b = beat_drum_pattern b).
Proof.
  intros Hdraws Ht Hok.
  assert (Hbpm : bpm <> Some 0).
  { intros ->. rewrite (generate_beat_template _ _ _ _ _ _ _ Ht) in Hok. discriminate. }
  destruct (generate_beat_returns Hdraws genre bpm key bars include_808 g template
                                  Ht Hbpm)
    as (b0 & g0 & pb & g1 & Hok0 & _ & _ & _ & Hinit & Hdrums & Hbass & Hcomb).
  rewrite Hok in Hok0. injection Hok0 as <- <-.
  destruct (init_fields _ _ _ Hinit) as (_ & _ & Hspb & _).
  split.
  - destruct include_808; [|rewrite Hbass; reflexivity].
    destruct Hbass as (intervals & _ & Hlen & _).
    rewrite Hlen. apply bass_count_per_bar, Hspb.
  - intros -> Hpos. rewrite Hcomb, Hbass, Hdrums.
    unfold combine_patterns. cbn [fold_left app]. rewrite app_nil_r.
    apply sort_sorted, drum_pattern_ordered.
    apply (init_step_duration_pos _ _ _ Hinit Hpos). reflexivity.
Qed.

Lemma X15_bass_line_of_a_generated_beat_witness :
  exists b g',
    snd (generate_beat "drill" (Some 145) "C" 2 true always_low) = Ok (b, g') /\
    length (beat_bass_pattern b) = 16%nat.
Proof.
  destruct (snd (generate_beat "drill" (Some 145) "C" 2 true always_low))
    as [[b g']|e] eqn:Hok; [|vm_compute in Hok; discriminate].
  exists b, g'. split; [reflexivity|].
  apply (X15_bass_line_of_a_generated_beat
           "drill" (Some 145) "C" 2 true always_low g' b
           {| tempo_range := (140, 150); scale := "harmonic_minor";
              drum_style := "trap"; bass_pattern := "rolling"; complexity := 0.8 |}
           tape_in_range eq_refl Hok).
Defined.

(** X16. The parser and the generator together: a generation command whose
    tempo is 0 makes [generate_beat] raise [ZeroDivisionError]; every other
    parsed generation command, of a tempo that fits a float, gives a beat
    with a positive tempo, at root 60 and in a scale that is not "minor",
    whatever key the text names. *)
Theorem X16_beat_of_a_parsed_command
        {rng : Type} `{RandomSource rng}
        (text genre key : string) (bpm : option Z) (bars : Z) (include_808 : bool)
        (g : rng) :
  in_range_draws rng -> tempo_fits bpm ->
  parse text = Ok (CommandParser.generate_beat genre bpm key bars include_808) ->
  (bpm = Some 0 ->
   snd (MusicGenerator.generate_beat genre bpm key bars include_808 g)
   = Raise ZeroDivisionError) /\
  (bpm <> Some 0 ->
   exists b g',
     snd (MusicGenerator.generate_beat genre bpm key bars include_808 g) = Ok (b, g') /\
     0 < beat_bpm b /\ beat_root_note b = 60 /\ beat_scale b <> "minor").
Proof.
  intros Hdraws _ Hparse.
  destruct (template_for_known genre) as (name & template & Hname & Ht).
  split.
  - intros ->. rewrite (generate_beat_template _ _ _ _ _ _ _ Ht). reflexivity.
  - intros Hbpm.
    assert (Hfields : key = "C" /\ forall n, bpm = Some n -> 0 <= n).
    { destruct (parse_cases text) as [Hc | [Hc | Hc]]; rewrite Hc in Hparse.
      - pose proof (sample_returns (Str.strip (Str.lower text))) as Hs.
        rewrite Hparse in Hs. destruct Hs as (p' & ops' & b' & bt' & Heq & _).
        discriminate.
      - split.
        + destruct (generate_returns (Str.strip (Str.lower text)))
            as (g0 & bp & k & n & i & Hg & Hkey).
          rewrite Hg in Hparse. injection Hparse as -> -> -> -> ->.
          apply Hkey, key_never_found.
        + exact (proj1 (generate_in_range _ _ Hparse)).
      - discriminate. }
    destruct Hfields as [-> Hnat].
    destruct (generate_beat_returns Hdraws genre bpm "C" bars include_808 g template
                                    Ht Hbpm)
      as (b & g' & _ & _ & Hok & Hn & Hroot & Hscale & _).
    exists b, g'. split; [exact Hok|]. split; [|split].
    + destruct bpm as [n|].
      * specialize (Hnat n eq_refl). subst n.
        destruct (Z.eq_dec (beat_bpm b) 0) as [E|E]; [|lia].
        rewrite E in Hbpm. contradiction.
      * destruct (template_tempo _ _ Hname) as (Hlo & _). lia.
    + rewrite Hroot. reflexivity.
    + rewrite Hscale, parse_key_scale. change (Str.endswith "m" (Str.strip "C")) with false.
      cbv iota. destruct (String.eqb (scale template) "minor") eqn:E; [discriminate|].
      intros Heq. rewrite Heq in E. discriminate.
Qed.

Lemma X16_beat_of_a_parsed_command_witness :
  parse "make a drill beat at 0 bpm" =
    Ok (CommandParser.generate_beat "drill" (Some 0) "C" 4 false) /\
  snd (MusicGenerator.generate_beat "drill" (Some 0) "C" 4 false always_low)
  = Raise ZeroDivisionError.
Proof.
  split; [vm_compute; reflexivity|].
  apply (proj1 (X16_beat_of_a_parsed_command
                  "make a drill beat at 0 bpm" "drill" "C" (Some 0) 4 false always_low
                  tape_in_range ltac:(simpl; lia) ltac:(vm_compute; reflexivity))).
  reflexivity.
Defined.

End GeneratorProperties.

(** ** The melody generator *)

Lemma tape_unit_random : MelodySpec.unit_random Tape.
Proof.
  intros g. unfold random; simpl. destruct (tape_next g) as [x t]. simpl.
  pose proof (Z.mod_pos_bound x 100 ltac:(lia)) as Hx.
  unfold Qle, Qlt; simpl. lia.
Qed.

Section MelodyProperties.
Import PatternBuilder MusicGenerator DrawSpec Melody MelodySpec.
Context {rng : Type} `{RandomSource rng}.

(** A loop whose body returns and appends at most one event, one that has
    [P] of the element, returns and appends at most one event for each
    element, each with [P] of some element. *)
Lemma for_each_raising_appends {A : Type} (P : A -> NoteEvent -> Prop)
      (body : A -> list NoteEvent -> rng -> result (list NoteEvent * rng))
      (xs : list A) :
  (forall x notes g,
      exists added g',
        body x notes g = Ok (notes ++ added, g') /\
        (length added <= 1)%nat /\ Forall (P x) added) ->
  forall notes g,
    exists added g',
      for_each_raising body xs notes g = Ok (notes ++ added, g') /\
      (length added <= length xs)%nat /\
      Forall (fun e => exists x, In x xs /\ P x e) added.
Proof.
  intros Hbody. induction xs as [|x xs IH]; intros notes g; simpl.
  - exists [], g. rewrite app_nil_r. split; [reflexivity|]. split; [simpl; lia | constructor].
  - destruct (Hbody x notes g) as (a1 & g1 & -> & Hlen1 & HP1). cbn [rbind fst snd].
    destruct (IH (notes ++ a1) g1) as (a2 & g2 & -> & Hlen2 & HP2).
    exists (a1 ++ a2), g2. rewrite app_assoc. split; [reflexivity|].
    rewrite length_app, Forall_app. split; [lia|]. split.
    + eapply Forall_impl; [exact HP1|]. intros e He. exists x. auto.
    + eapply Forall_impl; [exact HP2|]. intros e (y & Hy & He). exists y. auto.
Qed.

Hypothesis Hdraws : in_range_draws rng.

Lemma melody_step_returns (pb : PatternBuilder) (root_note : Z) (intervals : list Z)
      (note_density : Q) (step : Z) (notes : list NoteEvent) (g : rng) :
  intervals <> [] ->
  exists added g',
    melody_step pb root_note intervals note_density step notes g
    = Ok (notes ++ added, g') /\
    length added = (if Qlt_bool (fst (random g)) note_density then 1 else 0)%nat /\
    Forall (step_note pb root_note intervals step) added.
Proof.
  intros Hne. unfold melody_step.
  destruct (random g) as [r g1]. cbn [fst].
  destruct (Qlt_bool r note_density).
  - destruct (choice_returns Hdraws intervals g1 Hne) as (i & g2 & -> & Hi).
    cbn [rbind fst snd].
    destruct (random g2) as [r2 g3].
    assert (Hshift : exists s g4,
               (if Qlt_bool r2 0.2 then choice [-12; 0; 12] g3 else Ok (0, g3))
               = Ok (s, g4) /\ In s [-12; 0; 12]).
    { destruct (Qlt_bool r2 0.2); [|exists 0, g3; simpl; tauto].
      destruct (choice_returns Hdraws [-12; 0; 12] g3 ltac:(discriminate))
        as (s & g4 & Hs & Hin). eauto. }
    destruct Hshift as (s & g4 & -> & Hs). cbn [rbind fst snd].
    pose proof (randint_in_range Hdraws 70 100 g4 ltac:(lia)) as Hv.
    destruct (randint 70 100 g4) as [v g5]. cbn [fst] in Hv.
    destruct (choice_returns Hdraws [1; 2; 3; 4] g5 ltac:(discriminate))
      as (k & g6 & -> & Hk).
    cbn [rbind fst snd].
    eexists [_], g6. split; [reflexivity|]. split; [reflexivity|].
    constructor; [|constructor]. unfold step_note. cbn [note velocity time duration].
    split; [exists i, s; auto|]. split; [exact Hv|]. split; [reflexivity|].
    exists k. split; [|reflexivity].
    simpl in Hk. destruct Hk as [<- | [<- | [<- | [<- | []]]]]; lia.
  - exists [], g1. rewrite app_nil_r. split; [reflexivity|]. split; [reflexivity | constructor].
Qed.

Lemma all_intervals (name : string) (intervals : list Z) :
  SCALES !! name = Some intervals -> Forall (fun i => 0 <= i <= 11) intervals.
Proof.
  intros Hn. unfold SCALES in Hn.
  apply elem_of_list_to_map_2 in Hn.
  repeat (apply elem_of_cons in Hn as [Hn | Hn];
          [injection Hn as _ ->; repeat constructor; lia|]).
  apply elem_of_nil in Hn. contradiction.
Qed.

(** The intervals [generate_melody] chooses from. *)
Lemma melody_intervals (scale : string) :
  default (SCALES !!! "pentatonic_minor") (SCALES !! scale) <> [] /\
  Forall (fun i => 0 <= i <= 11)
         (default (SCALES !!! "pentatonic_minor") (SCALES !! scale)).
Proof.
  destruct (SCALES !! scale) as [l|] eqn:Hl; cbn [default].
  - split; [exact (proj1 (scale_intervals _ _ Hl)) | exact (all_intervals _ _ Hl)].
  - split; [vm_compute; discriminate|].
    change (SCALES !!! "pentatonic_minor") with [0; 3; 5; 7; 10].
    repeat constructor; lia.
Qed.

Lemma builder_used_known (held : option PatternBuilder) :
  exists used,
    match held with
    | Some pattern_builder => Ok pattern_builder
    | None => __init__ 120 default_steps_per_bar
    end = Ok used /\ builder_used held used.
Proof.
  destruct held as [pb|]; [exists pb; split; reflexivity|].
  eexists. split; reflexivity.
Qed.

(** The call with the root, the intervals and the pattern builder named. *)
Lemma generate_melody_loop (held : option PatternBuilder) (used : PatternBuilder)
      (key scale : string) (bars : Z) (note_density : Q) (octave : Z) (g : rng) :
  builder_used held used ->
  generate_melody held key scale bars note_density octave g =
  (Some used,
   for_each_raising
     (melody_step used (octave * 12 + fst (_parse_key key scale) mod 12)
                  (default (SCALES !!! "pentatonic_minor") (SCALES !! scale))
                  note_density)
     (range (steps_per_bar used * bars)) [] g).
Proof.
  intros Hused. unfold generate_melody.
  destruct (_parse_key key scale) as [root st]. cbn [fst].
  destruct held as [pb|]; cbn [builder_used] in Hused.
  - subst used. reflexivity.
  - rewrite Hused. reflexivity.
Qed.

Lemma melody_returns (held : option PatternBuilder) (used : PatternBuilder)
      (key scale : string) (bars : Z) (note_density : Q) (octave : Z) (g : rng) :
  builder_used held used ->
  exists notes g',
    generate_melody held key scale bars note_density octave g
    = (Some used, Ok (notes, g')) /\
    (length notes <= Z.to_nat (steps_per_bar used * bars))%nat /\
    Forall (fun e =>
              exists step,
                0 <= step < steps_per_bar used * bars /\
                step_note used (octave * 12 + fst (_parse_key key scale) mod 12)
                          (default (SCALES !!! "pentatonic_minor") (SCALES !! scale))
                          step e) notes.
Proof.
  intros Hused. rewrite (generate_melody_loop _ _ _ _ _ _ _ _ Hused).
  destruct (melody_intervals scale) as [Hne _].
  set (root := octave * 12 + fst (_parse_key key scale) mod 12).
  set (intervals := default (SCALES !!! "pentatonic_minor") (SCALES !! scale)) in *.
  destruct (for_each_raising_appends
              (step_note used root intervals)
              (melody_step used root intervals note_density)
              (range (steps_per_bar used * bars)))
    with (notes := @nil NoteEvent) (g := g) as (added & g' & Hok & Hlen & Hall).
  { intros step notes g0.
    destruct (melody_step_returns used root intervals note_density step notes g0 Hne)
      as (added & g1 & Hok & Hlen & Hall).
    exists added, g1. split; [exact Hok|]. split; [|exact Hall].
    rewrite Hlen. destruct (Qlt_bool _ _); lia. }
  exists added, g'. rewrite Hok. split; [reflexivity|].
  rewrite range_length in Hlen. split; [exact Hlen|].
  eapply Forall_impl; [exact Hall|]. intros e (step & Hstep & He).
  exists step. split; [apply in_range, Hstep | exact He].
Qed.

Hypothesis Hunit : unit_random rng.

(** The number of notes for a density at which every draw decides the same
    way. *)
Lemma melody_count (held : option PatternBuilder) (used : PatternBuilder)
      (key scale : string) (bars : Z) (note_density : Q) (octave : Z) (g : rng)
      (k : nat) :
  builder_used held used ->
  (forall r : Q, (0 <= r)%Q -> (r < 1)%Q ->
                 (if Qlt_bool r note_density then 1 else 0)%nat = k) ->
  exists notes g',
    generate_melody held key scale bars note_density octave g
    = (Some used, Ok (notes, g')) /\
    length notes = (k * Z.to_nat (steps_per_bar used * bars))%nat.
Proof.
  intros Hused Hk. rewrite (generate_melody_loop _ _ _ _ _ _ _ _ Hused).
  destruct (melody_intervals scale) as [Hne _].
  set (root := octave * 12 + fst (_parse_key key scale) mod 12).
  set (intervals := default (SCALES !!! "pentatonic_minor") (SCALES !! scale)) in *.
  destruct (for_each_raising_adds
              (fun _ => True) k
              (melody_step used root intervals note_density)
              (range (steps_per_bar used * bars)))
    with (notes := @nil NoteEvent) (g := g) as (notes & g' & Hok & Hlen & _).
  { intros step notes g0.
    destruct (melody_step_returns used root intervals note_density step notes g0 Hne)
      as (added & g1 & Hok & Hlen & _).
    exists (notes ++ added), g1. split; [exact Hok|]. split; [|auto].
    rewrite length_app, Hlen. f_equal. apply Hk; apply Hunit. }
  exists notes, g'. rewrite Hok. split; [reflexivity|].
  rewrite range_length in Hlen. simpl in Hlen. exact Hlen.
Qed.

End MelodyProperties.

Section MelodyTheorems.
Import PatternBuilder MusicGenerator DrawSpec Melody MelodySpec.

Lemma step_note_melody_note (pb : PatternBuilder) (bars root_note : Z)
      (intervals : list Z) (e : NoteEvent) :
  (exists step, 0 <= step < steps_per_bar pb * bars /\
                step_note pb root_note intervals step e) ->
  melody_note pb bars e.
Proof.
  intros (step & Hstep & (i & s & _ & _ & Hn) & Hv & Ht & Hd).
  unfold melody_note. split; [lia|]. split; [exact Hv|]. split; [|exact Hd].
  exists step. auto.
Qed.

Lemma step_note_window (pb : PatternBuilder) (octave root step : Z)
      (intervals : list Z) (e : NoteEvent) :
  Forall (fun i => 0 <= i <= 11) intervals ->
  step_note pb (octave * 12 + root mod 12) intervals step e ->
  in_pitch_window octave e.
Proof.
  intros Hint ((i & s & Hi & Hs & Hn) & _).
  rewrite List.Forall_forall in Hint. specialize (Hint i Hi).
  pose proof (Z.mod_pos_bound root 12 ltac:(lia)) as Hr.
  unfold in_pitch_window. rewrite Hn.
  simpl in Hs. destruct Hs as [<- | [<- | [<- | []]]]; lia.
Qed.

(** X17. With draws in range [generate_melody] returns without an
    exception, for every key, scale name, bar count, density and octave;
    it keeps the pattern builder the generator holds, or makes the one of
    120 bpm when it holds none; the melody has at most one note for each
    step, every note on a step of that builder's grid, one to four steps
    long, with a pitch from 0 to 127 and a velocity from 70 to 100. *)
Theorem X17_melody_on_the_grid
        {rng : Type} `{RandomSource rng}
        (held : option PatternBuilder) (used : PatternBuilder)
        (key scale : string) (bars : Z) (note_density : Q) (octave : Z) (g : rng) :
  in_range_draws rng ->
  builder_used held used ->
  exists notes g',
    generate_melody held key scale bars note_density octave g
    = (Some used, Ok (notes, g')) /\
    (length notes <= Z.to_nat (steps_per_bar used * bars))%nat /\
    Forall (melody_note used bars) notes.
Proof.
  intros Hdraws Hused.
  destruct (melody_returns Hdraws held used key scale bars note_density octave g Hused)
    as (notes & g' & Hok & Hlen & Hall).
  exists notes, g'. split; [exact Hok|]. split; [exact Hlen|].
  eapply Forall_impl; [exact Hall|]. intros e. apply step_note_melody_note.
Qed.

Lemma X17_melody_on_the_grid_witness :
  exists notes g',
    generate_melody None "A" "blues" 2 0.5 5 always_low
    = (Some builder_120, Ok (notes, g')) /\
    (length notes <= 32)%nat /\
    Forall (melody_note builder_120 2) notes.
Proof.
  apply (X17_melody_on_the_grid None builder_120 "A" "blues" 2 0.5 5 always_low
                                tape_in_range).
  reflexivity.
Defined.

(** X18. The pitches of a melody in [octave] stay between the octave below
    the start of [octave] and 34 semitones above that start, cut off at 0
    and at 127: from octave 12 on every note is 127, and up to octave -3
    every note is 0. *)
Theorem X18_melody_pitch_window
        {rng : Type} `{RandomSource rng}
        (held : option PatternBuilder) (used : PatternBuilder)
        (key scale : string) (bars : Z) (note_density : Q) (octave : Z) (g g' : rng)
        (notes : list NoteEvent) :
  in_range_draws rng ->
  builder_used held used ->
  generate_melody held key scale bars note_density octave g
  = (Some used, Ok (notes, g')) ->
  Forall (in_pitch_window octave) notes /\
  (12 <= octave -> Forall (fun e => note e = 127) notes) /\
  (octave <= -3 -> Forall (fun e => note e = 0) notes).
Proof.
  intros Hdraws Hused Hok.
  destruct (melody_returns Hdraws held used key scale bars note_density octave g Hused)
    as (notes0 & g0 & Hok0 & _ & Hall).
  rewrite Hok in Hok0. injection Hok0 as <- <-.
  assert (Hwin : Forall (in_pitch_window octave) notes).
  { eapply Forall_impl; [exact Hall|]. intros e (step & _ & He).
    eapply step_note_window; [|exact He]. apply melody_intervals. }
  split; [exact Hwin|]. split; intros Hoct.
  - eapply Forall_impl; [exact Hwin|]. intros e. unfold in_pitch_window. lia.
  - eapply Forall_impl; [exact Hwin|]. intros e. unfold in_pitch_window. lia.
Qed.

Lemma X18_melody_pitch_window_witness :
  exists notes g',
    generate_melody None "G" "dorian" 1 0.9 12 always_low
    = (Some builder_120, Ok (notes, g')) /\
    Forall (fun e => note e = 127) notes.
Proof.
  destruct (generate_melody None "G" "dorian" 1 0.9 12 always_low)
    as [st [[notes g']|e]] eqn:Hok; [|vm_compute in Hok; discriminate].
  assert (Hst : st = Some builder_120).
  { change st with (fst (st, Ok (notes, g'))). rewrite <- Hok.
    vm_compute. reflexivity. }
  subst st. exists notes, g'. split; [reflexivity|].
  apply (proj1 (proj2 (X18_melody_pitch_window
                         None builder_120 "G" "dorian" 1 0.9 12 always_low g' notes
                         tape_in_range eq_refl Hok))).
  lia.
Defined.

Lemma never_below_zero (r d : Q) : (0 <= r)%Q -> (d <= 0)%Q -> Qlt_bool r d = false.
Proof.
  intros Hr Hd. destruct (Qlt_bool r d) eqn:E; [|reflexivity].
  apply Qlt_bool_true in E. lra.
Qed.

Lemma always_below_one (r d : Q) : (r < 1)%Q -> (1 <= d)%Q -> Qlt_bool r d = true.
Proof.
  intros Hr Hd. destruct (Qlt_bool r d) eqn:E; [reflexivity|].
  apply Qlt_bool_false in E. lra.
Qed.

(** X19. With [random()] in its range, a density of 0 or less gives an
    empty melody, and a density of 1 or more gives a note on every step. *)
Theorem X19_melody_density_extremes
        {rng : Type} `{RandomSource rng}
        (held : option PatternBuilder) (used : PatternBuilder)
        (key scale : string) (bars : Z) (note_density : Q) (octave : Z) (g : rng) :
  in_range_draws rng -> unit_random rng ->
  builder_used held used ->
  ((note_density <= 0)%Q ->
   exists g',
     generate_melody held key scale bars note_density octave g
     = (Some used, Ok ([], g'))) /\
  ((1 <= note_density)%Q ->
   exists notes g',
     generate_melody held key scale bars note_density octave g
     = (Some used, Ok (notes, g')) /\
     length notes = Z.to_nat (steps_per_bar used * bars)).
Proof.
  intros Hdraws Hunit Hused. split; intros Hd.
  - destruct (melody_count Hdraws Hunit held used key scale bars note_density octave g
                           0%nat Hused) as (notes & g' & Hok & Hlen).
    { intros r Hr0 Hr1. rewrite never_below_zero; auto. }
    destruct notes; [|discriminate]. eauto.
  - destruct (melody_count Hdraws Hunit held used key scale bars note_density octave g
                           1%nat Hused) as (notes & g' & Hok & Hlen).
    { intros r Hr0 Hr1. rewrite always_below_one; auto. }
    exists notes, g'. split; [exact Hok | lia].
Qed.

Lemma X19_melody_density_extremes_witness :
  (exists g',
      generate_melody None "C" "major" 4 0 5 always_low = (Some builder_120, Ok ([], g'))) /\
  (exists notes g',
      generate_melody None "C" "major" 4 1 5 always_low
      = (Some builder_120, Ok (notes, g')) /\ length notes = 64%nat).
Proof.
  split.
  - apply (proj1 (X19_melody_density_extremes
                    None builder_120 "C" "major" 4 0 5 always_low
                    tape_in_range tape_unit_random eq_refl)).
    discriminate.
  - apply (proj2 (X19_melody_density_extremes
                    None builder_120 "C" "major" 4 1 5 always_low
                    tape_in_range tape_unit_random eq_refl)).
    discriminate.
Defined.

End MelodyTheorems.

(** ** Slices *)

Section Slicing.
Import SampleProcessor ProcessorSpec.
Context {sample : Type}.

Lemma py_slice_inside (a b : Z) (xs : list sample) :
  0 <= a <= b -> b <= Z.of_nat (length xs) ->
  py_slice a b xs = firstn (Z.to_nat b - Z.to_nat a) (skipn (Z.to_nat a) xs).
Proof.
  intros Hab Hb. unfold py_slice, slice_index. cbv zeta.
  destruct (a <? 0) eqn:Ea; [apply Z.ltb_lt in Ea; lia|].
  destruct (b <? 0) eqn:Eb; [apply Z.ltb_lt in Eb; lia|].
  rewrite !Z.min_l by lia. f_equal. lia.
Qed.

Lemma firstn_add (a b : nat) (xs : list sample) :
  firstn (a + b) xs = firstn a xs ++ firstn b (skipn a xs).
Proof.
  revert xs. induction a as [|a IH]; intros xs; [reflexivity|].
  destruct xs as [|x xs]; simpl; [destruct b; reflexivity|].
  rewrite IH. reflexivity.
Qed.

(** The first [k] pieces of [q] samples, put together, are the first
    [k * q] samples. *)
Lemma pieces_together (q k : nat) (xs : list sample) :
  concat (map (fun i => firstn q (skipn (i * q) xs)) (seq 0 k)) = firstn (k * q) xs.
Proof.
  induction k as [|k IH]; [reflexivity|].
  rewrite seq_S, map_app, concat_app, IH. cbn [map concat Nat.add].
  rewrite app_nil_r. replace (S k * q)%nat with (k * q + q)%nat by lia.
  symmetry. apply firstn_add.
Qed.

Lemma range_split (n : Z) : 0 < n -> range n = range (n - 1) ++ [n - 1].
Proof.
  intros Hn. unfold range.
  replace (Z.to_nat n) with (S (Z.to_nat (n - 1))) by lia.
  rewrite seq_S, map_app. cbn [map Nat.add]. f_equal. f_equal. lia.
Qed.

(** The piece of row [xs] that slice [i] of [num_slices] takes. *)
Lemma piece_of_row (xs : list sample) (num_slices i : Z) :
  0 < num_slices -> 0 <= i < num_slices ->
  let total := Z.of_nat (length xs) in
  let q := total / num_slices in
  py_slice (i * q) (if i <? num_slices - 1 then i * q + q else total) xs =
  if i <? num_slices - 1
  then firstn (Z.to_nat q) (skipn (Z.to_nat i * Z.to_nat q) xs)
  else skipn (Z.to_nat i * Z.to_nat q) xs.
Proof.
  intros Hn Hi total q.
  assert (Hq : 0 <= q) by (apply Z.div_pos; lia).
  assert (Hnq : num_slices * q <= total) by (apply Z.mul_div_le; lia).
  assert (Hprod : Z.to_nat (i * q) = (Z.to_nat i * Z.to_nat q)%nat) by nia.
  destruct (i <? num_slices - 1) eqn:Ei.
  - apply Z.ltb_lt in Ei.
    rewrite py_slice_inside by nia.
    rewrite Hprod. f_equal. nia.
  - apply Z.ltb_ge in Ei.
    rewrite py_slice_inside by nia.
    rewrite Hprod. apply firstn_all2. rewrite length_skipn. nia.
Qed.

(** The slices of one row, put together, are the row. *)
Lemma row_round_trip (xs : list sample) (total num_slices : Z) :
  0 < num_slices -> Z.of_nat (length xs) = total ->
  concat (map (fun i =>
                 py_slice (i * (total / num_slices))
                          (if i <? num_slices - 1
                           then i * (total / num_slices) + total / num_slices
                           else total) xs)
              (range num_slices)) = xs.
Proof.
  intros Hn <-.
  rewrite (range_split num_slices Hn), map_app, concat_app. cbn [map concat].
  rewrite app_nil_r.
  rewrite (piece_of_row xs num_slices (num_slices - 1) Hn ltac:(lia)).
  rewrite Z.ltb_irrefl.
  replace (map _ (range (num_slices - 1)))
    with (map (fun i => firstn (Z.to_nat (Z.of_nat (length xs) / num_slices))
                               (skipn (i * Z.to_nat (Z.of_nat (length xs) / num_slices)) xs))
              (seq 0 (Z.to_nat (num_slices - 1)))).
  - rewrite pieces_together. apply firstn_skipn.
  - unfold range. rewrite map_map. apply map_ext_in. intros k Hk.
    apply in_seq in Hk.
    rewrite (piece_of_row xs num_slices (Z.of_nat k) Hn ltac:(lia)).
    replace (Z.of_nat k <? num_slices - 1) with true by (symmetry; apply Z.ltb_lt; lia).
    rewrite Nat2Z.id. reflexivity.
Qed.

End Slicing.

Section SliceSample.
Import SampleProcessor ProcessorSpec.
Context {sample : Type}.

Lemma py_slice_nil (a b : Z) : py_slice a b (@nil sample) = [].
Proof. unfold py_slice. cbv zeta. rewrite skipn_nil, firstn_nil. reflexivity. Qed.

Lemma channel_of_slice (audio : Audio sample) (a b : Z) (c : nat) :
  channel c (slice_data audio a b) = py_slice a b (channel c audio).
Proof.
  destruct audio as [xs | rows]; [reflexivity|]. cbn [slice_data channel].
  rewrite <- (py_slice_nil a b) at 1. apply map_nth.
Qed.

Lemma channels_of_slice (audio : Audio sample) (a b : Z) :
  channels (slice_data audio a b) = channels audio.
Proof. destruct audio as [xs | rows]; [reflexivity|]. apply length_map. Qed.

Lemma channel_length (audio : Audio sample) (c : nat) :
  rectangular audio -> (c < channels audio)%nat ->
  Z.of_nat (length (channel c audio)) = last_dim audio.
Proof.
  destruct audio as [xs | rows]; [reflexivity|]. intros [_ Hrows] Hc.
  rewrite List.Forall_forall in Hrows. apply Hrows. apply nth_In. exact Hc.
Qed.

Lemma last_dim_channel (audio : Audio sample) :
  rectangular audio -> last_dim audio = Z.of_nat (length (channel 0 audio)).
Proof.
  destruct audio as [xs | rows]; [reflexivity|]. intros [Hne _].
  destruct rows; [contradiction | reflexivity].
Qed.

Lemma slice_keeps_rectangular (audio : Audio sample) (a b : Z) :
  rectangular audio -> rectangular (slice_data audio a b).
Proof.
  destruct audio as [xs | rows]; [auto|]. intros [Hne Hrows]. split.
  - destruct rows; [contradiction | discriminate].
  - destruct rows as [|row rows]; [contradiction|].
    cbn [slice_data map last_dim] in *.
    inversion Hrows as [|? ? _ Hrest]; subst.
    constructor; [reflexivity|].
    rewrite List.Forall_forall in *. intros r Hr.
    apply in_map_iff in Hr as (r0 & <- & Hr0). specialize (Hrest r0 Hr0).
    unfold py_slice. cbv zeta. rewrite !length_firstn, !length_skipn.
    rewrite <- (Nat2Z.id (length r0)), Hrest, Nat2Z.id. reflexivity.
Qed.

Lemma piece_length (xs : list sample) (num_slices i : Z) :
  0 < num_slices -> 0 <= i < num_slices ->
  let total := Z.of_nat (length xs) in
  let q := total / num_slices in
  Z.of_nat (length (py_slice (i * q) (if i <? num_slices - 1 then i * q + q else total) xs))
  = if i <? num_slices - 1 then q else q + total mod num_slices.
Proof.
  intros Hn Hi. cbv zeta.
  rewrite (piece_of_row xs num_slices i Hn Hi).
  set (total := Z.of_nat (length xs)). set (q := total / num_slices).
  assert (Hq : 0 <= q) by (apply Z.div_pos; lia).
  assert (Hnq : num_slices * q <= total) by (apply Z.mul_div_le; lia).
  assert (Hmod : total = num_slices * q + total mod num_slices)
    by (apply Z.div_mod; lia).
  destruct (i <? num_slices - 1) eqn:Ei.
  - apply Z.ltb_lt in Ei. rewrite length_firstn, length_skipn. nia.
  - apply Z.ltb_ge in Ei. rewrite length_skipn. nia.
Qed.

(** X20. Slicing into a positive number of slices returns that many
    slices, each with the channels of the audio; channel by channel the
    slices put together are the audio again; every slice but the last has
    [total // num_slices] samples and the last has the remainder as
    well. *)
Theorem X20_slices_put_together
        (audio : Audio sample) (num_slices : Z) :
  rectangular audio -> 0 < num_slices ->
  exists slices,
    slice_sample audio num_slices = Ok slices /\
    length slices = Z.to_nat num_slices /\
    Forall (fun s => channels s = channels audio) slices /\
    (forall c, (c < channels audio)%nat ->
               concat (map (channel c) slices) = channel c audio) /\
    (forall i s, nth_error slices i = Some s ->
                 last_dim s =
                 if Z.of_nat i <? num_slices - 1
                 then last_dim audio / num_slices
                 else last_dim audio / num_slices + last_dim audio mod num_slices).
Proof.
  intros Hrect Hn. unfold slice_sample. cbv zeta.
  destruct (num_slices =? 0) eqn:E0; [apply Z.eqb_eq in E0; lia|].
  eexists. split; [reflexivity|]. split; [|split; [|split]].
  - rewrite length_map. apply range_length.
  - rewrite List.Forall_forall. intros s Hs.
    apply in_map_iff in Hs as (i & <- & _). apply channels_of_slice.
  - intros c Hc. rewrite map_map.
    erewrite map_ext; [|intros i; apply channel_of_slice].
    apply row_round_trip; [exact Hn | apply channel_length; assumption].
  - intros i s Hs.
    rewrite nth_error_map in Hs.
    destruct (nth_error (range num_slices) i) as [k|] eqn:Hk; [|discriminate].
    cbn [option_map] in Hs. injection Hs as <-.
    assert (Hki : k = Z.of_nat i /\ 0 <= k < num_slices).
    { pose proof (nth_error_In _ _ Hk) as Hin. apply in_range in Hin.
      unfold range in Hk. rewrite nth_error_map in Hk.
      destruct (nth_error (seq 0 (Z.to_nat num_slices)) i) as [j|] eqn:Hj; [|discriminate].
      cbn [option_map] in Hk. injection Hk as <-.
      assert (Hlt : (i < length (seq 0 (Z.to_nat num_slices)))%nat)
        by (apply nth_error_Some; congruence).
      rewrite length_seq in Hlt.
      apply nth_error_nth with (d := 0%nat) in Hj.
      rewrite seq_nth in Hj by exact Hlt. split; [lia | exact Hin]. }
    destruct Hki as [-> Hi].
    rewrite (last_dim_channel _ (slice_keeps_rectangular audio _ _ Hrect)).
    rewrite channel_of_slice.
    rewrite (last_dim_channel audio Hrect).
    apply piece_length; assumption.
Qed.

End SliceSample.

Lemma X20_slices_put_together_witness :
  exists slices,
    SampleProcessor.slice_sample (SampleProcessor.Mono [1; 2; 3; 4; 5; 6; 7; 8; 9; 10]) 3
    = Ok slices /\
    length slices = 3%nat /\
    Forall (fun s => ProcessorSpec.channels s = 1%nat) slices /\
    (forall c, (c < 1)%nat ->
               concat (map (ProcessorSpec.channel c) slices)
               = [1; 2; 3; 4; 5; 6; 7; 8; 9; 10]) /\
    (forall i s, nth_error slices i = Some s ->
                 SampleProcessor.last_dim s = if Z.of_nat i <? 2 then 3 else 4).
Proof.
  apply (X20_slices_put_together
           (SampleProcessor.Mono [1; 2; 3; 4; 5; 6; 7; 8; 9; 10]) 3 I).
  lia.
Defined.

Section SliceEdges.
Import SampleProcessor ProcessorSpec.
Context {sample : Type}.

Lemma slice_of_nothing (audio : Audio sample) : slice_data audio 0 0 = silence audio.
Proof.
  assert (Hrow : forall xs : list sample, py_slice 0 0 xs = []).
  { intros xs. rewrite py_slice_inside by lia. reflexivity. }
  destruct audio as [xs | rows]; cbn [slice_data silence]; f_equal; [apply Hrow|].
  apply map_ext. exact Hrow.
Qed.

Lemma slice_of_all (audio : Audio sample) :
  rectangular audio -> slice_data audio 0 (last_dim audio) = audio.
Proof.
  assert (Hrow : forall xs : list sample, py_slice 0 (Z.of_nat (length xs)) xs = xs).
  { intros xs. rewrite py_slice_inside by lia. cbn [Z.to_nat skipn].
    rewrite Nat.sub_0_r, Nat2Z.id. apply firstn_all. }
  destruct audio as [xs | rows]; cbn [slice_data]; intros Hrect.
  - cbn [last_dim]. rewrite Hrow. reflexivity.
  - destruct Hrect as [_ Hrows]. f_equal.
    transitivity (map (fun row : list sample => row) rows); [|apply List.map_id].
    apply map_ext_in. intros row Hin.
    rewrite List.Forall_forall in Hrows. rewrite <- (Hrows row Hin). apply Hrow.
Qed.

(** X21. The edges of slicing: zero slices raise [ZeroDivisionError]; a
    negative number gives no slice at all; and more slices than there are
    samples give empty slices followed by one slice that is the whole
    audio. *)
Theorem X21_slice_edge_cases (audio : Audio sample) (num_slices : Z) :
  (num_slices = 0 -> slice_sample audio num_slices = Raise ZeroDivisionError) /\
  (num_slices < 0 -> slice_sample audio num_slices = Ok []) /\
  (rectangular audio -> last_dim audio < num_slices ->
   slice_sample audio num_slices =
   Ok (repeat (silence audio) (Z.to_nat (num_slices - 1)) ++ [audio])).
Proof.
  split; [|split].
  - intros ->. reflexivity.
  - intros Hneg. unfold slice_sample. cbv zeta.
    destruct (num_slices =? 0) eqn:E0; [apply Z.eqb_eq in E0; lia|].
    unfold range. replace (Z.to_nat num_slices) with 0%nat by lia. reflexivity.
  - intros Hrect Hmore.
    assert (Hlen : 0 <= last_dim audio).
    { destruct audio as [xs | [|row rows]]; cbn [last_dim]; lia. }
    unfold slice_sample. cbv zeta.
    destruct (num_slices =? 0) eqn:E0; [apply Z.eqb_eq in E0; lia|].
    rewrite Z.div_small by lia.
    rewrite (range_split num_slices ltac:(lia)), map_app. cbn [map].
    rewrite Z.ltb_irrefl, Z.mul_0_r, (slice_of_all audio Hrect).
    f_equal. f_equal.
    rewrite <- (range_length (num_slices - 1)), <- map_const.
    apply map_ext_in. intros i Hi. apply in_range in Hi.
    replace (i <? num_slices - 1) with true by (symmetry; apply Z.ltb_lt; lia).
    rewrite Z.mul_0_r. apply slice_of_nothing.
Qed.

End SliceEdges.

Lemma X21_slice_edge_cases_witness :
  SampleProcessor.slice_sample (SampleProcessor.Channels [[1; 2]; [3; 4]]) 4 =
  Ok [SampleProcessor.Channels [[]; []]; SampleProcessor.Channels [[]; []];
      SampleProcessor.Channels [[]; []]; SampleProcessor.Channels [[1; 2]; [3; 4]]].
Proof.
  apply (proj2 (proj2 (X21_slice_edge_cases
                         (SampleProcessor.Channels [[1; 2]; [3; 4]]) 4))).
  - split; [discriminate | repeat constructor].
  - reflexivity.
Defined.

(** ** The processing pipeline *)

Section Pipeline.
Import CommandParser ParserSpec SampleProcessor ProcessorSpec.
Context {sample : Type} `{AudioLibrary sample}.
Variable sample_rate : Z.

(** What follows a slice is not run. *)
Lemma run_until_slice (pre post : list operation) (n : Z)
      (audio : Audio sample) (sr : Z) :
  run_operations sample_rate (pre ++ slice n :: post) audio sr =
  run_operations sample_rate (pre ++ [slice n]) audio sr.
Proof.
  revert audio. induction pre as [|op pre IH]; intros audio; [reflexivity|].
  cbn [app run_operations]. destruct op as [st | rate | kind cutoff | m].
  - destruct (SampleProcessor.pitch_shift sample_rate audio st (Some sr)) as [a|e];
      [apply IH | reflexivity].
  - destruct (SampleProcessor.time_stretch audio rate) as [a|e];
      [apply IH | reflexivity].
  - destruct (apply_filter sample_rate audio kind cutoff (Some sr)) as [a|e];
      [apply IH | reflexivity].
  - reflexivity.
Qed.

(** A run over operations with a slice among them ends in slices or in an
    exception. *)
Lemma run_with_slice (ops : list operation) (audio : Audio sample) (sr : Z) :
  existsb is_slice ops = true ->
  forall a, run_operations sample_rate ops audio sr <> Ok (Array a).
Proof.
  revert audio. induction ops as [|op ops IH]; intros audio Hs a; [discriminate|].
  cbn [run_operations]. destruct op as [st | rate | kind cutoff | m];
    cbn [existsb is_slice orb] in Hs.
  - destruct (SampleProcessor.pitch_shift sample_rate audio st (Some sr)) as [a'|e];
      [apply IH, Hs | discriminate].
  - destruct (SampleProcessor.time_stretch audio rate) as [a'|e];
      [apply IH, Hs | discriminate].
  - destruct (apply_filter sample_rate audio kind cutoff (Some sr)) as [a'|e];
      [apply IH, Hs | discriminate].
  - destruct (slice_sample audio m); discriminate.
Qed.

(** A run over operations without a slice ends in an array or in an
    exception. *)
Lemma run_without_slice (ops : list operation) (audio : Audio sample) (sr : Z) :
  existsb is_slice ops = false ->
  forall s, run_operations sample_rate ops audio sr <> Ok (Slices s).
Proof.
  revert audio. induction ops as [|op ops IH]; intros audio Hs s; [discriminate|].
  cbn [run_operations]. destruct op as [st | rate | kind cutoff | m];
    cbn [existsb is_slice orb] in Hs; try discriminate.
  - destruct (SampleProcessor.pitch_shift sample_rate audio st (Some sr)) as [a'|e];
      [apply IH, Hs | discriminate].
  - destruct (SampleProcessor.time_stretch audio rate) as [a'|e];
      [apply IH, Hs | discriminate].
  - destruct (apply_filter sample_rate audio kind cutoff (Some sr)) as [a'|e];
      [apply IH, Hs | discriminate].
Qed.

(** The run of a list of operations continues with the rest. *)
Lemma run_app (pre post : list operation) (audio a : Audio sample) (sr : Z) :
  run_operations sample_rate pre audio sr = Ok (Array a) ->
  run_operations sample_rate (pre ++ post) audio sr =
  run_operations sample_rate post a sr.
Proof.
  revert audio. induction pre as [|op pre IH]; intros audio Hrun.
  - injection Hrun as ->. reflexivity.
  - cbn [app run_operations] in *. destruct op as [st | rate | kind cutoff | m].
    + destruct (SampleProcessor.pitch_shift sample_rate audio st (Some sr)) as [a'|e];
        [apply IH, Hrun | discriminate].
    + destruct (SampleProcessor.time_stretch audio rate) as [a'|e];
        [apply IH, Hrun | discriminate].
    + destruct (apply_filter sample_rate audio kind cutoff (Some sr)) as [a'|e];
        [apply IH, Hrun | discriminate].
    + destruct (slice_sample audio m); discriminate.
Qed.

Lemma process_with_slice (file_path : string) (ops : list operation)
      (output_path : option string) :
  existsb is_slice ops = true ->
  process_command sample_rate file_path ops output_path =
  ([], snd (process_command sample_rate file_path ops None)).
Proof.
  intros Hs. unfold process_command.
  destruct (load_sample sample_rate file_path) as [[audio sr]|e]; [|reflexivity].
  pose proof (run_with_slice ops audio sr Hs) as Hrun.
  destruct (run_operations sample_rate ops audio sr) as [[a|s]|e]; try reflexivity.
  exfalso. apply (Hrun a). reflexivity.
Qed.

End Pipeline.

Section PipelineTheorems.
Import CommandParser ParserSpec SampleProcessor ProcessorSpec.

(** X22. A slice ends the processing: with a slice among the operations
    [process_command] writes no file, whatever output path it is given,
    and never returns an array; the operations after the first slice are
    not run. *)
Theorem X22_slice_ends_the_processing
        {sample : Type} `{AudioLibrary sample} (sample_rate : Z)
        (file_path : string) (pre post : list operation) (n : Z)
        (output_path : option string) :
  fst (process_command sample_rate file_path (pre ++ slice n :: post) output_path) = [] /\
  (forall a, snd (process_command sample_rate file_path (pre ++ slice n :: post)
                                  output_path) <> Ok (Array a)) /\
  process_command sample_rate file_path (pre ++ slice n :: post) output_path =
  process_command sample_rate file_path (pre ++ [slice n]) None.
Proof.
  assert (Hs : forall rest, existsb is_slice (pre ++ slice n :: rest) = true).
  { intros rest. rewrite existsb_app. cbn [existsb is_slice]. apply orb_true_r. }
  rewrite (process_with_slice sample_rate file_path _ output_path (Hs post)).
  rewrite (process_with_slice sample_rate file_path _ None (Hs [])).
  cbn [fst snd]. split; [reflexivity|].
  assert (Hrun : snd (process_command sample_rate file_path (pre ++ slice n :: post) None)
                 = snd (process_command sample_rate file_path (pre ++ [slice n]) None)).
  { unfold process_command.
    destruct (load_sample sample_rate file_path) as [[audio sr]|e]; [|reflexivity].
    rewrite run_until_slice. reflexivity. }
  split; [|rewrite Hrun; reflexivity].
  intros a. unfold process_command.
  destruct (load_sample sample_rate file_path) as [[audio sr]|e]; [|discriminate].
  pose proof (run_with_slice sample_rate _ audio sr (Hs post)) as Hno.
  destruct (run_operations sample_rate _ audio sr) as [[a'|s]|e]; try discriminate.
  exfalso. apply (Hno a'). reflexivity.
Qed.

Lemma unfiltered_kind (kind : string) :
  unfiltered kind ->
  String.eqb kind "lowpass" = false /\ String.eqb kind "highpass" = false.
Proof.
  intros [Hl Hh]. split; apply String.eqb_neq; assumption.
Qed.

Lemma run_without_filter {sample : Type} `{AudioLibrary sample} (sample_rate : Z)
      (pre post : list operation) (kind : string) (cutoff : Z)
      (audio : Audio sample) (sr : Z) :
  unfiltered kind ->
  run_operations sample_rate (pre ++ filter kind cutoff :: post) audio sr =
  run_operations sample_rate (pre ++ post) audio sr.
Proof.
  intros Hkind. destruct (unfiltered_kind kind Hkind) as [Hl Hh].
  revert audio. induction pre as [|op pre IH]; intros audio.
  - cbn [app run_operations]. unfold apply_filter. rewrite Hl, Hh. reflexivity.
  - cbn [app run_operations]. destruct op as [st | rate | k c | m].
    + destruct (SampleProcessor.pitch_shift sample_rate audio st (Some sr)) as [a|e];
        [apply IH | reflexivity].
    + destruct (SampleProcessor.time_stretch audio rate) as [a|e];
        [apply IH | reflexivity].
    + destruct (apply_filter sample_rate audio k c (Some sr)) as [a|e];
        [apply IH | reflexivity].
    + reflexivity.
Qed.

Lemma run_any_cutoff {sample : Type} `{AudioLibrary sample} (sample_rate : Z)
      (pre post : list operation) (kind : string) (cutoff cutoff' : Z)
      (audio : Audio sample) (sr : Z) :
  run_operations sample_rate (pre ++ filter kind cutoff :: post) audio sr =
  run_operations sample_rate (pre ++ filter kind cutoff' :: post) audio sr.
Proof.
  revert audio. induction pre as [|op pre IH]; intros audio; [reflexivity|].
  cbn [app run_operations]. destruct op as [st | rate | k c | m].
  - destruct (SampleProcessor.pitch_shift sample_rate audio st (Some sr)) as [a|e];
      [apply IH | reflexivity].
  - destruct (SampleProcessor.time_stretch audio rate) as [a|e];
      [apply IH | reflexivity].
  - destruct (apply_filter sample_rate audio k c (Some sr)) as [a|e];
      [apply IH | reflexivity].
  - reflexivity.
Qed.

(** X23. The cutoff of a filter operation has no effect on what
    [process_command] writes and returns, and a filter of a type other
    than "lowpass" and "highpass", "bandpass" among them, has no effect
    at all: the command runs as if the operation were not there. *)
Theorem X23_filter_cutoff_and_other_types
        {sample : Type} `{AudioLibrary sample} (sample_rate : Z)
        (file_path : string) (pre post : list operation)
        (kind : string) (cutoff : Z) (output_path : option string) :
  (forall cutoff' : Z,
      process_command sample_rate file_path (pre ++ filter kind cutoff :: post) output_path
      = process_command sample_rate file_path (pre ++ filter kind cutoff' :: post)
                        output_path) /\
  (unfiltered kind ->
   process_command sample_rate file_path (pre ++ filter kind cutoff :: post) output_path
   = process_command sample_rate file_path (pre ++ post) output_path).
Proof.
  split.
  - intros cutoff'. unfold process_command.
    destruct (load_sample sample_rate file_path) as [[audio sr]|e]; [|reflexivity].
    rewrite (run_any_cutoff sample_rate pre post kind cutoff cutoff'). reflexivity.
  - intros Hkind. unfold process_command.
    destruct (load_sample sample_rate file_path) as [[audio sr]|e]; [|reflexivity].
    rewrite (run_without_filter sample_rate pre post kind cutoff audio sr Hkind).
    reflexivity.
Qed.

End PipelineTheorems.

Lemma X23_filter_cutoff_and_other_types_witness :
  SampleProcessor.process_command
    44100 "a.wav" [CommandParser.pitch_shift 2; CommandParser.filter "bandpass" 300]
    (Some "out.wav")
  = SampleProcessor.process_command 44100 "a.wav" [CommandParser.pitch_shift 2]
                                    (Some "out.wav").
Proof.
  apply (proj2 (X23_filter_cutoff_and_other_types
                  44100 "a.wav" [CommandParser.pitch_shift 2] [] "bandpass" 300
                  (Some "out.wav"))).
  split; discriminate.
Defined.

Section Effects.
Import CommandParser ParserSpec ParsedSpec SampleProcessor ProcessorSpec.

Lemma on_channels_shape {sample : Type}
      (effect : list sample -> result (list sample)) (audio result : Audio sample) :
  on_channels effect audio = Ok result -> effect_shape audio result.
Proof.
  unfold on_channels, effect_shape. destruct audio as [xs | rows].
  - destruct (effect xs) as [a|e]; [|discriminate]. cbn [rbind].
    intros Hok. injection Hok as <-. eauto.
  - destruct rows as [|row0 [|row1 rest]]; [discriminate | |].
    + destruct (effect row0); discriminate.
    + destruct (effect row0) as [a|e]; [|discriminate]. cbn [rbind].
      destruct (effect row1) as [b|e]; [|discriminate]. cbn [rbind].
      unfold two_rows. destruct (Nat.eqb (length a) (length b)) eqn:E; [|discriminate].
      intros Hok. injection Hok as <-. split; [simpl; lia|].
      exists a, b. split; [reflexivity | apply Nat.eqb_eq, E].
Qed.

(** X24. An effect that returns, the pitch shift, the time stretch or a
    lowpass or highpass filter, gives one dimension for audio of one
    dimension, and for audio of two dimensions exactly two rows of one
    length: the audio needs at least two channels, and the channels after
    the second are dropped. *)
Theorem X24_effects_keep_two_channels
        {sample : Type} `{AudioLibrary sample} (sample_rate : Z)
        (audio result : Audio sample) :
  (exists semitones sr,
      SampleProcessor.pitch_shift sample_rate audio semitones sr = Ok result) \/
  (exists rate, SampleProcessor.time_stretch audio rate = Ok result) \/
  (exists kind cutoff sr,
      In kind ["lowpass"; "highpass"] /\
      apply_filter sample_rate audio kind cutoff sr = Ok result) ->
  effect_shape audio result.
Proof.
  intros [(st & sr & Hok) | [(rate & Hok) | (kind & cutoff & sr & Hkind & Hok)]].
  - exact (on_channels_shape _ _ _ Hok).
  - exact (on_channels_shape _ _ _ Hok).
  - unfold apply_filter in Hok. cbv zeta in Hok.
    simpl in Hkind. destruct Hkind as [<- | [<- | []]]; cbn in Hok.
    + exact (on_channels_shape _ _ _ Hok).
    + exact (on_channels_shape _ _ _ Hok).
Qed.

Lemma slice_is_last (ops : list operation) (n : Z) :
  in_checking_order ops -> In (slice n) ops ->
  exists pre, ops = pre ++ [slice n] /\ existsb is_slice pre = false.
Proof.
  unfold in_checking_order. induction ops as [|op ops IH]; intros Hs Hin; [contradiction|].
  cbn [map] in Hs. inversion Hs as [|? ? Hrest Hop]; subst.
  destruct Hin as [-> | Hin].
  - exists []. split; [|reflexivity]. destruct ops as [|op ops]; [reflexivity|].
    inversion Hop as [|? ? Hlt _]; subst. destruct op; cbn in Hlt; lia.
  - destruct (IH Hrest Hin) as (pre & -> & Hpre).
    exists (op :: pre). split; [reflexivity|]. cbn [existsb]. rewrite Hpre.
    rewrite map_app, Forall_app in Hop. destruct Hop as [_ Hop].
    inversion Hop as [|? ? Hlt _]; subst.
    destruct op; cbn in Hlt; try lia; reflexivity.
Qed.

(** X25. The parser and the processor together: a slice of a parsed
    command is its last operation and has a count that is not negative;
    [process_command] then writes no file, and once the operations before
    the slice have given an array it returns the slices of that array. *)
Theorem X25_slice_of_a_parsed_command
        (text : string) (p : option string) (ops : list operation)
        (b : option Z) (bt n : Z) :
  parse text = Ok (sample_process p ops b bt) ->
  In (slice n) ops ->
  0 <= n /\
  exists pre,
    ops = pre ++ [slice n] /\ existsb is_slice pre = false /\
    forall (sample : Type) (library : AudioLibrary sample) (sample_rate : Z)
           (file_path : string) (output_path : option string),
      fst (process_command sample_rate file_path ops output_path) = [] /\
      forall (audio a : Audio sample) (sr : Z),
        librosa_load file_path sample_rate = Ok (audio, sr) ->
        run_operations sample_rate pre audio sr = Ok (Array a) ->
        snd (process_command sample_rate file_path ops output_path) =
        let* slices := slice_sample a n in Ok (Slices slices).
Proof.
  intros Hparse Hin.
  assert (Hops : in_checking_order ops /\ Forall operation_in_range ops).
  { destruct (parse_cases text) as [Hc | [Hc | Hc]]; rewrite Hc in Hparse.
    - split.
      + pose proof (sample_returns (Str.strip (Str.lower text))) as Hs.
        rewrite Hparse in Hs. destruct Hs as (p' & ops' & b' & bt' & Heq & Hord).
        injection Heq as <- <- <- <-. exact Hord.
      + exact (proj1 (sample_in_range _ _ Hparse)).
    - destruct (generate_returns (Str.strip (Str.lower text)))
        as (g & bp & k & n' & i & Hg & _).
      rewrite Hg in Hparse. discriminate.
    - discriminate. }
  destruct Hops as [Hord Hrange]. split.
  - rewrite List.Forall_forall in Hrange. exact (Hrange _ Hin).
  - destruct (slice_is_last ops n Hord Hin) as (pre & -> & Hpre).
    exists pre. split; [reflexivity|]. split; [exact Hpre|].
    intros sample library sample_rate file_path output_path.
    assert (Hs : existsb is_slice (pre ++ [slice n]) = true).
    { rewrite existsb_app. cbn [existsb is_slice]. apply orb_true_r. }
    rewrite (process_with_slice sample_rate file_path _ output_path Hs).
    split; [reflexivity|]. intros audio a sr Hload Hrun. cbn [snd].
    unfold process_command, load_sample. rewrite Hload.
    rewrite (run_app sample_rate pre [slice n] audio a sr Hrun).
    cbn [run_operations]. destruct (slice_sample a n); reflexivity.
Qed.

(** X26. Without a slice among the operations, a call that returns gives
    an array; it has written that array once, to the output path and with
    the sample rate of the loaded file, when the path is given and not
    empty, and it has written nothing otherwise. *)
Theorem X26_array_is_written_once
        {sample : Type} `{AudioLibrary sample} (sample_rate : Z)
        (file_path : string) (ops : list operation) (output_path : option string)
        (r : Processed sample) :
  existsb is_slice ops = false ->
  snd (process_command sample_rate file_path ops output_path) = Ok r ->
  exists (audio a : Audio sample) (sr : Z),
    librosa_load file_path sample_rate = Ok (audio, sr) /\
    r = Array a /\
    fst (process_command sample_rate file_path ops output_path) =
    if truthy_str output_path
    then [(default "" output_path, frames a, sr_or sample_rate (Some sr))]
    else [].
Proof.
  intros Hs. unfold process_command, load_sample.
  destruct (librosa_load file_path sample_rate) as [[audio sr]|e]; [|discriminate].
  pose proof (run_without_slice sample_rate ops audio sr Hs) as Hno.
  destruct (run_operations sample_rate ops audio sr) as [[a|s]|e];
    [| exfalso; apply (Hno s); reflexivity | discriminate].
  destruct (truthy_str output_path).
  - unfold save_sample. cbv zeta. cbn [fst snd].
    destruct (sf_write _ _ _); [|discriminate]. cbn [rbind].
    intros Hok. injection Hok as <-.
    exists audio, a, sr. split; [reflexivity|]. split; [reflexivity|].
    destruct a; reflexivity.
  - cbn [fst snd]. intros Hok. injection Hok as <-.
    exists audio, a, sr. split; [reflexivity|]. split; reflexivity.
Qed.

End Effects.

Lemma X24_effects_keep_two_channels_witness :
  ProcessorSpec.effect_shape
    (SampleProcessor.Channels [[1; 2]; [3; 4]; [5; 6]])
    (SampleProcessor.Channels [[1; 2]; [3; 4]]).
Proof.
  apply (X24_effects_keep_two_channels
           44100 (SampleProcessor.Channels [[1; 2]; [3; 4]; [5; 6]])
           (SampleProcessor.Channels [[1; 2]; [3; 4]])).
  right. left. exists 0.5%Q. reflexivity.
Defined.

Lemma X25_slice_of_a_parsed_command_witness :
  CommandParser.parse "take a.wav slice 4 pitch 3" =
    Ok (CommandParser.sample_process
          (Some "a.wav") [CommandParser.pitch_shift 3; CommandParser.slice 4] None 1) /\
  0 <= 4.
Proof.
  split; [vm_compute; reflexivity|].
  apply (X25_slice_of_a_parsed_command
           "take a.wav slice 4 pitch 3" (Some "a.wav")
           [CommandParser.pitch_shift 3; CommandParser.slice 4] None 1 4).
  - vm_compute; reflexivity.
  - right; left; reflexivity.
Defined.

Lemma X26_array_is_written_once_witness :
  exists (audio a : SampleProcessor.Audio Z) (sr : Z),
    SampleProcessor.librosa_load "a.wav" 44100 = Ok (audio, sr) /\
    SampleProcessor.Array (SampleProcessor.Channels [[1; 2; 3; 4; 5; 6]; [7; 8; 9; 10; 11; 12]])
    = SampleProcessor.Array a /\
    fst (SampleProcessor.process_command
           44100 "a.wav" [CommandParser.time_stretch 0.5] (Some "out.wav")) =
    [("out.wav", ProcessorSpec.frames a, SampleProcessor.sr_or 44100 (Some sr))].
Proof.
  apply (X26_array_is_written_once
           44100 "a.wav" [CommandParser.time_stretch 0.5] (Some "out.wav")
           (SampleProcessor.Array
              (SampleProcessor.Channels [[1; 2; 3; 4; 5; 6]; [7; 8; 9; 10; 11; 12]]))).
  - reflexivity.
  - reflexivity.
Defined.

(** ** Sending a pattern *)

Section SentNotes.
Import PatternBuilder FLStudioController ControllerSpec.
Context `{MidiLibrary}.

Lemma andthen_returns {A B : Type} (m : Run A) (k : A -> Run B) (b : B) :
  snd (andthen m k) = Ok b ->
  exists a, snd m = Ok a /\ snd (k a) = Ok b /\ fst (andthen m k) = fst m ++ fst (k a).
Proof.
  unfold andthen. destruct (snd m) as [a|e] eqn:Hm; [|discriminate].
  cbn [fst snd]. intros Hk. exists a. auto.
Qed.

Lemma note_calls (note velocity : Z) (duration : Q) (channel : Z) :
  snd (send_midi_note true note velocity duration channel) = Ok tt ->
  fst (send_midi_note true note velocity duration channel) =
  [Send {| msg_type := note_on; msg_note := note;
           msg_velocity := velocity; msg_channel := channel |};
   Sleep duration;
   Send {| msg_type := note_off; msg_note := note;
           msg_velocity := 0; msg_channel := channel |}].
Proof.
  unfold send_midi_note. cbn [negb]. intros Hok.
  apply andthen_returns in Hok as (m1 & Hm1 & Hok & ->).
  unfold new_message in Hm1 at 1. cbn [snd] in Hm1.
  destruct (mido_Message _) as [[]|]; [|discriminate]. injection Hm1 as <-.
  apply andthen_returns in Hok as ([] & _ & Hok & ->).
  apply andthen_returns in Hok as ([] & _ & Hok & ->).
  apply andthen_returns in Hok as (m2 & Hm2 & Hok & ->).
  unfold new_message in Hm2 at 1. cbn [snd] in Hm2.
  destruct (mido_Message _) as [[]|]; [|discriminate]. injection Hm2 as <-.
  reflexivity.
Qed.

Lemma loop_calls (channel : Z) (notes : list NoteEvent) :
  snd (for_notes (fun note_data =>
                    sleep (time note_data) ;;;
                    send_midi_note true (note note_data) (velocity note_data)
                                   (duration note_data) channel) notes) = Ok tt ->
  fst (for_notes (fun note_data =>
                    sleep (time note_data) ;;;
                    send_midi_note true (note note_data) (velocity note_data)
                                   (duration note_data) channel) notes)
  = flat_map (event_calls channel) notes.
Proof.
  induction notes as [|e notes IH]; [reflexivity|]. cbn [for_notes flat_map].
  intros Hok.
  apply andthen_returns in Hok as ([] & Hbody & Hrest & ->).
  rewrite (IH Hrest). f_equal.
  apply andthen_returns in Hbody as ([] & _ & Hnote & ->).
  rewrite (note_calls _ _ _ _ Hnote). reflexivity.
Qed.

Lemma pattern_calls (pattern_name : string) (notes : list NoteEvent) (channel : Z) :
  snd (create_pattern true pattern_name notes channel) = Ok tt ->
  fst (create_pattern true pattern_name notes channel) =
  Print ("Creating pattern: " ++ pattern_name)%string
        :: flat_map (event_calls channel) notes.
Proof.
  unfold create_pattern. cbn [negb]. intros Hok.
  apply andthen_returns in Hok as ([] & _ & Hloop & ->).
  cbv zeta in Hloop. cbv zeta. rewrite (loop_calls channel notes Hloop). reflexivity.
Qed.

Lemma sent_messages (channel : Z) (notes : list NoteEvent) (elapsed : Q) :
  map snd (sent_at elapsed (flat_map (event_calls channel) notes)) =
  flat_map (fun e => [on_message channel e; off_message channel e]) notes.
Proof.
  revert elapsed. induction notes as [|e notes IH]; intros elapsed; [reflexivity|].
  cbn [flat_map event_calls app sent_at map snd]. rewrite IH. reflexivity.
Qed.

Lemma slept_through (channel : Z) (notes : list NoteEvent) :
  (slept (flat_map (event_calls channel) notes) == played_through notes)%Q.
Proof.
  induction notes as [|e notes IH]; [reflexivity|].
  cbn [flat_map event_calls app slept played_through]. rewrite IH. ring.
Qed.

Lemma note_on_sent_at (channel : Z) (notes : list NoteEvent) (elapsed : Q)
      (k : nat) (e : NoteEvent) :
  nth_error notes k = Some e ->
  exists q,
    nth_error (sent_at elapsed (flat_map (event_calls channel) notes)) (2 * k)
    = Some (q, on_message channel e) /\
    (q == elapsed + played_through (firstn k notes) + time e)%Q.
Proof.
  revert elapsed k. induction notes as [|e0 notes IH]; intros elapsed k Hk.
  - destruct k; discriminate.
  - destruct k as [|k].
    + injection Hk as ->. eexists. split; [reflexivity|].
      cbn [firstn played_through]. ring.
    + cbn [nth_error] in Hk.
      destruct (IH (elapsed + time e0 + duration e0)%Q k Hk) as (q & Hq & Heq).
      exists q. split.
      * replace (2 * S k)%nat with (S (S (2 * k))) by lia.
        cbn [flat_map event_calls app sent_at nth_error]. exact Hq.
      * rewrite Heq. cbn [firstn played_through]. ring.
Qed.

End SentNotes.

Section ControllerTheorems.
Import PatternBuilder FLStudioController ControllerSpec.

(** X27. Without a MIDI connection [create_pattern] prints one line and
    sends and sleeps nothing.  With one, a run that returns has sent, for
    each event in order, its note-on and then its note-off with velocity
    0, so that no two notes sound together; the note-on of an event is sent
    after sleeping its own time and the times and durations of all events
    before it; and the run has slept the sum of all times and durations. *)
Theorem X27_pattern_is_sent_one_note_after_another
        {library : MidiLibrary}
        (pattern_name : string) (notes : list NoteEvent) (channel : Z) :
  create_pattern false pattern_name notes channel =
    ([Print "No MIDI connection available"], Ok tt) /\
  (snd (create_pattern true pattern_name notes channel) = Ok tt ->
   map snd (sent_at 0 (fst (create_pattern true pattern_name notes channel))) =
     flat_map (fun e => [on_message channel e; off_message channel e]) notes /\
   (slept (fst (create_pattern true pattern_name notes channel))
    == played_through notes)%Q /\
   forall (k : nat) (e : NoteEvent),
     nth_error notes k = Some e ->
     exists q,
       nth_error (sent_at 0 (fst (create_pattern true pattern_name notes channel)))
                 (2 * k) = Some (q, on_message channel e) /\
       (q == played_through (firstn k notes) + time e)%Q).
Proof.
  split; [reflexivity|]. intros Hok.
  rewrite (pattern_calls pattern_name notes channel Hok).
  cbn [sent_at slept]. split; [apply sent_messages|]. split; [apply slept_through|].
  intros k e Hk.
  destruct (note_on_sent_at channel notes 0 k e Hk) as (q & Hq & Heq).
  exists q. split; [exact Hq|]. rewrite Heq. ring.
Qed.

End ControllerTheorems.

Lemma X27_pattern_is_sent_one_note_after_another_witness :
  snd (FLStudioController.create_pattern true "trap_140bpm" kick_then_hat 0) = Ok tt /\
  (ControllerSpec.slept
     (fst (FLStudioController.create_pattern true "trap_140bpm" kick_then_hat 0))
   == 7 # 8)%Q.
Proof.
  split; [reflexivity|].
  rewrite (proj1 (proj2 (proj2 (X27_pattern_is_sent_one_note_after_another
                                  (library := calls_return)
                                  "trap_140bpm" kick_then_hat 0) eq_refl))).
  reflexivity.
Defined.

(** ** Combining in stages *)

Section Stages.
Import PatternBuilder PatternSpec.

Lemma at_time_self (x : NoteEvent) (l : list NoteEvent) :
  at_time (time x) (x :: l) = x :: at_time (time x) l.
Proof.
  unfold at_time. cbn [List.filter].
  replace (Qeq_bool (time x) (time x)) with true; [reflexivity|].
  symmetry. apply Qeq_bool_iff. reflexivity.
Qed.

Lemma at_time_later (t : Q) (l : list NoteEvent) :
  Forall (fun e => (t < time e)%Q) l -> at_time t l = [].
Proof.
  induction 1 as [|y l Hy _ IH]; [reflexivity|].
  unfold at_time in *. cbn [List.filter]. rewrite IH.
  destruct (Qeq_bool (time y) t) eqn:E; [|reflexivity].
  apply Qeq_bool_iff in E. rewrite E in Hy. exfalso. exact (Qlt_irrefl _ Hy).
Qed.

(** The first event of a list in time order is the first of those that
    start at the earliest time. *)
Lemma first_of_sorted (x y : NoteEvent) (l1 l2 : list NoteEvent) :
  StronglySorted time_le (x :: l1) -> StronglySorted time_le (y :: l2) ->
  (forall t, at_time t (x :: l1) = at_time t (y :: l2)) ->
  (time x <= time y)%Q -> x = y.
Proof.
  intros H1 H2 Hat Hle.
  specialize (Hat (time x)). rewrite at_time_self in Hat.
  destruct (Qlt_le_dec (time x) (time y)) as [Hlt | Hge].
  - rewrite (at_time_later (time x) (y :: l2)) in Hat; [discriminate|].
    inversion H2 as [|? ? _ Hy]; subst. constructor; [exact Hlt|].
    eapply Forall_impl; [exact Hy|]. intros e He. unfold time_le in He.
    eapply Qlt_le_trans; eassumption.
  - assert (Heq : (time y == time x)%Q) by (apply Qle_antisym; assumption).
    unfold at_time in Hat at 2. cbn [List.filter] in Hat.
    apply Qeq_bool_iff in Heq. rewrite Heq in Hat. injection Hat as Hxy _. exact Hxy.
Qed.

(** Two lists in time order that hold the same events at every time, in the
    same order, are one list. *)
Lemma sorted_by_groups (l1 l2 : list NoteEvent) :
  StronglySorted time_le l1 -> StronglySorted time_le l2 ->
  (forall t, at_time t l1 = at_time t l2) -> l1 = l2.
Proof.
  revert l2. induction l1 as [|x l1 IH]; intros l2 H1 H2 Hat.
  - destruct l2 as [|y l2]; [reflexivity|].
    specialize (Hat (time y)). rewrite at_time_self in Hat. discriminate.
  - destruct l2 as [|y l2].
    + specialize (Hat (time x)). rewrite at_time_self in Hat. discriminate.
    + assert (Hxy : x = y).
      { destruct (Qlt_le_dec (time y) (time x)) as [Hlt | Hle].
        - symmetry. apply (first_of_sorted y x l2 l1); auto.
          apply Qlt_le_weak, Hlt.
        - apply (first_of_sorted x y l1 l2); auto. }
      subst y. f_equal.
      inversion H1; inversion H2; subst. apply IH; [assumption | assumption |].
      intros t. specialize (Hat t). unfold at_time in *. cbn [List.filter] in Hat.
      destruct (Qeq_bool (time x) t); [injection Hat as Hat|]; exact Hat.
Qed.

(** X28. Combining in stages is combining at once: a combined pattern
    combined with further patterns gives what all the patterns give
    together, so combining a combined pattern alone changes nothing; and
    no pattern at all gives the empty pattern. *)
Theorem X28_combining_in_stages (ps qs : list (list NoteEvent)) :
  combine_patterns (combine_patterns ps :: qs) = combine_patterns (ps ++ qs) /\
  combine_patterns [combine_patterns ps] = combine_patterns ps /\
  combine_patterns [] = [].
Proof.
  assert (Hstage : forall qs',
             combine_patterns (combine_patterns ps :: qs') = combine_patterns (ps ++ qs')).
  { intros qs'.
    destruct (combine_is_stable_sort (combine_patterns ps :: qs')) as (_ & Hs1 & Ht1).
    destruct (combine_is_stable_sort (ps ++ qs')) as (_ & Hs2 & Ht2).
    destruct (combine_is_stable_sort ps) as (_ & _ & Ht).
    apply sorted_by_groups; [exact Hs1 | exact Hs2 |].
    intros t. rewrite Ht1, Ht2. cbn [concat]. rewrite concat_app.
    unfold at_time in *. rewrite !List.filter_app. f_equal. apply Ht. }
  split; [apply Hstage|]. split; [|reflexivity].
  rewrite Hstage, app_nil_r. reflexivity.
Qed.

End Stages.

(** ** Sending a generated beat *)

Section TimedEvents.
Import PatternBuilder PatternSpec SendSpec.
Context {rng : Type} `{RandomSource rng}.
Variable self : PatternBuilder.
Hypothesis Hsd : (0 < step_duration self)%Q.

Ltac lasting :=
  cbn [fst];
  rewrite ?Forall_app, ?Forall_cons, ?Forall_nil; repeat split;
  try assumption;
  cbn [duration]; unfold Qdiv; change (/ 3)%Q with (1 # 3)%Q;
  pose proof Hsd as Hsd'; set (sd := step_duration self) in *; clearbody sd; lra.

Lemma drum_pattern_lasting (style : string) (bars : Z) (complexity : Q) (g : rng) :
  Forall (fun e => (0 <= duration e)%Q)
         (fst (create_drum_pattern self style bars complexity g)).
Proof.
  rewrite create_drum_pattern_style.
  destruct (style_of style);
    (apply (for_each_invariant (Forall (fun e => (0 <= duration e)%Q))); [|constructor]);
    intros step notes g0 _ Hnotes.
  - unfold memphis_step. cbv zeta. decide_step; lasting.
  - unfold trap_step. cbv zeta.
    change (range 3) with [0; 1; 2]. cbn [for_each]. unfold roll_hit.
    decide_step; lasting.
  - unfold lofi_step. cbv zeta. decide_step; lasting.
  - unfold boom_bap_step. cbv zeta. decide_step; lasting.
  - unfold basic_step, append_fixed. cbv zeta. decide_step; lasting.
Qed.

Lemma drum_pattern_timed (style : string) (bars : Z) (complexity : Q) (g : rng) :
  Forall timed (fst (create_drum_pattern self style bars complexity g)).
Proof.
  pose proof (drum_pattern_in_span self bars Hsd style complexity g) as Hspan.
  pose proof (drum_pattern_lasting style bars complexity g) as Hlast.
  rewrite List.Forall_forall in *. intros e He. split.
  - exact (proj1 (Hspan e He)).
  - exact (Hlast e He).
Qed.

(** An invariant of a loop whose body may raise. *)
Lemma for_each_raising_invariant {A : Type} (I : list NoteEvent -> Prop)
      (body : A -> list NoteEvent -> rng -> result (list NoteEvent * rng))
      (xs : list A) :
  (forall x notes g notes' g',
      In x xs -> I notes -> body x notes g = Ok (notes', g') -> I notes') ->
  forall notes g notes' g',
    I notes -> for_each_raising body xs notes g = Ok (notes', g') -> I notes'.
Proof.
  induction xs as [|x xs IH]; intros Hbody notes g notes' g' Hn Hok; simpl in Hok.
  - injection Hok as <- _. exact Hn.
  - destruct (body x notes g) as [[n1 g1]|e] eqn:Hb; [|discriminate].
    cbn [rbind fst snd] in Hok.
    apply (IH (fun y n0 g0 n0' g0' Hy => Hbody y n0 g0 n0' g0' (or_intror Hy))
              n1 g1 notes' g'); [|exact Hok].
    exact (Hbody x notes g n1 g1 (or_introl eq_refl) Hn Hb).
Qed.

Hypothesis Hspb : 0 <= steps_per_bar self.

Lemma step_time (step : Z) : 0 <= step -> (0 <= inject_Z step * step_duration self)%Q.
Proof.
  intros Hstep. apply Qmult_le_0_compat; [|apply Qlt_le_weak, Hsd].
  change 0%Q with (inject_Z 0). rewrite <- Zle_Qle. exact Hstep.
Qed.

Ltac bass_timed Hstep :=
  rewrite Forall_app; split; [assumption|];
  constructor; [|constructor]; split; cbn [time duration];
  [ apply step_time; Hstep
  | pose proof Hsd as Hsd'; set (sd := step_duration self) in *; clearbody sd; lra ].

Lemma bassline_timed (root_note : Z) (scale : list Z) (bars : Z)
      (pattern_type : string) (g g' : rng) (notes : list NoteEvent) :
  create_808_bassline self root_note scale bars pattern_type g = Ok (notes, g') ->
  Forall timed notes.
Proof.
  unfold create_808_bassline. cbv zeta.
  destruct (String.eqb pattern_type "simple");
    [|destruct (String.eqb pattern_type "bouncy");
      [|destruct (String.eqb pattern_type "rolling")]].
  - apply (for_each_raising_invariant (Forall timed)); [|constructor].
    intros bar n0 g0 n1 g1 Hbar Hn0.
    apply (for_each_raising_invariant (Forall timed)); [|exact Hn0].
    intros beat n2 g2 n3 g3 Hbeat Hn2. unfold simple_hit. cbv zeta.
    destruct (randint 100 120 g2) as [v g4]. intros Hok. injection Hok as <- _.
    apply in_range in Hbar.
    bass_timed ltac:(simpl in Hbeat; nia).
  - apply (for_each_raising_invariant (Forall timed)); [|constructor].
    intros bar n0 g0 n1 g1 Hbar Hn0.
    apply (for_each_raising_invariant (Forall timed)); [|exact Hn0].
    intros pos n2 g2 n3 g3 Hpos Hn2. unfold bouncy_hit. cbv zeta.
    destruct (choice (firstn 4 scale) g2) as [[i g4]|e]; [|discriminate].
    cbn [rbind fst snd]. destruct (randint 90 110 g4) as [v g5].
    intros Hok. injection Hok as <- _.
    apply in_range in Hbar.
    bass_timed ltac:(simpl in Hpos; nia).
  - apply (for_each_raising_invariant (Forall timed)); [|constructor].
    intros step n0 g0 n1 g1 Hstep Hn0. unfold rolling_hit. cbv zeta.
    destruct (choice (firstn 3 scale) g0) as [[i g4]|e]; [|discriminate].
    cbn [rbind fst snd]. destruct (randint 80 100 g4) as [v g5].
    intros Hok. injection Hok as <- _.
    unfold range_by_two in Hstep. apply filter_In in Hstep as [Hstep _].
    apply in_range in Hstep.
    bass_timed ltac:(lia).
  - intros Hok. injection Hok as <- _. constructor.
Qed.

End TimedEvents.

Section SendingABeat.
Import PatternBuilder PatternSpec MusicGenerator GeneratorSpec DrawSpec BeatSpec.
Import FLStudioController ControllerSpec SendSpec.

(** The two patterns of a returned beat, as the calls that made them. *)
Lemma generated_patterns {rng : Type} `{RandomSource rng}
      (genre : string) (bpm : option Z) (key : string)
      (bars : Z) (include_808 : bool) (g g' : rng) (b : Beat) (template : Template) :
  template_for genre = Some template ->
  snd (generate_beat genre bpm key bars include_808 g) = Ok (b, g') ->
  exists pb g1,
    __init__ (beat_bpm b) default_steps_per_bar = Ok pb /\
    beat_drum_pattern b =
      fst (create_drum_pattern pb (drum_style template) bars (complexity template) g1) /\
    (beat_bass_pattern b = [] \/
     exists root_note intervals g2,
       create_808_bassline pb root_note intervals bars (bass_pattern template) g2
       = Ok (beat_bass_pattern b, g')) /\
    beat_combined_pattern b =
      combine_patterns [beat_drum_pattern b; beat_bass_pattern b].
Proof.
  intros Ht. rewrite (generate_beat_template _ _ _ _ _ _ _ Ht). cbv zeta.
  set (bg := match bpm with
             | Some n => (n, g)
             | None => randint (fst (tempo_range template)) (snd (tempo_range template)) g
             end).
  clearbody bg. destruct bg as [n g0]. cbn [fst snd].
  destruct (__init__ n default_steps_per_bar) as [pb|e] eqn:Hinit; [|discriminate].
  cbn [rbind].
  destruct include_808.
  - destruct (SCALES !! snd (_parse_key key (scale template))) as [intervals|];
      [|discriminate].
    destruct (create_808_bassline pb _ intervals bars _ _) as [[bass g2]|e] eqn:Hbass;
      [|discriminate].
    cbn [rbind fst snd]. intros Hok. injection Hok as <- <-.
    exists pb, g0. cbn [beat_bpm beat_drum_pattern beat_bass_pattern beat_combined_pattern].
    split; [exact Hinit|]. split; [reflexivity|]. split; [|reflexivity].
    right. eauto.
  - cbn [rbind fst snd]. intros Hok. injection Hok as <- <-.
    exists pb, g0. cbn [beat_bpm beat_drum_pattern beat_bass_pattern beat_combined_pattern].
    split; [exact Hinit|]. split; [reflexivity|]. split; [|reflexivity].
    left. reflexivity.
Qed.

Lemma andthen_ok {A B : Type} (m : Run A) (k : A -> Run B) (a : A) (b : B) :
  snd m = Ok a -> snd (k a) = Ok b -> snd (andthen m k) = Ok b.
Proof. intros Hm Hk. unfold andthen. rewrite Hm. exact Hk. Qed.

(** Events that can be sent are sent: with libraries that take what they
    document, the run returns. *)
Lemma playable_is_sent {library : MidiLibrary}
      (pattern_name : string) (notes : list NoteEvent) (channel : Z) :
  accepting library -> 0 <= channel <= 15 ->
  Forall playable notes ->
  snd (create_pattern true pattern_name notes channel) = Ok tt.
Proof.
  intros (Hsleep & Hmessage & Hsend) Hchannel Hnotes.
  unfold create_pattern. cbn [negb].
  apply (andthen_ok _ _ tt); [reflexivity|]. cbv zeta.
  induction Hnotes as [|e notes (Hnote & Hvel & Htime & Hdur) _ IH]; [reflexivity|].
  cbn [for_notes]. apply (andthen_ok _ _ tt); [|exact IH].
  apply (andthen_ok _ _ tt); [exact (Hsleep _ Htime)|].
  unfold send_midi_note. cbn [negb].
  eapply andthen_ok.
  { unfold new_message. cbn [snd]. rewrite Hmessage by (cbn; lia). reflexivity. }
  apply (andthen_ok _ _ tt); [apply Hsend|].
  apply (andthen_ok _ _ tt); [exact (Hsleep _ Hdur)|].
  eapply andthen_ok.
  { unfold new_message. cbn [snd]. rewrite Hmessage by (cbn; lia). reflexivity. }
  apply Hsend.
Qed.

(** X29. The generator and the controller together: with draws in range,
    every event of the combined pattern of a beat of a positive tempo has
    data bytes for note and velocity and times that are not negative; so
    with libraries that take what they document, sending the pattern on a
    channel from 0 to 15 returns without an exception, after two messages
    for each event. *)
Theorem X29_generated_beat_is_sent
        {rng : Type} `{RandomSource rng} {library : MidiLibrary}
        (genre : string) (bpm : option Z) (key : string)
        (bars : Z) (include_808 : bool) (g g' : rng) (b : Beat)
        (pattern_name : string) (channel : Z) :
  in_range_draws rng -> accepting library -> 0 <= channel <= 15 ->
  snd (generate_beat genre bpm key bars include_808 g) = Ok (b, g') ->
  0 < beat_bpm b ->
  Forall playable (beat_combined_pattern b) /\
  snd (create_pattern true pattern_name (beat_combined_pattern b) channel) = Ok tt /\
  length (sent_at 0 (fst (create_pattern true pattern_name
                                         (beat_combined_pattern b) channel)))
  = (2 * length (beat_combined_pattern b))%nat.
Proof.
  intros Hdraws Haccepting Hchannel Hok Hpos.
  destruct (template_for_known genre) as (name & template & Hname & Ht).
  destruct (generated_patterns genre bpm key bars include_808 g g' b template Ht Hok)
    as (pb & g1 & Hinit & Hdrums & Hbass & _).
  assert (Hsd : (0 < step_duration pb)%Q).
  { apply (init_step_duration_pos _ _ _ Hinit Hpos). reflexivity. }
  destruct (init_fields _ _ _ Hinit) as (_ & _ & Hspb & _).
  assert (Htimed : Forall timed (beat_drum_pattern b ++ beat_bass_pattern b)).
  { rewrite Forall_app. split.
    - rewrite Hdrums. apply drum_pattern_timed, Hsd.
    - destruct Hbass as [-> | (root_note & intervals & g2 & Hcall)]; [constructor|].
      apply (bassline_timed pb Hsd ltac:(rewrite Hspb; discriminate) _ _ _ _ _ _ _ Hcall). }
  destruct (generated_hits genre bpm key bars include_808 g g' b Hdraws Hok) as [Hd Hb].
  pose proof (generated_combined genre bpm key bars include_808 g g' b Hok) as Hperm.
  assert (Hplayable : Forall playable (beat_combined_pattern b)).
  { apply (Permutation_Forall (Permutation_sym Hperm)).
    rewrite List.Forall_forall in *. intros e He.
    assert (Hmidi : midi_note e).
    { apply in_app_or in He as [He | He];
        [apply drum_hit_midi, Hd, He | apply bass_note_midi, Hb, He]. }
    destruct Hmidi as [Hnote Hvel].
    split; [exact Hnote|]. split; [lia|]. apply Htimed, He. }
  split; [exact Hplayable|].
  pose proof (playable_is_sent pattern_name _ channel Haccepting Hchannel Hplayable)
    as Hsent.
  split; [exact Hsent|].
  rewrite (pattern_calls pattern_name _ channel Hsent). cbn [sent_at].
  rewrite <- (length_map snd), sent_messages.
  clear. induction (beat_combined_pattern b) as [|e l IH]; [reflexivity|].
  cbn [flat_map app length]. rewrite IH. lia.
Qed.

End SendingABeat.

Lemma X29_generated_beat_is_sent_witness :
  exists b g',
    snd (MusicGenerator.generate_beat "trap" (Some 140) "C" 1 true always_low)
    = Ok (b, g') /\
    snd (FLStudioController.create_pattern
           true "trap_140bpm" (MusicGenerator.beat_combined_pattern b) 0) = Ok tt.
Proof.
  destruct (snd (MusicGenerator.generate_beat "trap" (Some 140) "C" 1 true always_low))
    as [[b g']|e] eqn:Hok; [|vm_compute in Hok; discriminate].
  exists b, g'. split; [reflexivity|].
  assert (Hbpm : MusicGenerator.beat_bpm b = 140).
  { pose proof (f_equal (GeneratorSpec.map_result
                           (fun r => MusicGenerator.beat_bpm (fst r))) Hok) as Hb.
    cbn [GeneratorSpec.map_result fst] in Hb.
    match type of Hb with
    | ?l = _ => let v := eval vm_compute in l in change l with v in Hb
    end.
    injection Hb as Hb. symmetry. exact Hb. }
  apply (X29_generated_beat_is_sent
           (library := calls_return)
           "trap" (Some 140) "C" 1 true always_low g' b "trap_140bpm" 0
           tape_in_range).
  - repeat split.
  - lia.
  - exact Hok.
  - rewrite Hbpm. lia.
Defined.
